(** * OregonBridge: pulse decoding, checksum validation and dispatch

    A shallow embedding of the decoding core of the OregonBridge Arduino
    library (DecodeOOK.h, OregonDevice_v1.h, OregonDevice_v2.h, Device.h and
    OregonBridge.cpp), followed by the properties established about it.

    Conventions.
    - A [byte] counter or buffer cell is a [Z] kept in [0, 256); every C++
      assignment to a [byte] is followed by [to_byte] (reduction modulo 256).
    - The integer types are those of the AVR targets: [unsigned int] and
      [word] have 16 bits ([to_uint], [to_word]), [int] is their signed
      counterpart ([to_int]) and [char] is signed, so that the -1 returned
      by [decode] is the -1 tested by [nextPulse].  The checksum routines
      mask their result with [0xff], so the width of [unsigned int] does
      not influence them (lemma [sub_mask_any_width]).
    - [float] has 32 bits on the AVR targets; the model computes with the
      binary64 primitive floats.  The two [getTemperature] therefore agree
      with the code only where every value involved is represented exactly
      in both formats, as for the packet 1A 2D 20 8B 58 21 40 C7 4C 8C
      (0.5, 21 and 21.5); elsewhere the code returns the 32-bit value
      nearest to the decimal reading.  The statements about temperatures
      only involve values of the first kind.
    - The buffer [data] is a list of 25 cells read with [rd] and written
      with [wr].  C++ leaves an access outside the array undefined; the
      model reads 0 and ignores the write there, and the theorems that
      depend on the buffer carry the hypothesis that the position is in
      range (an invariant of every run, lemma [gotBit_pos_in_range]).
    - Virtual dispatch is a record of methods ([Decoder]); a device is a tag
      ([DeviceKind]) together with the state of the decoder it owns. *)

From stdpp Require Import base numbers list option strings.
From Stdlib Require Import ZArith Lia Floats.

Local Open Scope Z_scope.

(** ** Machine integers *)

Definition to_byte (x : Z) : Z := x mod 256.
Definition to_uint (x : Z) : Z := x mod 2 ^ 16.

(** [const byte* data]: reading and writing one cell. *)
Definition rd (data : list Z) (i : Z) : Z := default 0 (data !! Z.to_nat i).
Definition wr (data : list Z) (i : Z) (v : Z) : list Z := <[Z.to_nat i := v]> data.

Definition is_byte (x : Z) : Prop := 0 <= x < 256.
Definition bytes (l : list Z) : Prop := Forall is_byte l.

(** ** DecodeOOK.h *)

Module DecodeOOK.

Inductive State := UNKNOWN | T0 | T1 | T2 | T3 | OK | DONE.

Definition State_eqb (a b : State) : bool :=
  match a, b with
  | UNKNOWN, UNKNOWN | T0, T0 | T1, T1 | T2, T2 | T3, T3 | OK, OK | DONE, DONE => true
  | _, _ => false
  end.

(** [byte total_bits, bits, flip, state, pos, data[25];] *)
Record t := mk {
  total_bits : Z;
  bits : Z;
  flip : Z;
  state : State;
  pos : Z;
  data : list Z
}.

Definition sizeof_data : Z := 25.

Definition set_total_bits (v : Z) (s : t) : t :=
  mk v (bits s) (flip s) (state s) (pos s) (data s).
Definition set_bits (v : Z) (s : t) : t :=
  mk (total_bits s) v (flip s) (state s) (pos s) (data s).
Definition set_flip (v : Z) (s : t) : t :=
  mk (total_bits s) (bits s) v (state s) (pos s) (data s).
Definition set_state (v : State) (s : t) : t :=
  mk (total_bits s) (bits s) (flip s) v (pos s) (data s).
Definition set_pos (v : Z) (s : t) : t :=
  mk (total_bits s) (bits s) (flip s) (state s) v (data s).
Definition set_data (v : list Z) (s : t) : t :=
  mk (total_bits s) (bits s) (flip s) (state s) (pos s) v.

(** [total_bits = bits = pos = flip = 0; state = UNKNOWN;] the cells of
    [data] are left as they are. *)
Definition resetDecoder (s : t) : t :=
  mk 0 0 0 UNKNOWN 0 (data s).

(** [DecodeOOK() { resetDecoder(); }]: the constructor runs on the raw
    object, whose cells are whatever the allocation left there. *)
Definition construct (raw : t) : t := resetDecoder raw.

Definition isDone (s : t) : bool := State_eqb (state s) DONE.

(** [getData(count)]: [count = pos], and the buffer itself. *)
Definition getData (s : t) : Z * list Z := (pos s, data s).

(** The base-class [gotBit]: add one bit to the packet data buffer. *)
Definition gotBit (value : Z) (s : t) : t :=
  let s := set_total_bits (to_byte (total_bits s + 1)) s in
  let cell := rd (data s) (pos s) in
  let s := set_data (wr (data s) (pos s)
                        (to_byte (Z.lor (Z.shiftr cell 1) (Z.shiftl value 7)))) s in
  let s := set_bits (to_byte (bits s + 1)) s in
  if 8 <=? bits s then
    let s := set_bits 0 s in
    let s := set_pos (to_byte (pos s + 1)) s in
    if sizeof_data <=? pos s then resetDecoder s
    else set_state OK s
  else set_state OK s.

(** The two virtual methods of a decoder class. [decode] returns the
    [char] result (-1, 0 or 1) and the updated object. *)
Record Decoder := {
  v_gotBit : Z -> t -> t;
  v_decode : Z -> t -> Z * t
}.

(** [manchester]: [flip ^= value; gotBit(flip);] where [gotBit] is the
    virtual method of the object's class. *)
Definition manchester (gotBit : Z -> t -> t) (value : Z) (s : t) : t :=
  let s := set_flip (to_byte (Z.lxor (flip s) value)) s in
  gotBit (flip s) s.

(** [while (bits) gotBit(0);] with an iteration budget: [None] when the
    budget runs out before [bits] is zero. *)
Fixpoint done_loop (D : Decoder) (fuel : nat) (s : t) : option t :=
  if bits s =? 0 then Some s
  else match fuel with
       | O => None
       | S fuel' => done_loop D fuel' (v_gotBit D 0 s)
       end.

(** Eight iterations are enough whenever the loop terminates at all
    (lemmas [done_loop_v1_total] and [done_loop_v2_diverges]). *)
Definition done (D : Decoder) (s : t) : option t :=
  set_state DONE <$> done_loop D 8 s.

Definition nextPulse (D : Decoder) (width : Z) (s : t) : option (bool * t) :=
  s' ← (if isDone s then Some s
        else
          let '(r, s1) := v_decode D width s in
          if r =? -1 then Some (resetDecoder s1)
          else if r =? 1 then done D s1
          else Some s1);
  Some (isDone s', s').

(** [for (byte i = 0; i < n; ++i) data = body(i, data);] *)
Definition for_cells (n : Z) (body : Z -> list Z -> list Z) (data : list Z) : list Z :=
  fold_left (fun d i => body (Z.of_nat i) d) (seq 0 (Z.to_nat n)) data.

(** [alignTail]: move bits to the front so that all the bits are aligned to
    the end, then optionally shift bytes down if there are more than [max]. *)
Definition alignTail (max : Z) (s : t) : t :=
  let s :=
    if negb (bits s =? 0) then
      let d := wr (data s) (pos s)
                  (to_byte (Z.shiftr (rd (data s) (pos s)) (8 - bits s))) in
      let d :=
        for_cells (pos s)
          (fun i d =>
             wr d i (to_byte (Z.lor (Z.shiftr (rd d i) (bits s))
                                    (Z.shiftl (rd d (i + 1)) (8 - bits s)))))
          d in
      set_bits 0 (set_data d s)
    else s in
  if (0 <? max) && (max <? pos s) then
    let n := to_byte (pos s - max) in
    let s := set_pos max s in
    set_data (for_cells (pos s) (fun i d => wr d i (rd d (i + n))) (data s)) s
  else s.

(** The inner loop of [reverseBits] on one cell: eight times
    [data[i] = (data[i] << 1) | (b & 1); b >>= 1;] starting with
    [b = data[i]]. *)
Definition reverse_cell (c : Z) : Z :=
  fst (Nat.iter 8
         (fun '(cell, b) =>
            (to_byte (Z.lor (Z.shiftl cell 1) (Z.land b 1)), Z.shiftr b 1))
         (c, c)).

Definition reverseBits (s : t) : t :=
  set_data (for_cells (pos s) (fun i d => wr d i (reverse_cell (rd d i))) (data s)) s.

(** [data[i] = (data[i] << 4) | (data[i] >> 4);] *)
Definition swap_nibbles (c : Z) : Z :=
  to_byte (Z.lor (Z.shiftl c 4) (Z.shiftr c 4)).

Definition reverseNibbles (s : t) : t :=
  set_data (for_cells (pos s) (fun i d => wr d i (swap_nibbles (rd d i))) (data s)) s.

End DecodeOOK.

Import DecodeOOK.

(** ** OregonDevice_v1.h: the v1 pulse classifier *)

Module OregonDecoder_v1.

(** The [switch] of [decode]: [inl r] is an early [return r], [inr s]
    falls through to the end of the function.  The class does not
    override [gotBit], so the base one is called. *)
Definition decode_switch (width : Z) (s : t) : Z + t :=
  let w := 2300 <=? width in
  match state s with
  | UNKNOWN =>
      if negb w then inr (set_flip (to_byte (flip s + 1)) s)
      else if w && (22 <=? flip s) then inr (set_state T1 (set_flip 0 s))
      else inl (-1)
  | OK =>
      if negb w then inr (set_state T0 s)
      else inr (manchester DecodeOOK.gotBit 1 s)
  | T0 =>
      if negb w then inr (manchester DecodeOOK.gotBit 0 s)
      else inl (-1)
  | T1 =>
      if (5550 <=? width) && (width <=? 6000) then inr (set_state T2 s)
      else inl (-1)
  | T2 =>
      if (4800 <=? width) && (width <=? 5400) then inr (set_state T0 (set_flip 1 s))
      else if (6480 <=? width) && (width <=? 6880) then inr (DecodeOOK.gotBit 0 s)
      else inl (-1)
  | T3 | DONE => inr s
  end.

Definition decode (width : Z) (s : t) : Z * t :=
  if (900 <=? width) && (width <=? 7000) then
    match decode_switch width s with
    | inl r => (r, s)
    | inr s' => (if 32 <=? total_bits s' then 1 else 0, s')
    end
  else (-1, s).

Definition decoder : Decoder :=
  {| v_gotBit := DecodeOOK.gotBit; v_decode := decode |}.

End OregonDecoder_v1.

(** ** OregonDevice_v2.h: the v2.1 pulse classifier *)

Module OregonDecoder_v2.

(** The overriding [gotBit]: a bit is stored only when the count of
    offered bits is even, as v2.1 messages are doubled. *)
Definition gotBit (value : Z) (s : t) : t :=
  let s :=
    if Z.land (total_bits s) 1 =? 0 then
      set_data (wr (data s) (pos s)
                   (to_byte (Z.lor (Z.shiftr (rd (data s) (pos s)) 1)
                                   (if value =? 0 then 0 else 128)))) s
    else s in
  let s := set_total_bits (to_byte (total_bits s + 1)) s in
  let s := set_pos (to_byte (Z.shiftr (total_bits s) 4)) s in
  if sizeof_data <=? pos s then resetDecoder s
  else set_state OK s.

Definition decode_switch (width : Z) (s : t) : Z + t :=
  let w := 700 <=? width in
  match state s with
  | UNKNOWN =>
      if w then inr (set_flip (to_byte (flip s + 1)) s)
      else if negb w && (24 <=? flip s) then inr (set_state T0 (set_flip 0 s))
      else inl (-1)
  | OK =>
      if negb w then inr (set_state T0 s)
      else inr (manchester gotBit 1 s)
  | T0 =>
      if negb w then inr (manchester gotBit 0 s)
      else inl (-1)
  | T1 | T2 | T3 | DONE => inr s
  end.

Definition decode (width : Z) (s : t) : Z * t :=
  if (200 <=? width) && (width <? 1200) then
    match decode_switch width s with
    | inl r => (r, s)
    | inr s' => (0, s')
    end
  else if (2500 <=? width) && (8 <=? pos s) then (1, s)
  else (-1, s).

Definition decoder : Decoder :=
  {| v_gotBit := gotBit; v_decode := decode |}.

End OregonDecoder_v2.

(** ** Device models *)

(** C++ [int] on the AVR targets: 16 bits, two's complement. *)
Definition to_int (x : Z) : Z := (x + 2 ^ 15) mod 2 ^ 16 - 2 ^ 15.

(** An [int] or [byte] converted to a floating-point number. *)
Definition float_of_Z (x : Z) : float :=
  if x <? 0 then PrimFloat.opp (PrimFloat.of_uint63 (Uint63.of_Z (- x)))
  else PrimFloat.of_uint63 (Uint63.of_Z x).

Module OregonDevice_v1.

Definition getOsVersion : string := "v1".

(** [for (i = 0; i < 3; i++) sum_of_bytes += data[i];] *)
Definition sum_of_bytes (data : list Z) : Z :=
  fold_left (fun sum i => to_uint (sum + rd data i)) [0; 1; 2] 0.

Definition validateChecksum (data : list Z) : bool :=
  let checksum := rd data 3 in
  let sum := Z.land (sum_of_bytes data) 0xff in
  sum =? checksum.

Definition getTemperature (data : list Z) : float :=
  let sign := if Z.land (rd data 2) 0x20 <? 1 then 1 else -1 in
  let temp :=
    PrimFloat.add
      (float_of_Z (Z.land (rd data 2) 0x0f * 10
                   + Z.shiftr (Z.land (rd data 1) 0xf0) 4))
      (PrimFloat.div (float_of_Z (Z.land (rd data 1) 0x0f)) (float_of_Z 10)) in
  PrimFloat.mul (float_of_Z sign) temp.

Definition getBattery (data : list Z) : bool :=
  Z.land (rd data 2) 0x80 =? 0.

Definition getId (data : list Z) : Z := Z.land (rd data 0) 0x0f.

(** [byte channel = 0; switch ((data[0] >> 4) & 0x0f) ...] *)
Definition getChannel (data : list Z) : Z :=
  let code := Z.land (Z.shiftr (rd data 0) 4) 0x0f in
  if (code =? 0x0) || (code =? 0x2) then 1
  else if code =? 0x4 then 2
  else if code =? 0x8 then 3
  else 0.

Definition getRemoteModel (data : list Z) : string := "Generic OS v1".

End OregonDevice_v1.

Module OregonDevice_v2.

Definition getOsVersion : string := "v2.1".

(** The scrutinee of both [switch]es: [(data[0] << 8) | data[1]], an
    [int]. *)
Definition identifier (data : list Z) : Z :=
  to_int (Z.lor (Z.shiftl (rd data 0) 8) (rd data 1)).

Definition getChecksumPos (data : list Z) : Z :=
  let id := identifier data in
  if (id =? to_int 0xea4c) || (id =? to_int 0x1a2d) then 16 else 0.

(** [for (int i = 0; i < checksum_nibble_idx - 1; i += 2)]: the loop is
    unrolled at most [fuel] times; [fuel_left] reports whether the loop
    condition was false when it stopped. *)
Fixpoint nibble_loop (fuel : nat) (data : list Z) (idx i sum : Z) : Z * bool :=
  if i <? idx - 1 then
    match fuel with
    | O => (sum, false)
    | S fuel' =>
        let val := rd data (Z.shiftr i 1) in
        nibble_loop fuel' data idx (i + 2)
                    (to_uint (sum + (Z.shiftr val 4 + Z.land val 0x0f)))
    end
  else (sum, true).

(** [checksum_nibble_idx] is a [uint8_t]: 128 iterations always reach
    the end of the loop (lemma [nibble_loop_terminates]). *)
Definition validateChecksum (data : list Z) : bool :=
  let checksum_nibble_idx := getChecksumPos data in
  if checksum_nibble_idx =? 0 then false
  else
    let sum_of_nibbles := fst (nibble_loop 128 data checksum_nibble_idx 0 0) in
    let '(sum_of_nibbles, checksum) :=
      if Z.land checksum_nibble_idx 1 =? 0 then
        (sum_of_nibbles, rd data (Z.shiftr checksum_nibble_idx 1))
      else
        (to_uint (sum_of_nibbles
                  + Z.shiftr (rd data (Z.shiftr checksum_nibble_idx 1)) 4),
         Z.lor (Z.shiftr (Z.land (rd data (Z.shiftr (checksum_nibble_idx + 1) 1)) 0xf0) 4)
               (Z.shiftl (Z.land (rd data (Z.shiftr checksum_nibble_idx 1)) 0x0f) 4)) in
    let sum_of_nibbles := to_uint (sum_of_nibbles - 0x0a) in
    let sum_of_nibbles := Z.land sum_of_nibbles 0xff in
    sum_of_nibbles =? checksum.

Definition getTemperature (data : list Z) : float :=
  let sign := if Z.land (rd data 6) 0x8 =? 0 then 1 else -1 in
  let temp :=
    PrimFloat.add
      (float_of_Z (Z.shiftr (Z.land (rd data 5) 0xF0) 4 * 10
                   + Z.land (rd data 5) 0xF))
      (PrimFloat.div (float_of_Z (Z.shiftr (Z.land (rd data 4) 0xF0) 4))
                     (float_of_Z 10)) in
  PrimFloat.mul (float_of_Z sign) temp.

Definition getHumidity (data : list Z) : Z :=
  to_byte (Z.land (rd data 7) 0xF * 10 + Z.shiftr (Z.land (rd data 6) 0xF0) 4).

Definition getBattery (data : list Z) : bool :=
  Z.land (rd data 4) 0x4 =? 0.

Definition getId (data : list Z) : Z := rd data 3.

(** [return (1 << (((data[2] & 0xf0) >> 4) - 1));] converted to [byte].
    For the code 0 the shift count is -1, which C++ leaves undefined:
    [None]. *)
Definition getChannel (data : list Z) : option Z :=
  let code := Z.shiftr (Z.land (rd data 2) 0xf0) 4 in
  if code - 1 <? 0 then None
  else Some (to_byte (to_int (Z.shiftl 1 (code - 1)))).

Definition getRemoteModel (data : list Z) : string :=
  let id := identifier data in
  if id =? to_int 0xea4c then "THN132N"
  else if id =? to_int 0x1a2d then "THGR228N"
  else "UNKNOWN".

End OregonDevice_v2.

(** [Device]: the two registered classes, each owning its decoder. *)
Inductive DeviceKind := Device_v1 | Device_v2.

Record Device := mkDevice {
  kind : DeviceKind;
  dDecoder : DecodeOOK.t
}.

Definition decoder_of (k : DeviceKind) : Decoder :=
  match k with
  | Device_v1 => OregonDecoder_v1.decoder
  | Device_v2 => OregonDecoder_v2.decoder
  end.

Definition validateChecksum (k : DeviceKind) (data : list Z) : bool :=
  match k with
  | Device_v1 => OregonDevice_v1.validateChecksum data
  | Device_v2 => OregonDevice_v2.validateChecksum data
  end.

Definition Device_nextPulse (width : Z) (d : Device) : option (bool * Device) :=
  '(r, dec) ← nextPulse (decoder_of (kind d)) width (dDecoder d);
  Some (r, mkDevice (kind d) dec).

(** ** OregonBridge.cpp: the dispatcher *)

(** [word]: the 16-bit unsigned type of the pulse slot. *)
Definition to_word (x : Z) : Z := x mod 2 ^ 16.

(** One invocation of the user callback: the device (its index [kk] in
    [devices] and its class) and the packet it was handed. *)
Record Call := mkCall {
  call_device : nat;
  call_kind : DeviceKind;
  call_data : list Z
}.

(** The bridge object, with the function-static [last] of
    [externalInterrupt]; [usrCallbackfunc] tells whether a callback has
    been registered (the pointer is not null). *)
Record OregonBridge := mkBridge {
  pulse : Z;
  last : Z;
  devices : list Device;
  usrCallbackfunc : bool
}.

(** [pulse = micros() - last; last += this->pulse;] *)
Definition externalInterrupt (micros : Z) (b : OregonBridge) : OregonBridge :=
  let p := to_word (micros - last b) in
  mkBridge p (to_word (last b + p)) (devices b) (usrCallbackfunc b).

(** [dataToDecoder]: the buffer of the device's decoder, which is then
    reset; the returned pointer still designates that buffer. *)
Definition dataToDecoder (d : Device) : list Z * Device :=
  let '(_, data) := getData (dDecoder d) in
  (data, mkDevice (kind d) (resetDecoder (dDecoder d))).

(** The body of the [for] loop of [loop], for the device at index [kk]. *)
Definition loop_body (p : Z) (cb : bool) (kk : nat) (d : Device)
  : option (list Call * Device) :=
  '(completed, d1) ← Device_nextPulse p d;
  if negb completed then Some ([], d1)
  else
    let '(dataDecoded, d2) := dataToDecoder d1 in
    if negb (validateChecksum (kind d2) dataDecoded) then Some ([], d2)
    else Some (if cb then [mkCall kk (kind d2) dataDecoded] else [], d2).

Fixpoint loop_devices (p : Z) (cb : bool) (kk : nat) (ds : list Device)
  : option (list Call * list Device) :=
  match ds with
  | [] => Some ([], [])
  | d :: ds' =>
      '(calls, d') ← loop_body p cb kk d;
      '(calls', ds'') ← loop_devices p cb (S kk) ds';
      Some (calls ++ calls', d' :: ds'')
  end.

(** [loop]: take and clear the pulse slot, return at once when it held 0,
    otherwise offer the pulse to every device in turn.  The result is the
    list of callback invocations made and the updated bridge. *)
Definition loop (b : OregonBridge) : option (list Call * OregonBridge) :=
  let p := pulse b in
  let b := mkBridge 0 (last b) (devices b) (usrCallbackfunc b) in
  if p =? 0 then Some ([], b)
  else
    '(calls, ds) ← loop_devices p (usrCallbackfunc b) 0 (devices b);
    Some (calls, mkBridge (pulse b) (last b) ds (usrCallbackfunc b)).

(** * Definitions used by the statements *)

(** The sum of the two nibbles of every byte of a list, as the specification
    words it. *)
Definition spec_nibble_sum (l : list Z) : Z :=
  foldr (fun b acc => b / 16 + b mod 16 + acc) 0 l.

(** The 16-bit identifier [(data[0] << 8) | data[1]], as the specification
    words it. *)
Definition spec_identifier (data : list Z) : Z :=
  Z.lor (Z.shiftl (rd data 0) 8) (rd data 1).

(** The v2.1 packet of the comments of [getTemperature] and
    [getHumidity]. *)
Definition packet_v2 : list Z :=
  [0x1A; 0x2D; 0x20; 0x8B; 0x58; 0x21; 0x40; 0xC7; 0x4C; 0x8C].

(** A v1 packet with a valid checksum whose channel code is 1, and the
    v2.1 packet of the comment of [getTemperature] (channel code 4). *)
Definition packet_v1_code1 : list Z := [0x10; 0x53; 0x02; 0x65].
Definition packet_v2_code4 : list Z :=
  [0x1A; 0x2D; 0x40; 0x58; 0x4C; 0x08; 0x88; 0x82; 0x53].

(** The representation invariant of a decoder object: the counters are
    bytes, fewer than 8 bits are pending in the current cell, the position
    designates a cell, and the buffer has 25 byte cells. *)
Record wf (s : t) : Prop := mk_wf {
  wf_total_bits : is_byte (total_bits s);
  wf_bits : 0 <= bits s < 8;
  wf_flip : is_byte (flip s);
  wf_pos : 0 <= pos s < sizeof_data;
  wf_length : length (data s) = 25%nat;
  wf_data : bytes (data s)
}.

(** Offering a sequence of bits to a [gotBit] method, first bit first. *)
Definition append_bits (gotBit : Z -> t -> t) (vs : list Z) (s : t) : t :=
  fold_left (fun s v => gotBit v s) vs s.

(** The object once [gotBit] has shifted the bit into the current cell. *)
Definition written (value : Z) (s : t) : t :=
  set_data (wr (data s) (pos s)
               (to_byte (Z.lor (Z.shiftr (rd (data s) (pos s)) 1)
                               (Z.shiftl value 7)))) s.

(** A decoder as [new] and its constructor leave it, the buffer zeroed. *)
Definition fresh : t := construct (mk 0 0 0 UNKNOWN 0 (repeat 0 25)).

(** The object once the overriding [gotBit] has committed the bit. *)
Definition committed (value : Z) (s : t) : t :=
  set_data (wr (data s) (pos s)
               (to_byte (Z.lor (Z.shiftr (rd (data s) (pos s)) 1)
                               (if value =? 0 then 0 else 128)))) s.

(** What the dispatcher maintains for each device: a well-formed decoder,
    with no pending bits in a v2.1 decoder. *)
Definition device_ok (d : Device) : Prop :=
  wf (dDecoder d) /\ (kind d = Device_v2 -> bits (dDecoder d) = 0).

(** The bridge as its constructor leaves it ([INCLUDE_ALL_DEVICES]), with a
    callback registered, and the slot holding a pulse. *)
Definition bridge (p : Z) : OregonBridge :=
  mkBridge p 0 [mkDevice Device_v1 fresh; mkDevice Device_v2 fresh] true.

(** A decoded bit. *)
Definition is_bit (b : Z) : Prop := b = 0 \/ b = 1.

(** The encoding of the specification: starting from the previous bit [prev], a
    bit equal to the previous one is sent as two short pulses and a bit
    that differs from it as one long pulse. *)
Inductive manchester_enc (short long : Z -> Prop) : Z -> list Z -> list Z -> Prop :=
| enc_nil prev : manchester_enc short long prev [] []
| enc_repeat prev bs w1 w2 ws :
    short w1 -> short w2 ->
    manchester_enc short long prev bs ws ->
    manchester_enc short long prev (prev :: bs) (w1 :: w2 :: ws)
| enc_flip prev bs w ws :
    long w ->
    manchester_enc short long (1 - prev) bs ws ->
    manchester_enc short long prev ((1 - prev) :: bs) (w :: ws).

(** The same encoding as a function, with one width for the short pulses
    and one for the long ones. *)
Fixpoint encode (short long prev : Z) (bs : list Z) : list Z :=
  match bs with
  | [] => []
  | b :: bs' =>
      (if b =? prev then [short; short] else [long]) ++ encode short long b bs'
  end.

(** The pulse widths the two classifiers take for short and long. *)
Definition v1_short (w : Z) : Prop := 900 <= w < 2300.
Definition v1_long (w : Z) : Prop := 2300 <= w <= 7000.
Definition v2_short (w : Z) : Prop := 200 <= w < 700.
Definition v2_long (w : Z) : Prop := 700 <= w < 1200.

(** Offering a sequence of pulses to [decode]: [None] as soon as a call
    returns -1. *)
Fixpoint feed_decode (D : Decoder) (ws : list Z) (s : t) : option t :=
  match ws with
  | [] => Some s
  | w :: ws' =>
      let '(r, s1) := v_decode D w s in
      if r =? -1 then None else feed_decode D ws' s1
  end.

(** Offering a sequence of pulses to [nextPulse]: the answers and the
    final object. *)
Fixpoint feed (D : Decoder) (ws : list Z) (s : t) : option (list bool * t) :=
  match ws with
  | [] => Some ([], s)
  | w :: ws' =>
      '(r, s1) ← nextPulse D w s;
      '(rs, s2) ← feed D ws' s1;
      Some (r :: rs, s2)
  end.

(** The total of bits agrees with the position in the buffer. *)
Definition consistent (s : t) : Prop := total_bits s = 8 * pos s + bits s.

(** Two objects that differ at most in [flip]. *)
Definition eq_upto_flip (s s' : t) : Prop := set_flip 0 s = set_flip 0 s'.

(** The result of the v1 [decode] at the end of its body. *)
Definition v1_code (s : t) : Z := if 32 <=? total_bits s then 1 else 0.

(** The v1 preamble and synchronisation: 22 short pulses, the long start
    pulse, the two calibration pulses, the second of which announces a
    first bit 0. *)
Definition v1_sync_pulses : list Z := repeat 1000 22 ++ [3000; 5700; 6600].

(** The v1 classifier once it has received them: state OK, one bit held. *)
Definition v1_synced : t := DecodeOOK.gotBit 0 (set_state T2 fresh).

(** The bits of a byte and of a packet, least significant bit first, the
    order in which the sensors send them. *)
Definition bits_of_byte (b : Z) : list Z :=
  map (fun i => Z.b2z (Z.testbit b (Z.of_nat i))) (seq 0 8).
Definition bits_of_packet (p : list Z) : list Z := flat_map bits_of_byte p.

(** A cell into which bits have been shifted, first bit first. *)
Definition cell_after (bs : list Z) (cell : Z) : Z :=
  fold_left (fun c v => to_byte (Z.lor (Z.shiftr c 1) (Z.shiftl v 7))) bs cell.

(** One edge of the signal, [p] microseconds after the previous one: the
    interrupt measures the interval and [loop] polls the slot. *)
Definition edge (p : Z) (b : OregonBridge) : option (list Call * OregonBridge) :=
  loop (externalInterrupt (last b + p) b).

Fixpoint run_pulses (ps : list Z) (b : OregonBridge)
  : option (list Call * OregonBridge) :=
  match ps with
  | [] => Some ([], b)
  | p :: ps' =>
      '(c1, b1) ← edge p b;
      '(c2, b2) ← run_pulses ps' b1;
      Some (c1 ++ c2, b2)
  end.

(** The pulses of a v1 transmission: preamble, start pulse, calibration
    pulses (the second of which carries the first bit), then the bits. *)
Definition v1_waveform (packet : list Z) : list Z :=
  repeat 1000 22 ++ [3000; 5700] ++
  match bits_of_packet packet with
  | [] => []
  | b0 :: rest =>
      (if b0 =? 0 then [6600] else [5000; 1000]) ++ encode 1000 3000 b0 rest
  end.

(** The pulses of a v2.1 transmission whose first bit is 0: preamble, the
    short pulse that ends it, every bit followed by its complement, and
    the long silence that ends the packet. *)
Definition v2_waveform (packet : list Z) : list Z :=
  repeat 900 24 ++ [400] ++
  match flat_map (fun b => [b; 1 - b]) (bits_of_packet packet) with
  | [] => []
  | _ :: rest => [400] ++ encode 400 900 0 rest
  end ++ [3000].

(** ** The construction of the bridge *)

(** [DEVICES_NUM], the capacity of the array of devices. *)
Definition DEVICES_NUM : Z := 2.

(** [addDevice<T>()]: nothing when the array is full, otherwise a new
    device of class [T] (whose constructor allocates its decoder) is stored
    in the next free position. *)
Definition addDevice (k : DeviceKind) (b : OregonBridge) : OregonBridge :=
  if DEVICES_NUM <=? Z.of_nat (length (devices b)) then b
  else mkBridge (pulse b) (last b) (devices b ++ [mkDevice k fresh])
                (usrCallbackfunc b).

(** The constructor: [INCLUDE_ALL_DEVICES] on the bridge as its member
    initialisers leave it ([devicesCount = 0]); the slot and the callback
    pointer hold what the storage held. *)
Definition OregonBridge_construct (pulse0 : Z) (callback0 : bool) : OregonBridge :=
  addDevice Device_v2 (addDevice Device_v1 (mkBridge pulse0 0 [] callback0)).

(** [registerCallback(f)] with [f] a function. *)
Definition registerCallback (b : OregonBridge) : OregonBridge :=
  mkBridge (pulse b) (last b) (devices b) true.

(** ** Definitions for the further properties *)

(** The number a list of cells holds, first cell least significant. *)
Definition le_value (l : list Z) : Z := foldr (fun c acc => c + 256 * acc) 0 l.

(** A decoder holding three bytes and three more bits. *)
Definition partial_packet : t :=
  append_bits DecodeOOK.gotBit
    (bits_of_packet [0x44; 0x53; 0x02] ++ [1; 0; 1]) fresh.

(** The number held by [cnt] cells of a buffer from cell [k] on, the first
    one least significant. *)
Fixpoint range_value (data : list Z) (k : Z) (cnt : nat) : Z :=
  match cnt with
  | O => 0
  | S cnt' => rd data k + 256 * range_value data (k + 1) cnt'
  end.

(** The number a sequence of bits spells, first bit least significant. *)
Definition bits_value (bs : list Z) : Z := foldr (fun b acc => b + 2 * acc) 0 bs.

(** The number spelt by the bits a decoder holds: the complete bytes,
    then the pending bits of the current cell (which sit at its top). *)
Definition stream_value (s : t) : Z :=
  le_value (take (Z.to_nat (pos s)) (data s))
  + 256 ^ pos s * (rd (data s) (pos s) / 2 ^ (8 - bits s)).

(** What holds of a v1 classifier at every moment: besides being well
    formed and consistent, it holds 32 bits when it is DONE and fewer
    before. *)
Definition v1_inv (s : t) : Prop :=
  wf s /\ consistent s
  /\ (if isDone s then total_bits s = 32 else total_bits s < 32).

(** What holds of a v2.1 classifier at every moment: no bit is pending,
    the position is the count of offered bits divided by 16, and at least
    8 bytes are held when it is DONE. *)
Definition v2_inv (s : t) : Prop :=
  wf s /\ bits s = 0 /\ pos s = total_bits s / 16
  /\ (isDone s = true -> 8 <= pos s).

(** The pulses of a v1 transmission of the packet [P], as the comments of
    the v1 [decode] describe it: short pulses, whose number is counted
    in a byte and has to be at least 22 there (22 to 255 pulses will do,
    256 to 277 will not), a long start pulse, the RF-on pulse of about 5.7 ms, the RF-off
    period whose length tells the first bit (about 6.6 ms for a 0; about
    5.2 ms followed by a short pulse for a 1), then the other bits in
    Manchester encoding, least significant bit of the first byte first. *)
Definition v1_transmission (P ws : list Z) : Prop :=
  exists pre start t1 first b0 bs rest,
    ws = pre ++ [start; t1] ++ first ++ rest
    /\ Forall v1_short pre /\ 22 <= Z.of_nat (length pre) mod 256
    /\ v1_long start /\ 5550 <= t1 <= 6000
    /\ bits_of_packet P = b0 :: bs
    /\ ((b0 = 0 /\ exists t2, first = [t2] /\ 6480 <= t2 <= 6880)
        \/ (b0 = 1 /\ exists t2 w,
               first = [t2; w] /\ 4800 <= t2 <= 5400 /\ v1_short w))
    /\ manchester_enc v1_short v1_long b0 bs rest.

(** The bits offered to the v2.1 [gotBit] for the bits [bs] of a message:
    every bit is followed by one more (its complement on the air). *)
Inductive doubled : list Z -> list Z -> Prop :=
| doubled_nil : doubled [] []
| doubled_cons b c bs os :
    is_bit c -> doubled bs os -> doubled (b :: bs) (b :: c :: os).

(** The pulses of a v2.1 transmission of the packet [P], as the comments
    of the v2.1 [decode] describe it: long pulses, whose number is counted
    in a byte and has to be at least 24 there (24 to 255 pulses will do,
    256 to 279 will not), the short pulse that ends the preamble, the doubled bits in
    Manchester encoding, the first of which is a 0 sent as one more short
    pulse, and the long silence at the end. *)
Definition v2_transmission (P ws : list Z) : Prop :=
  exists pre sh w0 os rest wend,
    ws = pre ++ [sh; w0] ++ rest ++ [wend]
    /\ Forall v2_long pre /\ 24 <= Z.of_nat (length pre) mod 256
    /\ v2_short sh /\ v2_short w0
    /\ doubled (bits_of_packet P) (0 :: os)
    /\ manchester_enc v2_short v2_long 0 os rest
    /\ 2500 <= wend.

(** The invocation of the callback that [loop] makes for the device at
    index [kk] when its decoder answers [completed] and leaves [s]. *)
Definition calls_of (kk : nat) (k : DeviceKind) (completed : bool) (s : t)
  (cb : bool) : list Call :=
  if completed && validateChecksum k (data s) && cb
  then [mkCall kk k (data s)] else [].

(** The decoder of a device after [loop] has offered it a pulse. *)
Definition after_loop (completed : bool) (s : t) : t :=
  if completed then resetDecoder s else s.

(** A decoder that has just been reset from [s]: the state and the
    counters that a constructor leaves, a count of 0, and the cells of
    [s]. *)
Definition just_reset (s' s : t) : Prop :=
  state s' = UNKNOWN /\ total_bits s' = 0 /\ bits s' = 0 /\ pos s' = 0
  /\ flip s' = 0 /\ fst (getData s') = 0 /\ data s' = data s.

(** The v1 decoder one pulse before the end of the transmission of the
    packet 10 53 02 65: 31 bits held, the last cell one bit short. *)
Definition v1_almost_complete : t :=
  mk 31 7 1 OK 3 ([0x10; 0x53; 0x02; 0xCA] ++ repeat 0 21).

(** The last pulse of that transmission, the bridge before its edge, and
    the bridge once the interrupt has measured it. *)
Definition v1_last_pulse : Z := 3000.
Definition bridge_before_last_edge : OregonBridge :=
  mkBridge 0 46764 [mkDevice Device_v1 v1_almost_complete;
                    mkDevice Device_v2 (set_flip 2 fresh)] true.
Definition bridge_at_last_edge : OregonBridge :=
  externalInterrupt (last bridge_before_last_edge + v1_last_pulse)
                    bridge_before_last_edge.

(** * Properties *)

(** ** Arithmetic of the machine types *)

Lemma to_byte_range x : is_byte (to_byte x).
Proof. unfold is_byte, to_byte. apply Z.mod_pos_bound. lia. Qed.

Lemma to_byte_small x : is_byte x -> to_byte x = x.
Proof. unfold is_byte, to_byte. intros H. apply Z.mod_small. lia. Qed.

Lemma land_0xff x : Z.land x 0xff = x mod 256.
Proof. change 0xff with (Z.ones 8). rewrite Z.land_ones by lia. reflexivity. Qed.

(** Subtracting and masking to eight bits gives the same result whatever
    the width (at least 8 bits) of the unsigned type. *)
Lemma sub_mask_any_width (W x y : Z) :
  8 <= W -> Z.land ((x - y) mod 2 ^ W) 0xff = (x - y) mod 256.
Proof.
  intros HW. rewrite land_0xff.
  apply Z.mod_mod_divide.
  exists (2 ^ (W - 8)). change 256 with (2 ^ 8).
  rewrite <- Z.pow_add_r by lia. f_equal. lia.
Qed.

Lemma rd_bytes (data : list Z) i : bytes data -> is_byte (rd data i).
Proof.
  intros Hb. unfold rd. destruct (data !! Z.to_nat i) as [x|] eqn:E; simpl.
  - eapply Forall_lookup_1; eauto.
  - unfold is_byte. lia.
Qed.

Lemma wr_bytes (data : list Z) i v : bytes data -> is_byte v -> bytes (wr data i v).
Proof. intros Hb Hv. unfold wr, bytes. apply Forall_insert; assumption. Qed.

Lemma wr_length (data : list Z) i v : length (wr data i v) = length data.
Proof. unfold wr. apply length_insert. Qed.

Lemma shiftr4_byte b : is_byte b -> Z.shiftr b 4 = b / 16.
Proof. intros _. rewrite Z.shiftr_div_pow2 by lia. reflexivity. Qed.

Lemma land15_byte b : Z.land b 0x0f = b mod 16.
Proof. change 0x0f with (Z.ones 4). rewrite Z.land_ones by lia. reflexivity. Qed.

Lemma nibbles_range b :
  is_byte b -> 0 <= b / 16 < 16 /\ 0 <= b mod 16 < 16.
Proof.
  unfold is_byte. intros H. split.
  - split; [apply Z.div_pos; lia | apply Z.div_lt_upper_bound; lia].
  - apply Z.mod_pos_bound. lia.
Qed.

Lemma to_uint_small x : 0 <= x < 65536 -> to_uint x = x.
Proof. intros H. unfold to_uint. apply Z.mod_small. change (2 ^ 16) with 65536. lia. Qed.

(** ** The v1 checksum *)

(** C4. For every 4-byte v1 packet, [validateChecksum] answers true
    exactly when the sum of the first three bytes modulo 256 equals the
    fourth byte; it answers true for the packet 44 53 02 99. *)
Theorem v1_validateChecksum_spec :
  (forall d0 d1 d2 d3 : Z,
      bytes [d0; d1; d2; d3] ->
      OregonDevice_v1.validateChecksum [d0; d1; d2; d3] = true
      <-> (d0 + d1 + d2) mod 256 = d3)
  /\ OregonDevice_v1.validateChecksum [0x44; 0x53; 0x02; 0x99] = true.
Proof.
  split; [| reflexivity].
  intros d0 d1 d2 d3 Hb.
  inversion Hb as [| ? ? H0 Hb1]; subst. inversion Hb1 as [| ? ? H1 Hb2]; subst.
  inversion Hb2 as [| ? ? H2 Hb3]; subst. inversion Hb3 as [| ? ? H3 _]; subst.
  unfold is_byte in *.
  unfold OregonDevice_v1.validateChecksum, OregonDevice_v1.sum_of_bytes, rd. simpl.
  rewrite (to_uint_small (0 + d0)) by lia.
  rewrite (to_uint_small (0 + d0 + d1)) by lia.
  rewrite (to_uint_small (0 + d0 + d1 + d2)) by lia.
  rewrite land_0xff, Z.add_0_l. apply Z.eqb_eq.
Qed.

Lemma v1_validateChecksum_spec_witness :
  OregonDevice_v1.validateChecksum [0x10; 0x20; 0x30; 0x60] = true
  <-> (0x10 + 0x20 + 0x30) mod 256 = 0x60.
Proof.
  apply (proj1 v1_validateChecksum_spec).
  repeat constructor; unfold is_byte; lia.
Defined.

(** ** The v2.1 checksum *)

Lemma identifier_value d0 d1 :
  is_byte d0 -> is_byte d1 -> Z.lor (Z.shiftl d0 8) d1 = d0 * 256 + d1.
Proof.
  unfold is_byte. intros H0 H1.
  rewrite <- Z.add_nocarry_lor.
  - rewrite Z.shiftl_mul_pow2 by lia. reflexivity.
  - apply Z.bits_inj'. intros n Hn.
    rewrite Z.land_spec, Z.bits_0.
    destruct (Z.lt_ge_cases n 8) as [Hlt | Hge].
    + rewrite Z.shiftl_spec_low by lia. reflexivity.
    + rewrite (proj1 (Z.bounded_iff_bits_nonneg 8 d1 ltac:(lia) ltac:(lia))) by lia.
      apply andb_false_r.
Qed.

Lemma to_int_eqb x y :
  0 <= x < 65536 -> 0 <= y < 65536 -> (to_int x =? to_int y) = (x =? y).
Proof.
  intros Hx Hy. unfold to_int. change (2 ^ 16) with 65536. change (2 ^ 15) with 32768.
  destruct (Z.eqb_spec x y) as [-> | Hne]; [apply Z.eqb_refl |].
  apply Z.eqb_neq. intros E. apply Hne.
  assert (Hx' : (x + 32768) mod 65536 = (y + 32768) mod 65536) by lia.
  destruct (Z.lt_ge_cases x 32768), (Z.lt_ge_cases y 32768).
  - rewrite !Z.mod_small in Hx' by lia. lia.
  - rewrite (Z.mod_small (x + 32768)) in Hx' by lia.
    replace (y + 32768) with (y - 32768 + 1 * 65536) in Hx' by lia.
    rewrite Z.mod_add, Z.mod_small in Hx' by lia. lia.
  - rewrite (Z.mod_small (y + 32768)) in Hx' by lia.
    replace (x + 32768) with (x - 32768 + 1 * 65536) in Hx' by lia.
    rewrite Z.mod_add, Z.mod_small in Hx' by lia. lia.
  - replace (y + 32768) with (y - 32768 + 1 * 65536) in Hx' by lia.
    replace (x + 32768) with (x - 32768 + 1 * 65536) in Hx' by lia.
    rewrite !Z.mod_add, !Z.mod_small in Hx' by lia. lia.
Qed.

Lemma nibble_loop_step fuel data idx i sum :
  i < idx - 1 ->
  OregonDevice_v2.nibble_loop (S fuel) data idx i sum
  = OregonDevice_v2.nibble_loop fuel data idx (i + 2)
      (to_uint (sum + (Z.shiftr (rd data (Z.shiftr i 1)) 4
                       + Z.land (rd data (Z.shiftr i 1)) 0x0f))).
Proof.
  intros H. simpl. destruct (Z.ltb_spec i (idx - 1)); [reflexivity | lia].
Qed.

Lemma nibble_loop_exit fuel data idx i sum :
  idx - 1 <= i -> OregonDevice_v2.nibble_loop fuel data idx i sum = (sum, true).
Proof.
  intros H. destruct fuel; simpl; destruct (Z.ltb_spec i (idx - 1)); (reflexivity || lia).
Qed.

(** The budget of 128 iterations is never the reason for the loop to stop:
    for every [uint8_t] position the loop condition is false at the end. *)
Lemma nibble_loop_terminates data idx sum :
  idx <= 255 -> snd (OregonDevice_v2.nibble_loop 128 data idx 0 sum) = true.
Proof.
  intros Hidx.
  assert (G : forall fuel i s, idx - 1 - i < 2 * Z.of_nat fuel ->
                snd (OregonDevice_v2.nibble_loop fuel data idx i s) = true).
  { induction fuel as [| fuel IH]; intros i s Hf.
    - rewrite nibble_loop_exit by lia. reflexivity.
    - destruct (Z.lt_ge_cases i (idx - 1)).
      + rewrite nibble_loop_step by lia. apply IH. lia.
      + rewrite nibble_loop_exit by lia. reflexivity. }
  apply G. lia.
Qed.

Lemma getChecksumPos_spec data :
  bytes data ->
  OregonDevice_v2.getChecksumPos data
  = if (spec_identifier data =? 0xEA4C) || (spec_identifier data =? 0x1A2D)
    then 16 else 0.
Proof.
  intros Hb. unfold OregonDevice_v2.getChecksumPos, OregonDevice_v2.identifier.
  fold (spec_identifier data).
  assert (Hr : 0 <= spec_identifier data < 65536).
  { unfold spec_identifier.
    pose proof (rd_bytes data 0 Hb) as H0. pose proof (rd_bytes data 1 Hb) as H1.
    rewrite identifier_value by assumption. unfold is_byte in *. lia. }
  rewrite !to_int_eqb by lia. reflexivity.
Qed.

Lemma nibble_sum_16 data :
  bytes data ->
  fst (OregonDevice_v2.nibble_loop 128 data 16 0 0)
  = spec_nibble_sum (map (rd data) [0; 1; 2; 3; 4; 5; 6; 7]).
Proof.
  intros Hb.
  assert (N : forall i, 0 <= rd data i / 16 < 16 /\ 0 <= rd data i mod 16 < 16)
    by (intros i; apply nibbles_range, rd_bytes, Hb).
  pose proof (N 0) as N0. pose proof (N 1) as N1. pose proof (N 2) as N2.
  pose proof (N 3) as N3. pose proof (N 4) as N4. pose proof (N 5) as N5.
  pose proof (N 6) as N6. pose proof (N 7) as N7.
  do 8 (rewrite nibble_loop_step by lia).
  rewrite nibble_loop_exit by lia.
  repeat match goal with
         | |- context [Z.shiftr ?i 1] =>
             let v := eval vm_compute in (Z.shiftr i 1) in
             change (Z.shiftr i 1) with v
         end.
  rewrite !shiftr4_byte by (apply rd_bytes, Hb). rewrite !land15_byte.
  cbn [fst spec_nibble_sum foldr map].
  repeat match goal with
         | |- context [to_uint ?x] =>
             lazymatch x with
             | context [to_uint _] => fail
             | _ => rewrite (to_uint_small x) by lia
             end
         end.
  lia.
Qed.

Lemma first_eight_bytes (data : list Z) :
  length data = 10%nat -> map (rd data) [0; 1; 2; 3; 4; 5; 6; 7] = take 8 data.
Proof.
  intros Hl.
  do 10 (destruct data as [| ? data]; [discriminate Hl |]).
  reflexivity.
Qed.

(** C1. For every 10-byte v2.1 packet, [validateChecksum] answers true
    exactly when the identifier made of the first two bytes is 0xEA4C or
    0x1A2D (the position lookup then gives 16, and 0 otherwise, which fails
    the validation at once) and the sum of the 16 nibbles of bytes 0..7,
    less 0x0A, masked to 8 bits, equals byte 8.  It answers true for the
    packet 1A 2D 20 8B 58 21 40 C7 4C 8C, whose lookup gives 16. *)
Theorem v2_validateChecksum_spec :
  (forall data : list Z,
      bytes data -> length data = 10%nat ->
      let known := spec_identifier data = 0xEA4C \/ spec_identifier data = 0x1A2D in
      (OregonDevice_v2.validateChecksum data = true
       <-> known /\ Z.land (spec_nibble_sum (take 8 data) - 0x0A) 0xff = rd data 8)
      /\ (known -> OregonDevice_v2.getChecksumPos data = 16)
      /\ (~ known -> OregonDevice_v2.getChecksumPos data = 0
                     /\ OregonDevice_v2.validateChecksum data = false))
  /\ OregonDevice_v2.validateChecksum packet_v2 = true
  /\ OregonDevice_v2.getChecksumPos packet_v2 = 16.
Proof.
  split; [| split; reflexivity].
  intros data Hb Hl known.
  pose proof (getChecksumPos_spec data Hb) as Hpos.
  pose proof (nibble_sum_16 data Hb) as Hsum.
  rewrite (first_eight_bytes data Hl) in Hsum.
  assert (Hs : 0 <= spec_nibble_sum (take 8 data) < 65536).
  { rewrite <- (first_eight_bytes data Hl).
    assert (N : forall i, 0 <= rd data i / 16 < 16 /\ 0 <= rd data i mod 16 < 16)
      by (intros i; apply nibbles_range, rd_bytes, Hb).
    pose proof (N 0). pose proof (N 1). pose proof (N 2). pose proof (N 3).
    pose proof (N 4). pose proof (N 5). pose proof (N 6). pose proof (N 7).
    cbn [spec_nibble_sum foldr map]. lia. }
  assert (Hk : known <-> (spec_identifier data =? 0xEA4C) || (spec_identifier data =? 0x1A2D) = true).
  { unfold known. rewrite orb_true_iff, !Z.eqb_eq. reflexivity. }
  unfold OregonDevice_v2.validateChecksum.
  destruct ((spec_identifier data =? 0xEA4C) || (spec_identifier data =? 0x1A2D)) eqn:E;
    rewrite Hpos.
  - assert (K : known) by (apply Hk; reflexivity).
    split; [| split; [reflexivity | intros NK; contradiction]].
    change (16 =? 0) with false. change (Z.land 16 1 =? 0) with true.
    change (Z.shiftr 16 1) with 8. cbv iota beta.
    rewrite Hsum. unfold to_uint.
    rewrite (sub_mask_any_width 16) by lia.
    rewrite land_0xff, Z.eqb_eq. tauto.
  - assert (NK : ~ known) by (rewrite Hk; discriminate).
    change (0 =? 0) with true. cbv iota.
    split; [| split; [intros K; contradiction | split; reflexivity]].
    split; [discriminate | tauto].
Qed.

Lemma v2_validateChecksum_spec_witness :
  (OregonDevice_v2.validateChecksum packet_v2 = true
   <-> (spec_identifier packet_v2 = 0xEA4C \/ spec_identifier packet_v2 = 0x1A2D)
       /\ Z.land (spec_nibble_sum (take 8 packet_v2) - 0x0A) 0xff = rd packet_v2 8).
Proof.
  apply (proj1 v2_validateChecksum_spec packet_v2).
  - repeat constructor; unfold is_byte; lia.
  - reflexivity.
Defined.

(** ** Field extraction *)

(** C5. The fields extracted from the v2.1 packet
    1A 2D 20 8B 58 21 40 C7 4C 8C: model THGR228N, temperature +21.5,
    humidity 74, battery good, channel 2.  (All the floating-point values
    involved, 20, 1, 0.5, 21 and 21.5, are exactly representable, in single
    as in double precision.) *)
Theorem v2_packet_fields :
  OregonDevice_v2.getRemoteModel packet_v2 = "THGR228N"%string
  /\ OregonDevice_v2.getTemperature packet_v2 = 21.5%float
  /\ OregonDevice_v2.getHumidity packet_v2 = 74
  /\ OregonDevice_v2.getBattery packet_v2 = true
  /\ OregonDevice_v2.getChannel packet_v2 = Some 2.
Proof. repeat split; vm_compute; reflexivity. Qed.

(** A property of bytes decided by running it on the 256 values. *)
Lemma forall_bytes (P : Z -> bool) :
  forallb P (map Z.of_nat (seq 0 256)) = true ->
  forall b, is_byte b -> P b = true.
Proof.
  intros H b Hb. rewrite forallb_forall in H. apply H.
  apply in_map_iff. exists (Z.to_nat b). unfold is_byte in Hb.
  split; [lia |]. apply in_seq. lia.
Qed.

Lemma high_nibble_v1 b : is_byte b -> Z.land (Z.shiftr b 4) 0x0f = b / 16.
Proof.
  intros Hb. apply Z.eqb_eq.
  apply (forall_bytes (fun b => Z.land (Z.shiftr b 4) 0x0f =? b / 16)); [| exact Hb].
  vm_compute. reflexivity.
Qed.

Lemma high_nibble_v2 b : is_byte b -> Z.shiftr (Z.land b 0xf0) 4 = b / 16.
Proof.
  intros Hb. apply Z.eqb_eq.
  apply (forall_bytes (fun b => Z.shiftr (Z.land b 0xf0) 4 =? b / 16)); [| exact Hb].
  vm_compute. reflexivity.
Qed.

(** C6, as stated, fails: both packets pass their checksum, and neither
    channel is 1, 2 or 3. *)
Lemma getChannel_not_in_1_2_3 :
  (OregonDevice_v1.validateChecksum packet_v1_code1 = true
   /\ OregonDevice_v1.getChannel packet_v1_code1 = 0)
  /\ (OregonDevice_v2.validateChecksum packet_v2_code4 = true
      /\ OregonDevice_v2.getChannel packet_v2_code4 = Some 8)
  /\ ~ (forall data : list Z,
           bytes data ->
           In (OregonDevice_v1.getChannel data) [1; 2; 3]
           /\ exists c, OregonDevice_v2.getChannel data = Some c /\ In c [1; 2; 3]).
Proof.
  split; [split; reflexivity |]. split; [split; reflexivity |].
  intros H.
  assert (Hb : bytes packet_v1_code1) by (repeat constructor; unfold is_byte; lia).
  destruct (H packet_v1_code1 Hb) as [Hin _].
  vm_compute in Hin. intuition discriminate.
Qed.

(** C6, amended. The v1 [getChannel] maps the 4-bit code in the high
    nibble of byte 0 to 1 (codes 0x0 and 0x2), 2 (code 0x4), 3 (code 0x8)
    and to 0 for every other code; the v2.1 [getChannel] maps the codes 1
    and 2 in the high nibble of byte 2 to the channels 1 and 2. *)
Theorem getChannel_spec :
  forall data : list Z,
    bytes data ->
    let code1 := rd data 0 / 16 in
    let code2 := rd data 2 / 16 in
    In (OregonDevice_v1.getChannel data) [0; 1; 2; 3]
    /\ (code1 = 0x0 \/ code1 = 0x2 -> OregonDevice_v1.getChannel data = 1)
    /\ (code1 = 0x4 -> OregonDevice_v1.getChannel data = 2)
    /\ (code1 = 0x8 -> OregonDevice_v1.getChannel data = 3)
    /\ (code1 <> 0x0 -> code1 <> 0x2 -> code1 <> 0x4 -> code1 <> 0x8 ->
        OregonDevice_v1.getChannel data = 0)
    /\ (code2 = 1 -> OregonDevice_v2.getChannel data = Some 1)
    /\ (code2 = 2 -> OregonDevice_v2.getChannel data = Some 2).
Proof.
  intros data Hb code1 code2.
  unfold OregonDevice_v1.getChannel, OregonDevice_v2.getChannel.
  rewrite high_nibble_v1, high_nibble_v2 by (apply rd_bytes, Hb).
  fold code1 code2.
  repeat split.
  - destruct (Z.eqb_spec code1 0); [simpl; tauto |].
    destruct (Z.eqb_spec code1 2); [simpl; tauto |].
    destruct (Z.eqb_spec code1 4); [simpl; tauto |].
    destruct (Z.eqb_spec code1 8); simpl; tauto.
  - intros [-> | ->]; reflexivity.
  - intros ->; reflexivity.
  - intros ->; reflexivity.
  - intros H0 H2 H4 H8.
    destruct (Z.eqb_spec code1 0); [contradiction |].
    destruct (Z.eqb_spec code1 2); [contradiction |].
    destruct (Z.eqb_spec code1 4); [contradiction |].
    destruct (Z.eqb_spec code1 8); [contradiction |]. reflexivity.
  - intros ->; reflexivity.
  - intros ->; reflexivity.
Qed.

Lemma getChannel_spec_witness :
  OregonDevice_v1.getChannel [0x44; 0x53; 0x02; 0x99] = 2
  /\ OregonDevice_v2.getChannel packet_v2 = Some 2.
Proof.
  assert (Hb1 : bytes [0x44; 0x53; 0x02; 0x99]) by (repeat constructor; unfold is_byte; lia).
  assert (Hb2 : bytes packet_v2) by (repeat constructor; unfold is_byte; lia).
  split.
  - apply (getChannel_spec _ Hb1). reflexivity.
  - apply (getChannel_spec _ Hb2). reflexivity.
Defined.

(** ** The bit accumulator *)

Lemma append_bits_app gotBit vs ws s :
  append_bits gotBit (vs ++ ws) s = append_bits gotBit ws (append_bits gotBit vs s).
Proof. unfold append_bits. apply fold_left_app. Qed.

Lemma resetDecoder_wf s :
  length (data s) = 25%nat -> bytes (data s) -> wf (resetDecoder s).
Proof.
  intros Hl Hb. constructor; simpl; unfold is_byte, sizeof_data; try lia; assumption.
Qed.

(** The base [gotBit], case by case. *)
Lemma gotBit_cases value s :
  0 <= bits s < 8 -> 0 <= pos s < sizeof_data ->
  DecodeOOK.gotBit value s =
    if bits s <? 7 then
      mk (to_byte (total_bits s + 1)) (bits s + 1) (flip s) OK (pos s)
         (data (written value s))
    else if pos s <? 24 then
      mk (to_byte (total_bits s + 1)) 0 (flip s) OK (pos s + 1)
         (data (written value s))
    else resetDecoder (written value s).
Proof.
  unfold sizeof_data. intros Hbits Hpos.
  unfold DecodeOOK.gotBit, written, set_total_bits, set_data, set_bits, set_pos,
    set_state, resetDecoder, sizeof_data; simpl.
  destruct (Z.ltb_spec (bits s) 7) as [H7 | H7].
  - rewrite (to_byte_small (bits s + 1)) by (unfold is_byte; lia).
    destruct (Z.leb_spec 8 (bits s + 1)); [lia | reflexivity].
  - assert (E : bits s = 7) by lia. rewrite E.
    change (to_byte (7 + 1)) with 8. change (8 <=? 8) with true. cbv iota.
    rewrite (to_byte_small (pos s + 1)) by (unfold is_byte; lia).
    destruct (Z.ltb_spec (pos s) 24); destruct (Z.leb_spec 25 (pos s + 1));
      (reflexivity || lia).
Qed.

Lemma gotBit_wf value s : wf s -> wf (DecodeOOK.gotBit value s).
Proof.
  intros [Ht Hb Hf Hp Hl Hd].
  rewrite gotBit_cases by assumption. unfold sizeof_data in *.
  destruct (Z.ltb_spec (bits s) 7); [| destruct (Z.ltb_spec (pos s) 24)];
    constructor; simpl; unfold sizeof_data;
    try apply to_byte_range; try (unfold is_byte; lia); try assumption;
    try (rewrite wr_length; assumption);
    try (apply wr_bytes; [assumption | apply to_byte_range]).
Qed.

Lemma append_bits_wf vs : forall s, wf s -> wf (append_bits DecodeOOK.gotBit vs s).
Proof.
  induction vs as [| v vs IH]; intros s Hs; simpl; [assumption |].
  apply IH, gotBit_wf, Hs.
Qed.

(** The position stays inside the buffer, whatever is appended. *)
Lemma gotBit_pos_in_range vs s :
  wf s -> 0 <= pos (append_bits DecodeOOK.gotBit vs s) < sizeof_data.
Proof. intros Hs. apply (wf_pos _ (append_bits_wf vs s Hs)). Qed.

Lemma fresh_wf : wf fresh.
Proof.
  apply resetDecoder_wf; [reflexivity |].
  simpl. repeat constructor; unfold is_byte; lia.
Qed.

(** C7, as stated, fails: the buffer has 25 cells, not 24, and a decoder
    that has been offered 193 bits, more than 24 bytes hold, has not been
    reset: it is in state OK at position 24 with one bit pending. *)
Lemma capacity_is_not_24 :
  sizeof_data <> 24
  /\ let s := append_bits DecodeOOK.gotBit (repeat 1 193) fresh in
     state s = OK /\ pos s = 24 /\ bits s = 1 /\ total_bits s = 193
     /\ s <> resetDecoder s.
Proof.
  split; [discriminate |].
  vm_compute. repeat split; discriminate.
Qed.

(** C7, amended. The buffer has a fixed capacity of 25 bytes and the
    position never leaves it: the append that completes the cell at
    position 24 resets the decoder (counters and position zero, state
    UNKNOWN), leaving exactly what [resetDecoder] produces once the cell is
    written; every other append stores the bit and leaves the state OK. *)
Theorem gotBit_overflow_containment :
  sizeof_data = 25
  /\ forall s : t,
      wf s ->
      (forall vs, 0 <= pos (append_bits DecodeOOK.gotBit vs s) < sizeof_data)
      /\ forall value,
          let s' := DecodeOOK.gotBit value s in
          (bits s = 7 /\ pos s = 24 ->
           s' = resetDecoder (written value s)
           /\ state s' = UNKNOWN /\ total_bits s' = 0 /\ bits s' = 0
           /\ pos s' = 0 /\ flip s' = 0)
          /\ (~ (bits s = 7 /\ pos s = 24) ->
              state s' = OK /\ data s' = data (written value s)
              /\ 8 * pos s' + bits s' = 8 * pos s + bits s + 1).
Proof.
  split; [reflexivity |].
  intros s Hs. split; [intros vs; apply gotBit_pos_in_range, Hs |].
  intros value s'. subst s'.
  destruct Hs as [Ht Hb Hf Hp Hl Hd].
  rewrite gotBit_cases by assumption. unfold sizeof_data in Hp.
  split.
  - intros [E7 E24]. rewrite E7, E24. simpl. repeat split; reflexivity.
  - intros N.
    destruct (Z.ltb_spec (bits s) 7); [| destruct (Z.ltb_spec (pos s) 24)]; simpl.
    + repeat split; lia.
    + repeat split; lia.
    + exfalso. apply N. lia.
Qed.

Lemma gotBit_overflow_containment_witness :
  0 <= pos (append_bits DecodeOOK.gotBit (repeat 1 200) fresh) < sizeof_data.
Proof.
  apply (proj2 gotBit_overflow_containment fresh fresh_wf).
Defined.

(** ** The v2.1 bit duplication *)

Lemma land1_even x : (Z.land x 1 =? 0) = Z.even x.
Proof.
  change 1 with (Z.ones 1). rewrite Z.land_ones by lia.
  change (2 ^ 1) with 2. rewrite Zmod_even. destruct (Z.even x); reflexivity.
Qed.

Lemma even_next_byte x : is_byte x -> Z.even (to_byte (x + 1)) = negb (Z.even x).
Proof.
  unfold is_byte, to_byte. intros H.
  destruct (Z.eq_dec x 255) as [-> | N]; [reflexivity |].
  rewrite Z.mod_small by lia.
  rewrite Z.add_1_r, Z.even_succ, Z.negb_even. reflexivity.
Qed.

Lemma v2_gotBit_cases value s :
  OregonDecoder_v2.gotBit value s =
    mk (to_byte (total_bits s + 1)) (bits s) (flip s) OK
       (to_byte (total_bits s + 1) / 16)
       (if Z.even (total_bits s) then data (committed value s) else data s).
Proof.
  unfold OregonDecoder_v2.gotBit. rewrite land1_even.
  pose proof (to_byte_range (total_bits s + 1)) as Hn. unfold is_byte in Hn.
  assert (Hq : 0 <= to_byte (total_bits s + 1) / 16 < 16).
  { split; [apply Z.div_pos; lia | apply Z.div_lt_upper_bound; lia]. }
  destruct (Z.even (total_bits s)); unfold committed, set_data, set_total_bits,
    set_pos, set_state, resetDecoder, sizeof_data; simpl;
    rewrite Z.shiftr_div_pow2 by lia; change (2 ^ 4) with 16;
    rewrite (to_byte_small (_ / 16)) by (unfold is_byte; lia);
    destruct (Z.leb_spec 25 (to_byte (total_bits s + 1) / 16)); (reflexivity || lia).
Qed.

Lemma v2_gotBit_wf value s : wf s -> wf (OregonDecoder_v2.gotBit value s).
Proof.
  intros [Ht Hb Hf Hp Hl Hd]. rewrite v2_gotBit_cases.
  pose proof (to_byte_range (total_bits s + 1)) as Hn. unfold is_byte in Hn.
  constructor; simpl; try assumption.
  - unfold sizeof_data. split; [apply Z.div_pos; lia | apply Z.div_lt_upper_bound; lia].
  - destruct (Z.even (total_bits s)); simpl; [rewrite wr_length |]; assumption.
  - destruct (Z.even (total_bits s)); simpl; [| assumption].
    apply wr_bytes; [assumption | apply to_byte_range].
Qed.

Lemma v2_append_bits_wf vs :
  forall s, wf s -> wf (append_bits OregonDecoder_v2.gotBit vs s).
Proof.
  induction vs as [| v vs IH]; intros s Hs; simpl; [assumption |].
  apply IH, v2_gotBit_wf, Hs.
Qed.

Lemma v2_append_bits_total vs :
  forall s, is_byte (total_bits s) ->
    total_bits (append_bits OregonDecoder_v2.gotBit vs s)
    = to_byte (total_bits s + Z.of_nat (length vs)).
Proof.
  induction vs as [| v vs IH]; intros s Hs.
  - simpl. rewrite Z.add_0_r, to_byte_small; [reflexivity | assumption].
  - change (append_bits OregonDecoder_v2.gotBit (v :: vs) s)
      with (append_bits OregonDecoder_v2.gotBit vs (OregonDecoder_v2.gotBit v s)).
    rewrite IH; rewrite v2_gotBit_cases; simpl; [| apply to_byte_range].
    unfold to_byte. rewrite Zplus_mod_idemp_l. f_equal. lia.
Qed.

(** C3. Every call of the v2.1 [gotBit] increments the 8-bit counter of
    offered bits; the bit is committed to the buffer exactly when that
    counter is even at the time of the call, which is the case for every
    other call of any sequence of calls; and after every call the position
    is the counter divided by 16. *)
Theorem v2_gotBit_every_other :
  forall s : t,
    is_byte (total_bits s) ->
    (forall value,
        let s' := OregonDecoder_v2.gotBit value s in
        total_bits s' = (total_bits s + 1) mod 256
        /\ (total_bits s < 255 -> total_bits s' = total_bits s + 1)
        /\ (Z.even (total_bits s) = true -> data s' = data (committed value s))
        /\ (Z.even (total_bits s) = false -> data s' = data s)
        /\ Z.even (total_bits s') = negb (Z.even (total_bits s))
        /\ pos s' = total_bits s' / 16)
    /\ (forall vs value,
           let si := append_bits OregonDecoder_v2.gotBit vs s in
           let n := Z.of_nat (length vs) in
           total_bits si = (total_bits s + n) mod 256
           /\ (vs <> [] -> pos si = total_bits si / 16)
           /\ data (OregonDecoder_v2.gotBit value si)
              = if Z.even (total_bits s + n) then data (committed value si)
                else data si).
Proof.
  intros s Ht. split.
  - intros value s'. subst s'. rewrite v2_gotBit_cases. simpl.
    repeat split.
    + intros Hlt. unfold is_byte in Ht. apply to_byte_small. unfold is_byte. lia.
    + intros ->. reflexivity.
    + intros ->. reflexivity.
    + apply even_next_byte, Ht.
  - intros vs value si n.
    assert (Hsi : total_bits si = to_byte (total_bits s + n))
      by (apply v2_append_bits_total, Ht).
    assert (Hb : is_byte (total_bits si)) by (rewrite Hsi; apply to_byte_range).
    repeat split.
    + exact Hsi.
    + intros Hne. subst si.
      destruct (exists_last Hne) as [vs' [v ->]].
      rewrite append_bits_app. simpl.
      assert (Hb' : is_byte (total_bits (append_bits OregonDecoder_v2.gotBit vs' s))).
      { rewrite v2_append_bits_total by assumption. apply to_byte_range. }
      rewrite v2_gotBit_cases. reflexivity.
    + rewrite v2_gotBit_cases. simpl.
      replace (Z.even (total_bits si)) with (Z.even (total_bits s + n)); [reflexivity |].
      rewrite Hsi. unfold to_byte.
      assert (E : ((total_bits s + n) mod 256) mod 2 = (total_bits s + n) mod 2)
        by (apply Z.mod_mod_divide; exists 128; reflexivity).
      rewrite !Zmod_even in E.
      destruct (Z.even (total_bits s + n)), (Z.even ((total_bits s + n) mod 256));
        (reflexivity || discriminate).
Qed.

Lemma v2_gotBit_every_other_witness :
  let s' := OregonDecoder_v2.gotBit 1 fresh in
  total_bits s' = (total_bits fresh + 1) mod 256
  /\ (total_bits fresh < 255 -> total_bits s' = total_bits fresh + 1)
  /\ (Z.even (total_bits fresh) = true -> data s' = data (committed 1 fresh))
  /\ (Z.even (total_bits fresh) = false -> data s' = data fresh)
  /\ Z.even (total_bits s') = negb (Z.even (total_bits fresh))
  /\ pos s' = total_bits s' / 16.
Proof.
  apply (proj1 (v2_gotBit_every_other fresh ltac:(unfold is_byte; simpl; lia)) 1).
Defined.

(** ** The padding loop of [done] and the totality of [nextPulse] *)

Lemma set_flip_wf v s : is_byte v -> wf s -> wf (set_flip v s).
Proof. intros Hv [Ht Hb Hf Hp Hl Hd]. constructor; simpl; assumption. Qed.

Lemma set_state_wf v s : wf s -> wf (set_state v s).
Proof. intros [Ht Hb Hf Hp Hl Hd]. constructor; simpl; assumption. Qed.

Lemma resetDecoder_wf' s : wf s -> wf (resetDecoder s).
Proof. intros Hs. apply resetDecoder_wf; [apply (wf_length _ Hs) | apply (wf_data _ Hs)]. Qed.

Create HintDb wf.

#[local] Hint Resolve set_flip_wf set_state_wf resetDecoder_wf' gotBit_wf
  v2_gotBit_wf to_byte_range : wf.

Lemma manchester_wf (gotBit : Z -> t -> t) value s :
  (forall v s0, wf s0 -> wf (gotBit v s0)) -> wf s -> wf (manchester gotBit value s).
Proof. intros Hg Hs. unfold manchester. simpl. auto with wf. Qed.

(** More budget does not change the outcome of a loop that ended. *)
Lemma done_loop_more_fuel D n m s s' :
  done_loop D n s = Some s' -> done_loop D (n + m) s = Some s'.
Proof.
  revert s. induction n as [| n IH]; intros s H.
  - simpl in H. destruct m; simpl; destruct (bits s =? 0); congruence.
  - simpl in *. destruct (bits s =? 0); [assumption | apply IH, H].
Qed.

(** With the base [gotBit] the loop ends within 8 iterations, on a cell
    boundary. *)
Lemma done_loop_v1_total s :
  wf s ->
  exists s', done_loop OregonDecoder_v1.decoder 8 s = Some s' /\ wf s' /\ bits s' = 0.
Proof.
  assert (G : forall fuel s, wf s -> (bits s = 0 \/ 8 - bits s <= Z.of_nat fuel) ->
                exists s', done_loop OregonDecoder_v1.decoder fuel s = Some s'
                           /\ wf s' /\ bits s' = 0).
  { induction fuel as [| fuel IH]; intros s0 Hs Hf.
    - pose proof (wf_bits _ Hs). assert (E : bits s0 = 0) by lia.
      exists s0. simpl. rewrite E. auto.
    - simpl. destruct (Z.eqb_spec (bits s0) 0) as [E | N]; [exists s0; auto |].
      apply IH; [apply gotBit_wf, Hs |].
      pose proof (wf_bits _ Hs) as Hb. pose proof (wf_pos _ Hs) as Hp.
      rewrite gotBit_cases by assumption.
      destruct (Z.ltb_spec (bits s0) 7); [| destruct (Z.ltb_spec (pos s0) 24)];
        simpl; lia. }
  intros Hs. apply G; [assumption |]. pose proof (wf_bits _ Hs). lia.
Qed.

(** With the overriding [gotBit], which never touches [bits], the loop
    does not run when [bits] is zero and never ends otherwise. *)
Lemma done_loop_v2_diverges s :
  (bits s = 0 -> forall fuel, done_loop OregonDecoder_v2.decoder fuel s = Some s)
  /\ (bits s <> 0 -> forall fuel, done_loop OregonDecoder_v2.decoder fuel s = None).
Proof.
  split.
  - intros E fuel. destruct fuel; simpl; rewrite E; reflexivity.
  - intros N fuel. revert s N. induction fuel as [| fuel IH]; intros s N; simpl;
      destruct (Z.eqb_spec (bits s) 0); try contradiction; [reflexivity |].
    apply IH. rewrite v2_gotBit_cases. simpl. assumption.
Qed.

Lemma v1_decode_wf w s : wf s -> wf (snd (OregonDecoder_v1.decode w s)).
Proof.
  intros Hs. unfold OregonDecoder_v1.decode, OregonDecoder_v1.decode_switch.
  destruct ((900 <=? w) && (w <=? 7000)); [| assumption].
  destruct (state s); simpl;
    repeat match goal with
           | |- context [if ?c then _ else _] => destruct c; simpl
           end;
    auto using manchester_wf with wf.
  all: apply set_state_wf, set_flip_wf; [unfold is_byte; lia | assumption].
Qed.

Lemma v2_decode_wf w s : wf s -> wf (snd (OregonDecoder_v2.decode w s)).
Proof.
  intros Hs. unfold OregonDecoder_v2.decode, OregonDecoder_v2.decode_switch.
  destruct ((200 <=? w) && (w <? 1200)).
  - destruct (state s); simpl;
      repeat match goal with
             | |- context [if ?c then _ else _] => destruct c; simpl
             end;
      auto using manchester_wf with wf.
    apply set_state_wf, set_flip_wf; [unfold is_byte; lia | assumption].
  - destruct ((2500 <=? w) && (8 <=? pos s)); assumption.
Qed.

Lemma v2_decode_bits w s : bits (snd (OregonDecoder_v2.decode w s)) = bits s.
Proof.
  unfold OregonDecoder_v2.decode, OregonDecoder_v2.decode_switch.
  destruct ((200 <=? w) && (w <? 1200)).
  - destruct (state s); simpl;
      repeat match goal with
             | |- context [if ?c then _ else _] => destruct c; simpl
             end;
      unfold manchester; rewrite ?v2_gotBit_cases; reflexivity.
  - destruct ((2500 <=? w) && (8 <=? pos s)); reflexivity.
Qed.

(** [nextPulse] returns for every pulse, and maintains [device_ok]. *)
Lemma nextPulse_total k s w :
  device_ok (mkDevice k s) ->
  exists r s', nextPulse (decoder_of k) w s = Some (r, s')
               /\ r = isDone s' /\ device_ok (mkDevice k s').
Proof.
  intros [Hs Hb]. simpl in Hs, Hb. unfold nextPulse, device_ok.
  destruct (isDone s) eqn:Ed.
  { exists true, s. simpl. rewrite Ed. auto. }
  destruct k; simpl.
  - pose proof (v1_decode_wf w s Hs) as Hw.
    destruct (OregonDecoder_v1.decode w s) as [r s1]. simpl in Hw.
    destruct (r =? -1).
    { eexists _, _. simpl. split; [reflexivity |]. split; [reflexivity |].
      split; [auto with wf | discriminate]. }
    destruct (r =? 1).
    + destruct (done_loop_v1_total s1 Hw) as [s2 [E [Hw2 _]]].
      unfold done. rewrite E. simpl. eexists _, _.
      split; [reflexivity |]. split; [reflexivity |].
      split; [auto with wf | discriminate].
    + eexists _, _. simpl. split; [reflexivity |]. split; [reflexivity |].
      split; [assumption | discriminate].
  - pose proof (v2_decode_wf w s Hs) as Hw.
    pose proof (v2_decode_bits w s) as Hbits. rewrite (Hb eq_refl) in Hbits.
    destruct (OregonDecoder_v2.decode w s) as [r s1]. simpl in Hw, Hbits.
    destruct (r =? -1).
    { eexists _, _. simpl. split; [reflexivity |]. split; [reflexivity |].
      split; [auto with wf | reflexivity]. }
    destruct (r =? 1).
    + unfold done. rewrite (proj1 (done_loop_v2_diverges s1) Hbits). simpl.
      eexists _, _. split; [reflexivity |]. split; [reflexivity |].
      split; [auto with wf | intros _; exact Hbits].
    + eexists _, _. simpl. split; [reflexivity |]. split; [reflexivity |].
      split; [assumption | intros _; exact Hbits].
Qed.

(** ** Reset *)

(** A failing [decode] has not touched the object. *)
Lemma decode_failure_unchanged k w s :
  fst (v_decode (decoder_of k) w s) = -1 -> snd (v_decode (decoder_of k) w s) = s.
Proof.
  destruct k; simpl.
  - unfold OregonDecoder_v1.decode.
    destruct ((900 <=? w) && (w <=? 7000)); [| reflexivity].
    destruct (OregonDecoder_v1.decode_switch w s) as [r | s']; [reflexivity |].
    simpl. destruct (32 <=? total_bits s'); discriminate.
  - unfold OregonDecoder_v2.decode.
    destruct ((200 <=? w) && (w <? 1200)).
    + destruct (OregonDecoder_v2.decode_switch w s) as [r | s']; [reflexivity |].
      simpl. discriminate.
    + destruct ((2500 <=? w) && (8 <=? pos s)); reflexivity.
Qed.

Lemma loop_body_inv p cb kk d calls d' :
  loop_body p cb kk d = Some (calls, d') ->
  exists completed s1,
    nextPulse (decoder_of (kind d)) p (dDecoder d) = Some (completed, s1)
    /\ calls = (if completed && validateChecksum (kind d) (data s1) && cb
                then [mkCall kk (kind d) (data s1)] else [])
    /\ d' = mkDevice (kind d) (if completed then resetDecoder s1 else s1).
Proof.
  unfold loop_body, Device_nextPulse. intros H.
  destruct (nextPulse (decoder_of (kind d)) p (dDecoder d)) as [[completed s1] |];
    [| discriminate].
  exists completed, s1. split; [reflexivity |]. simpl in H.
  destruct completed; simpl in *.
  - destruct (validateChecksum (kind d) (data s1)); simpl in *;
      [destruct cb |]; injection H as <- <-; auto.
  - injection H as <- <-. auto.
Qed.

(** ** The dispatcher *)

Lemma loop_body_total p cb kk d :
  device_ok d -> exists calls d', loop_body p cb kk d = Some (calls, d') /\ device_ok d'.
Proof.
  intros Hd. destruct d as [k s].
  destruct (nextPulse_total k s p Hd) as (r & s' & E & _ & Hok).
  unfold loop_body, Device_nextPulse. simpl. rewrite E. simpl.
  destruct r; simpl.
  - assert (Hok' : device_ok (mkDevice k (resetDecoder s'))).
    { destruct Hok as [Hw _]. split; simpl; [auto with wf | reflexivity]. }
    destruct (validateChecksum k (data s')); simpl; eauto.
  - eauto.
Qed.

Lemma loop_devices_total p cb ds :
  Forall device_ok ds ->
  forall kk, exists calls ds',
    loop_devices p cb kk ds = Some (calls, ds') /\ Forall device_ok ds'.
Proof.
  induction 1 as [| d ds Hd Hds IH]; intros kk; simpl.
  - eauto.
  - destruct (loop_body_total p cb kk d Hd) as (c1 & d' & E1 & Hd').
    destruct (IH (S kk)) as (c2 & ds' & E2 & Hds').
    rewrite E1. simpl. rewrite E2. simpl. eauto.
Qed.

Lemma filter_none {A} (f : A -> bool) (l : list A) :
  (forall x, In x l -> f x = false) -> List.filter f l = [].
Proof.
  induction l as [| a l IH]; intros H; simpl; [reflexivity |].
  rewrite (H a) by (left; reflexivity). apply IH. intros x Hx. apply H. right. exact Hx.
Qed.

Lemma filter_all {A} (f : A -> bool) (l : list A) :
  (forall x, In x l -> f x = true) -> List.filter f l = l.
Proof.
  induction l as [| a l IH]; intros H; simpl; [reflexivity |].
  rewrite (H a) by (left; reflexivity). f_equal. apply IH. intros x Hx. apply H. right. exact Hx.
Qed.

(** The calls made for the device at index [kk0 + i] are those of the body
    of the loop run on that device. *)
Lemma loop_devices_calls p cb ds :
  forall kk0 calls ds',
    loop_devices p cb kk0 ds = Some (calls, ds') ->
    forall (i : nat) d,
      ds !! i = Some d ->
      exists c d', loop_body p cb (kk0 + i) d = Some (c, d')
                   /\ ds' !! i = Some d'
                   /\ List.filter (fun x => Nat.eqb (call_device x) (kk0 + i)) calls = c.
Proof.
  induction ds as [| d0 ds IH]; intros kk0 calls ds' H i d Hi; [discriminate |].
  simpl in H.
  destruct (loop_body p cb kk0 d0) as [[c0 d0'] |] eqn:E0; [| discriminate].
  simpl in H.
  destruct (loop_devices p cb (S kk0) ds) as [[c1 ds1] |] eqn:E1; [| discriminate].
  simpl in H. injection H as <- <-.
  assert (Hc0 : forall x, In x c0 -> call_device x = kk0).
  { destruct (loop_body_inv _ _ _ _ _ _ E0) as (completed & s1 & _ & -> & _).
    intros x Hx. destruct (completed && _ && cb); simpl in Hx; [| contradiction].
    destruct Hx as [<- | []]. reflexivity. }
  assert (Hc1 : forall x, In x c1 -> (S kk0 <= call_device x)%nat).
  { clear - E1. revert kk0 c1 ds1 E1.
    induction ds as [| d ds IH]; intros kk0 c1 ds1 E1 x Hx; simpl in E1.
    - injection E1 as <- <-. contradiction.
    - destruct (loop_body p cb (S kk0) d) as [[c d'] |] eqn:E; [| discriminate].
      simpl in E1.
      destruct (loop_devices p cb (S (S kk0)) ds) as [[c' ds'] |] eqn:E'; [| discriminate].
      simpl in E1. injection E1 as <- <-.
      apply in_app_or in Hx. destruct Hx as [Hx | Hx].
      + destruct (loop_body_inv _ _ _ _ _ _ E) as (completed & s1 & _ & -> & _).
        destruct (completed && _ && cb); simpl in Hx; [| contradiction].
        destruct Hx as [<- | []]. simpl. lia.
      + specialize (IH (S kk0) c' ds' E' x Hx). lia. }
  rewrite List.filter_app.
  destruct i as [| i]; simpl in Hi.
  - injection Hi as <-. exists c0, d0'. rewrite Nat.add_0_r.
    split; [assumption |]. split; [reflexivity |].
    replace (List.filter (fun x => Nat.eqb (call_device x) kk0) c1) with (@nil Call).
    + rewrite app_nil_r. apply filter_all.
      intros x Hx. apply Nat.eqb_eq, Hc0, Hx.
    + symmetry. apply filter_none. intros x Hx.
      apply Nat.eqb_neq. specialize (Hc1 x Hx). lia.
  - destruct (IH (S kk0) c1 ds1 E1 i d Hi) as (c & d' & Eb & El & Ef).
    replace (kk0 + S i)%nat with (S kk0 + i)%nat by lia.
    exists c, d'. split; [assumption |]. split; [assumption |].
    replace (List.filter (fun x => Nat.eqb (call_device x) (S kk0 + i)) c0) with (@nil Call).
    + assumption.
    + symmetry. apply filter_none. intros x Hx.
      apply Nat.eqb_neq. rewrite (Hc0 x Hx). lia.
Qed.

Lemma loop_devices_call_range p cb ds :
  forall kk0 calls ds',
    loop_devices p cb kk0 ds = Some (calls, ds') ->
    forall x, In x calls -> (kk0 <= call_device x < kk0 + length ds)%nat.
Proof.
  induction ds as [| d ds IH]; intros kk0 calls ds' H x Hx; simpl in H.
  - injection H as <- <-. contradiction.
  - destruct (loop_body p cb kk0 d) as [[c d'] |] eqn:E; [| discriminate].
    simpl in H.
    destruct (loop_devices p cb (S kk0) ds) as [[c' ds1] |] eqn:E'; [| discriminate].
    simpl in H. injection H as <- <-.
    apply in_app_or in Hx. destruct Hx as [Hx | Hx].
    + destruct (loop_body_inv _ _ _ _ _ _ E) as (completed & s1 & _ & -> & _).
      destruct (completed && _ && cb); simpl in Hx; [| contradiction].
      destruct Hx as [<- | []]. simpl. lia.
    + specialize (IH (S kk0) c' ds1 E' x Hx). simpl. lia.
Qed.

(** C10. When the slot holds 0, [loop] returns without offering anything to
    a decoder and without a call: the bridge is unchanged.  An edge whose
    measured interval is 0 writes 0 into the slot and leaves [last] as it
    was, so that on an empty slot it changes nothing at all, and whatever
    the slot held [loop] then behaves as if no pulse had arrived. *)
Theorem loop_ignores_zero_pulse :
  forall b : OregonBridge,
    pulse b = 0 ->
    0 <= last b < 2 ^ 16 ->
    loop b = Some ([], b)
    /\ (forall micros,
           to_word (micros - last b) = 0 -> externalInterrupt micros b = b)
    /\ (forall p micros,
           let pending := mkBridge p (last b) (devices b) (usrCallbackfunc b) in
           to_word (micros - last b) = 0 ->
           loop (externalInterrupt micros pending) = Some ([], b)).
Proof.
  intros [p l ds cb] Hp Hl. simpl in Hp, Hl. subst p.
  assert (Hw : to_word (l + 0) = l).
  { unfold to_word. rewrite Z.add_0_r. apply Z.mod_small. exact Hl. }
  split; [reflexivity |]. split.
  - intros micros Hm. simpl in Hm. unfold externalInterrupt. simpl.
    rewrite Hm, Hw. reflexivity.
  - intros p micros pending Hm. simpl in Hm. unfold externalInterrupt, pending. simpl.
    rewrite Hm, Hw. reflexivity.
Qed.

Lemma loop_ignores_zero_pulse_witness :
  loop (bridge 0) = Some ([], bridge 0)
  /\ (forall micros,
         to_word (micros - last (bridge 0)) = 0 ->
         externalInterrupt micros (bridge 0) = bridge 0)
  /\ (forall p micros,
         let pending :=
           mkBridge p (last (bridge 0)) (devices (bridge 0))
                    (usrCallbackfunc (bridge 0)) in
         to_word (micros - last (bridge 0)) = 0 ->
         loop (externalInterrupt micros pending) = Some ([], bridge 0)).
Proof.
  apply (loop_ignores_zero_pulse (bridge 0)).
  - reflexivity.
  - simpl. lia.
Defined.

(** ** Manchester decoding *)

Lemma encode_sound (short long : Z -> Prop) sw lw :
  short sw -> long lw ->
  forall bs prev, is_bit prev -> Forall is_bit bs ->
    manchester_enc short long prev bs (encode sw lw prev bs).
Proof.
  intros Hs Hl. induction bs as [| b bs IH]; intros prev Hp Hb; simpl.
  - constructor.
  - inversion Hb as [| ? ? Hb0 Hbs]; subst.
    destruct (Z.eqb_spec b prev) as [-> | N]; simpl.
    + apply enc_repeat; auto.
    + assert (E : b = 1 - prev) by (unfold is_bit in *; lia). rewrite E.
      apply enc_flip; [assumption |]. rewrite <- E. apply IH; assumption.
Qed.

Lemma eq_upto_flip_set f s : eq_upto_flip (set_flip f s) s.
Proof. reflexivity. Qed.

Lemma eq_upto_flip_last f s s' : eq_upto_flip s s' -> set_flip f s = set_flip f s'.
Proof.
  unfold eq_upto_flip, set_flip. intros E. injection E as -> -> -> -> ->. reflexivity.
Qed.

Lemma gotBit_upto_flip v s s' :
  eq_upto_flip s s' -> eq_upto_flip (DecodeOOK.gotBit v s) (DecodeOOK.gotBit v s').
Proof.
  unfold eq_upto_flip, set_flip. intros E. injection E as E1 E2 E3 E4 E5.
  unfold DecodeOOK.gotBit, set_total_bits, set_data, set_bits, set_pos, set_state,
    resetDecoder. simpl. rewrite E1, E2, E4, E5.
  repeat match goal with
         | |- context [if ?c then _ else _] => destruct c
         end; reflexivity.
Qed.

Lemma v2_gotBit_upto_flip v s s' :
  eq_upto_flip s s' ->
  eq_upto_flip (OregonDecoder_v2.gotBit v s) (OregonDecoder_v2.gotBit v s').
Proof.
  unfold eq_upto_flip, set_flip. intros E. injection E as E1 E2 E3 E4 E5.
  rewrite !v2_gotBit_cases. unfold committed, set_data. simpl.
  rewrite E1, E2, E4, E5. reflexivity.
Qed.

Lemma append_bits_upto_flip gotBit :
  (forall v s s', eq_upto_flip s s' -> eq_upto_flip (gotBit v s) (gotBit v s')) ->
  forall bs s s', eq_upto_flip s s' ->
    eq_upto_flip (append_bits gotBit bs s) (append_bits gotBit bs s').
Proof.
  intros Hg. induction bs as [| b bs IH]; intros s s' E; simpl; [assumption |].
  apply IH, Hg, E.
Qed.

(** One bit appended by the base [gotBit] without reaching the end of the
    buffer. *)
Lemma gotBit_step v s :
  wf s -> 8 * pos s + bits s < 199 ->
  let s' := DecodeOOK.gotBit v s in
  state s' = OK /\ flip s' = flip s
  /\ total_bits s' = to_byte (total_bits s + 1)
  /\ 8 * pos s' + bits s' = 8 * pos s + bits s + 1.
Proof.
  intros Hs Hn. pose proof (wf_bits _ Hs) as Hb. pose proof (wf_pos _ Hs) as Hp.
  simpl. rewrite gotBit_cases by assumption. unfold sizeof_data in Hp.
  destruct (Z.ltb_spec (bits s) 7); [| destruct (Z.ltb_spec (pos s) 24)]; simpl;
    repeat split; lia.
Qed.

(** Settle the comparisons of the goal that linear arithmetic decides. *)
Ltac settle_cmp :=
  repeat match goal with
         | |- context [Z.leb ?a ?b] =>
             first [ replace (Z.leb a b) with true by (symmetry; apply Z.leb_le; lia)
                   | replace (Z.leb a b) with false by (symmetry; apply Z.leb_gt; lia) ]
         | |- context [Z.ltb ?a ?b] =>
             first [ replace (Z.ltb a b) with true by (symmetry; apply Z.ltb_lt; lia)
                   | replace (Z.ltb a b) with false by (symmetry; apply Z.ltb_ge; lia) ]
         end.

Lemma last_cons_default {A} (a d : A) (l : list A) :
  List.last (a :: l) d = List.last l a.
Proof.
  revert a d. induction l as [| b l IH]; intros a d; [reflexivity |].
  change (List.last (a :: b :: l) d) with (List.last (b :: l) d).
  rewrite IH. symmetry. apply IH.
Qed.

Lemma set_flip_same s : set_flip (flip s) s = s.
Proof. destruct s; reflexivity. Qed.

Lemma manchester_0 gotBit s :
  is_bit (flip s) -> manchester gotBit 0 s = gotBit (flip s) s.
Proof.
  intros Hf. unfold manchester.
  assert (E : to_byte (Z.lxor (flip s) 0) = flip s)
    by (destruct Hf as [-> | ->]; reflexivity).
  rewrite E. simpl. rewrite set_flip_same. reflexivity.
Qed.

Lemma manchester_1 gotBit s :
  is_bit (flip s) ->
  manchester gotBit 1 s = gotBit (1 - flip s) (set_flip (1 - flip s) s).
Proof.
  intros Hf. unfold manchester.
  assert (E : to_byte (Z.lxor (flip s) 1) = 1 - flip s)
    by (destruct Hf as [-> | ->]; reflexivity).
  rewrite E. reflexivity.
Qed.

Lemma gotBit_set_state v x s :
  DecodeOOK.gotBit v (set_state x s) = DecodeOOK.gotBit v s.
Proof.
  unfold DecodeOOK.gotBit, set_total_bits, set_data, set_bits, set_pos, set_state,
    resetDecoder. simpl.
  repeat match goal with
         | |- context [if ?c then _ else _] => destruct c
         end; reflexivity.
Qed.

Lemma v2_gotBit_set_state v x s :
  OregonDecoder_v2.gotBit v (set_state x s) = OregonDecoder_v2.gotBit v s.
Proof. rewrite !v2_gotBit_cases. reflexivity. Qed.

Lemma v1_decode_OK_short w s :
  state s = OK -> v1_short w ->
  OregonDecoder_v1.decode w s = (v1_code s, set_state T0 s).
Proof.
  unfold v1_short. intros Hst Hw.
  unfold OregonDecoder_v1.decode, OregonDecoder_v1.decode_switch. rewrite Hst.
  settle_cmp. reflexivity.
Qed.

Lemma v1_decode_T0_short w s :
  state s = T0 -> v1_short w ->
  OregonDecoder_v1.decode w s
  = (v1_code (manchester DecodeOOK.gotBit 0 s), manchester DecodeOOK.gotBit 0 s).
Proof.
  unfold v1_short. intros Hst Hw.
  unfold OregonDecoder_v1.decode, OregonDecoder_v1.decode_switch. rewrite Hst.
  settle_cmp. reflexivity.
Qed.

Lemma v1_decode_OK_long w s :
  state s = OK -> v1_long w ->
  OregonDecoder_v1.decode w s
  = (v1_code (manchester DecodeOOK.gotBit 1 s), manchester DecodeOOK.gotBit 1 s).
Proof.
  unfold v1_long. intros Hst Hw.
  unfold OregonDecoder_v1.decode, OregonDecoder_v1.decode_switch. rewrite Hst.
  settle_cmp. reflexivity.
Qed.

Lemma v1_code_not_failure s : (v1_code s =? -1) = false.
Proof. unfold v1_code. destruct (32 <=? total_bits s); reflexivity. Qed.

(** A pair of short pulses in state OK appends the previous bit. *)
Lemma v1_decode_pair w1 w2 ws s :
  state s = OK -> is_bit (flip s) -> v1_short w1 -> v1_short w2 ->
  feed_decode OregonDecoder_v1.decoder (w1 :: w2 :: ws) s
  = feed_decode OregonDecoder_v1.decoder ws (DecodeOOK.gotBit (flip s) s).
Proof.
  intros Hst Hf H1 H2.
  change (feed_decode OregonDecoder_v1.decoder (w1 :: w2 :: ws) s)
    with (let '(r, s1) := OregonDecoder_v1.decode w1 s in
          if r =? -1 then None
          else feed_decode OregonDecoder_v1.decoder (w2 :: ws) s1).
  rewrite v1_decode_OK_short by assumption. rewrite v1_code_not_failure.
  change (feed_decode OregonDecoder_v1.decoder (w2 :: ws) (set_state T0 s))
    with (let '(r, s1) := OregonDecoder_v1.decode w2 (set_state T0 s) in
          if r =? -1 then None
          else feed_decode OregonDecoder_v1.decoder ws s1).
  rewrite v1_decode_T0_short by (assumption || reflexivity).
  rewrite v1_code_not_failure, manchester_0 by assumption.
  simpl flip. rewrite gotBit_set_state. reflexivity.
Qed.

(** A long pulse in state OK appends the opposite of the previous bit. *)
Lemma v1_decode_long w ws s :
  state s = OK -> is_bit (flip s) -> v1_long w ->
  feed_decode OregonDecoder_v1.decoder (w :: ws) s
  = feed_decode OregonDecoder_v1.decoder ws
      (DecodeOOK.gotBit (1 - flip s) (set_flip (1 - flip s) s)).
Proof.
  intros Hst Hf H1.
  change (feed_decode OregonDecoder_v1.decoder (w :: ws) s)
    with (let '(r, s1) := OregonDecoder_v1.decode w s in
          if r =? -1 then None
          else feed_decode OregonDecoder_v1.decoder ws s1).
  rewrite v1_decode_OK_long by assumption.
  rewrite v1_code_not_failure, manchester_1 by assumption. reflexivity.
Qed.

Lemma is_bit_flip b : is_bit b -> is_bit (1 - b).
Proof. unfold is_bit. lia. Qed.

(** Round trip through the v1 [decode], as long as the buffer is not
    filled to its end. *)
Lemma v1_decode_roundtrip prev bs ws :
  manchester_enc v1_short v1_long prev bs ws ->
  forall s,
    wf s -> state s = OK -> flip s = prev -> is_bit prev ->
    8 * pos s + bits s + Z.of_nat (length bs) < 200 ->
    feed_decode OregonDecoder_v1.decoder ws s
    = Some (set_flip (List.last bs prev) (append_bits DecodeOOK.gotBit bs s)).
Proof.
  induction 1 as [prev | prev bs w1 w2 ws H1 H2 Henc IH | prev bs w ws H1 Henc IH];
    intros s Hs Hst Hf Hb Hn.
  - simpl. rewrite <- Hf, set_flip_same. reflexivity.
  - subst prev. rewrite v1_decode_pair by assumption.
    simpl length in Hn. rewrite Nat2Z.inj_succ in Hn.
    destruct (gotBit_step (flip s) s Hs ltac:(lia)) as (Kst & Kf & _ & Kn).
    rewrite IH; try assumption; [| apply gotBit_wf, Hs | lia].
    rewrite last_cons_default. reflexivity.
  - subst prev. rewrite v1_decode_long by assumption.
    simpl length in Hn. rewrite Nat2Z.inj_succ in Hn.
    assert (Hs' : wf (set_flip (1 - flip s) s)).
    { apply set_flip_wf; [| assumption]. unfold is_bit, is_byte in *. lia. }
    destruct (gotBit_step (1 - flip s) _ Hs' ltac:(simpl; lia)) as (Kst & Kf & _ & Kn).
    simpl in Kf, Kn.
    rewrite IH; try assumption;
      [| apply gotBit_wf, Hs' | apply is_bit_flip, Hb | simpl; lia].
    rewrite last_cons_default. f_equal.
    change (append_bits DecodeOOK.gotBit ((1 - flip s) :: bs) s)
      with (append_bits DecodeOOK.gotBit bs (DecodeOOK.gotBit (1 - flip s) s)).
    apply eq_upto_flip_last.
    apply (append_bits_upto_flip DecodeOOK.gotBit gotBit_upto_flip).
    apply gotBit_upto_flip, eq_upto_flip_set.
Qed.

(** [nextPulse] when [decode] returns 0. *)
Lemma nextPulse_continue D w s s' :
  isDone s = false -> v_decode D w s = (0, s') ->
  nextPulse D w s = Some (isDone s', s').
Proof. intros Hd E. unfold nextPulse. rewrite Hd, E. reflexivity. Qed.

Lemma feed_cons D w ws s :
  feed D (w :: ws) s
  = '(r, s1) ← nextPulse D w s; '(rs, s2) ← feed D ws s1; Some (r :: rs, s2).
Proof. reflexivity. Qed.

Lemma feed_step D w ws s s' :
  isDone s = false -> v_decode D w s = (0, s') ->
  feed D (w :: ws) s
  = (fun '(rs, s2) => (isDone s' :: rs, s2)) <$> feed D ws s'.
Proof.
  intros Hd E. rewrite feed_cons, (nextPulse_continue D w s s' Hd E). simpl.
  destruct (feed D ws s') as [[rs s2] |]; reflexivity.
Qed.

Lemma v1_code_0 s : total_bits s < 32 -> v1_code s = 0.
Proof. intros H. unfold v1_code. settle_cmp. reflexivity. Qed.

(** Round trip through [nextPulse] for the v1 classifier, as long as the
    packet is not complete. *)
Lemma v1_nextPulse_roundtrip prev bs ws :
  manchester_enc v1_short v1_long prev bs ws ->
  forall s,
    wf s -> state s = OK -> flip s = prev -> is_bit prev -> consistent s ->
    total_bits s + Z.of_nat (length bs) < 32 ->
    feed OregonDecoder_v1.decoder ws s
    = Some (repeat false (length ws),
            set_flip (List.last bs prev) (append_bits DecodeOOK.gotBit bs s)).
Proof.
  unfold consistent.
  induction 1 as [prev | prev bs w1 w2 ws H1 H2 Henc IH | prev bs w ws H1 Henc IH];
    intros s Hs Hst Hf Hb Hc Hn.
  - simpl. rewrite <- Hf, set_flip_same. reflexivity.
  - subst prev. simpl length in Hn. rewrite Nat2Z.inj_succ in Hn.
    pose proof (wf_total_bits _ Hs) as Ht. unfold is_byte in Ht.
    destruct (gotBit_step (flip s) s Hs ltac:(lia)) as (Kst & Kf & Kt & Kn).
    rewrite to_byte_small in Kt by (unfold is_byte; lia).
    rewrite (feed_step _ w1 _ s (set_state T0 s));
      [| unfold isDone; rewrite Hst; reflexivity
       | simpl; rewrite v1_decode_OK_short, v1_code_0 by (assumption || lia);
         reflexivity ].
    rewrite (feed_step _ w2 _ (set_state T0 s) (DecodeOOK.gotBit (flip s) s));
      [| reflexivity
       | simpl; rewrite v1_decode_T0_short by (assumption || reflexivity);
         rewrite manchester_0 by assumption; simpl flip;
         rewrite gotBit_set_state, v1_code_0 by lia; reflexivity ].
    rewrite IH; try assumption; [| apply gotBit_wf, Hs | lia | lia].
    rewrite last_cons_default. unfold isDone. rewrite Kst. reflexivity.
  - subst prev. simpl length in Hn. rewrite Nat2Z.inj_succ in Hn.
    pose proof (wf_total_bits _ Hs) as Ht. unfold is_byte in Ht.
    assert (Hs' : wf (set_flip (1 - flip s) s)).
    { apply set_flip_wf; [| assumption]. unfold is_bit, is_byte in *. lia. }
    destruct (gotBit_step (1 - flip s) _ Hs' ltac:(simpl; lia)) as (Kst & Kf & Kt & Kn).
    simpl in Kf, Kt, Kn.
    rewrite to_byte_small in Kt by (unfold is_byte; lia).
    rewrite (feed_step _ w _ s
               (DecodeOOK.gotBit (1 - flip s) (set_flip (1 - flip s) s)));
      [| unfold isDone; rewrite Hst; reflexivity
       | simpl; rewrite v1_decode_OK_long by assumption;
         rewrite manchester_1 by assumption;
         rewrite v1_code_0 by lia; reflexivity ].
    rewrite IH; try assumption;
      [| apply gotBit_wf, Hs' | apply is_bit_flip, Hb | lia | lia].
    rewrite last_cons_default. unfold isDone. rewrite Kst. cbn [fmap option_fmap option_map].
    change (length (w :: ws)) with (S (length ws)). cbn [repeat State_eqb]. do 2 f_equal.
    change (append_bits DecodeOOK.gotBit ((1 - flip s) :: bs) s)
      with (append_bits DecodeOOK.gotBit bs (DecodeOOK.gotBit (1 - flip s) s)).
    apply eq_upto_flip_last.
    apply (append_bits_upto_flip DecodeOOK.gotBit gotBit_upto_flip).
    apply gotBit_upto_flip, eq_upto_flip_set.
Qed.

Lemma set_flip_id f s : flip s = f -> set_flip f s = s.
Proof. intros <-. apply set_flip_same. Qed.

Lemma done_loop_boundary D fuel s : bits s = 0 -> done_loop D fuel s = Some s.
Proof. intros E. destruct fuel; simpl; rewrite E; reflexivity. Qed.

(** [nextPulse] when [decode] returns 1 on a cell boundary: no padding,
    the classifier is DONE. *)
Lemma nextPulse_complete_v1 w s s' :
  isDone s = false -> OregonDecoder_v1.decode w s = (1, s') -> bits s' = 0 ->
  nextPulse OregonDecoder_v1.decoder w s = Some (true, set_state DONE s').
Proof.
  intros Hd E Hb. unfold nextPulse. rewrite Hd. simpl v_decode. rewrite E.
  change (1 =? -1) with false. change (1 =? 1) with true. cbv iota.
  unfold done. rewrite done_loop_boundary by assumption. reflexivity.
Qed.

Lemma manchester_enc_nil short long prev ws :
  manchester_enc short long prev [] ws -> ws = [].
Proof. intros H. inversion H. reflexivity. Qed.

Lemma v1_code_1 s : total_bits s = 32 -> v1_code s = 1.
Proof. intros H. unfold v1_code. rewrite H. reflexivity. Qed.

(** Round trip through [nextPulse] for the v1 classifier when the last
    bit is the 32nd: all the bits are appended and the classifier is DONE. *)
Lemma v1_nextPulse_completes prev bs ws :
  manchester_enc v1_short v1_long prev bs ws ->
  forall s,
    wf s -> state s = OK -> flip s = prev -> is_bit prev -> consistent s ->
    total_bits s < 32 ->
    total_bits s + Z.of_nat (length bs) = 32 ->
    exists rs,
      feed OregonDecoder_v1.decoder ws s
      = Some (rs, set_state DONE
                    (set_flip (List.last bs prev)
                              (append_bits DecodeOOK.gotBit bs s))).
Proof.
  unfold consistent.
  induction 1 as [prev | prev bs w1 w2 ws H1 H2 Henc IH | prev bs w ws H1 Henc IH];
    intros s Hs Hst Hf Hb Hc Hlt Hn.
  - simpl in Hn. lia.
  - subst prev. simpl length in Hn. rewrite Nat2Z.inj_succ in Hn.
    pose proof (wf_total_bits _ Hs) as Ht. unfold is_byte in Ht.
    pose proof (wf_bits _ Hs) as Hbits.
    destruct (gotBit_step (flip s) s Hs ltac:(lia)) as (Kst & Kf & Kt & Kn).
    rewrite to_byte_small in Kt by (unfold is_byte; lia).
    rewrite (feed_step _ w1 _ s (set_state T0 s));
      [| unfold isDone; rewrite Hst; reflexivity
       | simpl; rewrite v1_decode_OK_short, v1_code_0 by (assumption || lia);
         reflexivity ].
    destruct (Z.eq_dec (total_bits s + 1) 32) as [E32 | N32].
    + assert (El : length bs = 0%nat) by lia.
      destruct bs; [| discriminate El].
      rewrite (manchester_enc_nil _ _ _ _ Henc).
      pose proof (wf_bits _ (gotBit_wf (flip s) s Hs)) as Hb'.
      rewrite feed_cons.
      rewrite (nextPulse_complete_v1 w2 (set_state T0 s) (DecodeOOK.gotBit (flip s) s));
        [| reflexivity
         | rewrite v1_decode_T0_short by (assumption || reflexivity);
           rewrite manchester_0 by assumption; simpl flip;
           rewrite gotBit_set_state, v1_code_1 by lia; reflexivity
         | lia ].
      eexists. simpl. rewrite (set_flip_id _ _ Kf). reflexivity.
    + rewrite (feed_step _ w2 _ (set_state T0 s) (DecodeOOK.gotBit (flip s) s));
        [| reflexivity
         | simpl; rewrite v1_decode_T0_short by (assumption || reflexivity);
           rewrite manchester_0 by assumption; simpl flip;
           rewrite gotBit_set_state, v1_code_0 by lia; reflexivity ].
      destruct (IH (DecodeOOK.gotBit (flip s) s)) as [rs Er];
        try assumption; [apply gotBit_wf, Hs | lia | lia | lia |].
      rewrite Er, last_cons_default. eexists. reflexivity.
  - subst prev. simpl length in Hn. rewrite Nat2Z.inj_succ in Hn.
    pose proof (wf_total_bits _ Hs) as Ht. unfold is_byte in Ht.
    pose proof (wf_bits _ Hs) as Hbits.
    assert (Hs' : wf (set_flip (1 - flip s) s)).
    { apply set_flip_wf; [| assumption]. unfold is_bit, is_byte in *. lia. }
    destruct (gotBit_step (1 - flip s) _ Hs' ltac:(simpl; lia)) as (Kst & Kf & Kt & Kn).
    simpl in Kf, Kt, Kn.
    rewrite to_byte_small in Kt by (unfold is_byte; lia).
    assert (Eu : forall l,
               set_flip (List.last l (1 - flip s))
                 (append_bits DecodeOOK.gotBit l
                    (DecodeOOK.gotBit (1 - flip s) (set_flip (1 - flip s) s)))
               = set_flip (List.last l (1 - flip s))
                   (append_bits DecodeOOK.gotBit ((1 - flip s) :: l) s)).
    { intros l. apply eq_upto_flip_last.
      change (append_bits DecodeOOK.gotBit ((1 - flip s) :: l) s)
        with (append_bits DecodeOOK.gotBit l (DecodeOOK.gotBit (1 - flip s) s)).
      apply (append_bits_upto_flip DecodeOOK.gotBit gotBit_upto_flip).
      apply gotBit_upto_flip, eq_upto_flip_set. }
    destruct (Z.eq_dec (total_bits s + 1) 32) as [E32 | N32].
    + assert (El : length bs = 0%nat) by lia.
      destruct bs; [| discriminate El].
      rewrite (manchester_enc_nil _ _ _ _ Henc).
      pose proof (wf_bits _ (gotBit_wf (1 - flip s) _ Hs')) as Hb'.
      rewrite feed_cons.
      rewrite (nextPulse_complete_v1 w s
                 (DecodeOOK.gotBit (1 - flip s) (set_flip (1 - flip s) s)));
        [| unfold isDone; rewrite Hst; reflexivity
         | rewrite v1_decode_OK_long by assumption;
           rewrite manchester_1 by assumption;
           rewrite v1_code_1 by lia; reflexivity
         | lia ].
      eexists. simpl mbind. cbv beta iota. rewrite last_cons_default.
      rewrite <- (Eu []). simpl. rewrite (set_flip_id _ _ Kf). reflexivity.
    + rewrite (feed_step _ w _ s
                 (DecodeOOK.gotBit (1 - flip s) (set_flip (1 - flip s) s)));
        [| unfold isDone; rewrite Hst; reflexivity
         | simpl; rewrite v1_decode_OK_long by assumption;
           rewrite manchester_1 by assumption;
           rewrite v1_code_0 by lia; reflexivity ].
      destruct (IH (DecodeOOK.gotBit (1 - flip s) (set_flip (1 - flip s) s)))
        as [rs Er]; try assumption;
        [apply gotBit_wf, Hs' | apply is_bit_flip, Hb | lia | lia | lia |].
      rewrite Er, last_cons_default, Eu. eexists. reflexivity.
Qed.

Lemma v2_decode_OK_short w s :
  state s = OK -> v2_short w -> OregonDecoder_v2.decode w s = (0, set_state T0 s).
Proof.
  unfold v2_short. intros Hst Hw.
  unfold OregonDecoder_v2.decode, OregonDecoder_v2.decode_switch. rewrite Hst.
  settle_cmp. reflexivity.
Qed.

Lemma v2_decode_T0_short w s :
  state s = T0 -> v2_short w ->
  OregonDecoder_v2.decode w s = (0, manchester OregonDecoder_v2.gotBit 0 s).
Proof.
  unfold v2_short. intros Hst Hw.
  unfold OregonDecoder_v2.decode, OregonDecoder_v2.decode_switch. rewrite Hst.
  settle_cmp. reflexivity.
Qed.

Lemma v2_decode_OK_long w s :
  state s = OK -> v2_long w ->
  OregonDecoder_v2.decode w s = (0, manchester OregonDecoder_v2.gotBit 1 s).
Proof.
  unfold v2_long. intros Hst Hw.
  unfold OregonDecoder_v2.decode, OregonDecoder_v2.decode_switch. rewrite Hst.
  settle_cmp. reflexivity.
Qed.

Lemma v2_gotBit_state v s : state (OregonDecoder_v2.gotBit v s) = OK.
Proof. rewrite v2_gotBit_cases. reflexivity. Qed.

Lemma v2_gotBit_flip v s : flip (OregonDecoder_v2.gotBit v s) = flip s.
Proof. rewrite v2_gotBit_cases. reflexivity. Qed.

(** Round trip through [nextPulse] for the v2.1 classifier: every bit is
    offered to its [gotBit], which then keeps every other one. *)
Lemma v2_nextPulse_roundtrip prev bs ws :
  manchester_enc v2_short v2_long prev bs ws ->
  forall s,
    state s = OK -> flip s = prev -> is_bit prev ->
    feed OregonDecoder_v2.decoder ws s
    = Some (repeat false (length ws),
            set_flip (List.last bs prev) (append_bits OregonDecoder_v2.gotBit bs s)).
Proof.
  induction 1 as [prev | prev bs w1 w2 ws H1 H2 Henc IH | prev bs w ws H1 Henc IH];
    intros s Hst Hf Hb.
  - simpl. rewrite <- Hf, set_flip_same. reflexivity.
  - subst prev.
    rewrite (feed_step _ w1 _ s (set_state T0 s));
      [| unfold isDone; rewrite Hst; reflexivity
       | simpl; rewrite v2_decode_OK_short by assumption; reflexivity ].
    rewrite (feed_step _ w2 _ (set_state T0 s)
               (OregonDecoder_v2.gotBit (flip s) s));
      [| reflexivity
       | simpl; rewrite v2_decode_T0_short by (assumption || reflexivity);
         rewrite manchester_0 by assumption; simpl flip;
         rewrite v2_gotBit_set_state; reflexivity ].
    rewrite IH; try assumption;
      [| apply v2_gotBit_state | apply v2_gotBit_flip].
    rewrite last_cons_default. unfold isDone. rewrite v2_gotBit_state. reflexivity.
  - subst prev.
    rewrite (feed_step _ w _ s
               (OregonDecoder_v2.gotBit (1 - flip s) (set_flip (1 - flip s) s)));
      [| unfold isDone; rewrite Hst; reflexivity
       | simpl; rewrite v2_decode_OK_long by assumption;
         rewrite manchester_1 by assumption; reflexivity ].
    rewrite IH;
      [| apply v2_gotBit_state | apply v2_gotBit_flip | apply is_bit_flip, Hb].
    rewrite last_cons_default. unfold isDone. rewrite v2_gotBit_state.
    cbn [fmap option_fmap option_map].
    change (length (w :: ws)) with (S (length ws)). cbn [repeat State_eqb]. do 2 f_equal.
    change (append_bits OregonDecoder_v2.gotBit ((1 - flip s) :: bs) s)
      with (append_bits OregonDecoder_v2.gotBit bs
              (OregonDecoder_v2.gotBit (1 - flip s) s)).
    apply eq_upto_flip_last.
    apply (append_bits_upto_flip OregonDecoder_v2.gotBit v2_gotBit_upto_flip).
    apply v2_gotBit_upto_flip, eq_upto_flip_set.
Qed.

Lemma v1_synced_reached :
  feed OregonDecoder_v1.decoder v1_sync_pulses fresh
  = Some (repeat false 25, v1_synced).
Proof. vm_compute. reflexivity. Qed.

Lemma v1_synced_wf : wf v1_synced.
Proof. apply gotBit_wf, set_state_wf, fresh_wf. Qed.

Lemma Forall_repeat {A} (P : A -> Prop) (x : A) (n : nat) :
  P x -> Forall P (repeat x n).
Proof. intros H. induction n; simpl; constructor; assumption. Qed.

(** C2, as stated, fails for the sequences that do not fit.  From the
    synchronised v1 classifier (state OK, flip 0, one bit held), 32 more 0
    bits complete the packet at the 31st, the classifier is DONE and the
    last bit is not appended; and 200 bits offered to [decode] alone run
    over the end of the buffer, which resets the classifier. *)
Lemma roundtrip_fails_beyond_capacity :
  state v1_synced = OK /\ flip v1_synced = 0 /\ total_bits v1_synced = 1
  /\ (let bs := repeat 0 32 in
      let ws := encode 1000 3000 0 bs in
      manchester_enc v1_short v1_long 0 bs ws
      /\ exists rs sf,
          feed OregonDecoder_v1.decoder ws v1_synced = Some (rs, sf)
          /\ state sf = DONE /\ total_bits sf = 32
          /\ total_bits (append_bits DecodeOOK.gotBit bs v1_synced) = 33)
  /\ (let bs := repeat 0 200 in
      let ws := encode 1000 3000 0 bs in
      manchester_enc v1_short v1_long 0 bs ws
      /\ exists sf,
          feed_decode OregonDecoder_v1.decoder ws v1_synced = Some sf
          /\ state sf = UNKNOWN /\ total_bits sf = 0
          /\ state (append_bits DecodeOOK.gotBit bs v1_synced) = OK
          /\ total_bits (append_bits DecodeOOK.gotBit bs v1_synced) = 1).
Proof.
  assert (Hs : v1_short 1000) by (unfold v1_short; lia).
  assert (Hl : v1_long 3000) by (unfold v1_long; lia).
  assert (H0 : is_bit 0) by (left; reflexivity).
  split; [reflexivity |]. split; [reflexivity |]. split; [reflexivity |]. split.
  - split.
    + apply encode_sound; try assumption. apply Forall_repeat, H0.
    + eexists _, _. split; [vm_compute; reflexivity |].
      repeat split; vm_compute; reflexivity.
  - split.
    + apply encode_sound; try assumption. apply Forall_repeat, H0.
    + eexists. split; [vm_compute; reflexivity |].
      repeat split; vm_compute; reflexivity.
Qed.

(** C2, amended. Manchester round trip: a classifier in state OK whose
    flip accumulator holds the last emitted bit, fed the pulses that encode
    b1..bn (two short pulses to repeat the previous bit, one long pulse to
    flip it), has exactly b1..bn appended by its [gotBit], in this order,
    with the flip accumulator holding bn at the end, provided the bits
    fit.  Through [nextPulse]: for the v1 classifier, at most 32 bits in
    all, the classifier staying in state OK below 32 and being DONE at 32
    (the packet is complete); for the v2.1 classifier, any number (its
    [gotBit] stores every other bit offered).  Through the v1 [decode]
    alone: fewer than 200 bits in the 25-byte buffer. *)
Theorem manchester_roundtrip :
  (forall prev bs ws s,
      manchester_enc v1_short v1_long prev bs ws ->
      wf s -> state s = OK -> flip s = prev -> is_bit prev -> consistent s ->
      total_bits s + Z.of_nat (length bs) < 32 ->
      feed OregonDecoder_v1.decoder ws s
      = Some (repeat false (length ws),
              set_flip (List.last bs prev) (append_bits DecodeOOK.gotBit bs s)))
  /\ (forall prev bs ws s,
         manchester_enc v1_short v1_long prev bs ws ->
         wf s -> state s = OK -> flip s = prev -> is_bit prev -> consistent s ->
         total_bits s < 32 ->
         total_bits s + Z.of_nat (length bs) = 32 ->
         exists rs,
           feed OregonDecoder_v1.decoder ws s
           = Some (rs, set_state DONE
                         (set_flip (List.last bs prev)
                                   (append_bits DecodeOOK.gotBit bs s))))
  /\ (forall prev bs ws s,
         manchester_enc v1_short v1_long prev bs ws ->
         wf s -> state s = OK -> flip s = prev -> is_bit prev ->
         8 * pos s + bits s + Z.of_nat (length bs) < 200 ->
         feed_decode OregonDecoder_v1.decoder ws s
         = Some (set_flip (List.last bs prev) (append_bits DecodeOOK.gotBit bs s))
         /\ state (append_bits DecodeOOK.gotBit bs s) = OK)
  /\ (forall prev bs ws s,
         manchester_enc v2_short v2_long prev bs ws ->
         state s = OK -> flip s = prev -> is_bit prev ->
         feed OregonDecoder_v2.decoder ws s
         = Some (repeat false (length ws),
                 set_flip (List.last bs prev)
                          (append_bits OregonDecoder_v2.gotBit bs s))
         /\ state (append_bits OregonDecoder_v2.gotBit bs s) = OK).
Proof.
  split; [| split; [| split]].
  - intros prev bs ws s Henc. apply v1_nextPulse_roundtrip, Henc.
  - intros prev bs ws s Henc. apply v1_nextPulse_completes, Henc.
  - intros prev bs ws s Henc Hs Hst Hf Hb Hn. split.
    + apply (v1_decode_roundtrip prev bs ws Henc); assumption.
    + clear Henc Hf Hb ws prev. revert s Hs Hst Hn.
      induction bs as [| b bs IH]; intros s Hs Hst Hn; [exact Hst |].
      simpl length in Hn. rewrite Nat2Z.inj_succ in Hn.
      destruct (gotBit_step b s Hs ltac:(lia)) as (Kst & _ & _ & Kn).
      change (append_bits DecodeOOK.gotBit (b :: bs) s)
        with (append_bits DecodeOOK.gotBit bs (DecodeOOK.gotBit b s)).
      apply IH; [apply gotBit_wf, Hs | exact Kst | lia].
  - intros prev bs ws s Henc Hst Hf Hb. split.
    + apply (v2_nextPulse_roundtrip prev bs ws Henc); assumption.
    + clear Henc Hf Hb ws prev. revert s Hst.
      induction bs as [| b bs IH]; intros s Hst; [exact Hst |].
      change (append_bits OregonDecoder_v2.gotBit (b :: bs) s)
        with (append_bits OregonDecoder_v2.gotBit bs (OregonDecoder_v2.gotBit b s)).
      apply IH, v2_gotBit_state.
Qed.

Lemma manchester_roundtrip_witness :
  feed OregonDecoder_v1.decoder (encode 1000 3000 0 [1; 1; 0]) v1_synced
  = Some (repeat false (length (encode 1000 3000 0 [1; 1; 0])),
          set_flip (List.last [1; 1; 0] 0)
                   (append_bits DecodeOOK.gotBit [1; 1; 0] v1_synced)).
Proof.
  apply (proj1 manchester_roundtrip 0 [1; 1; 0]).
  - apply encode_sound.
    + unfold v1_short. lia.
    + unfold v1_long. lia.
    + left. reflexivity.
    + repeat constructor; unfold is_bit; lia.
  - apply v1_synced_wf.
  - reflexivity.
  - reflexivity.
  - left. reflexivity.
  - reflexivity.
  - vm_compute. reflexivity.
Defined.

(** ** Invariants of the runs *)

Lemma gotBit_consistent v s :
  wf s -> consistent s -> consistent (DecodeOOK.gotBit v s).
Proof.
  unfold consistent. intros Hs Hc.
  pose proof (wf_bits _ Hs) as Hb. pose proof (wf_pos _ Hs) as Hp.
  rewrite gotBit_cases by assumption. unfold sizeof_data in Hp.
  destruct (Z.ltb_spec (bits s) 7); [| destruct (Z.ltb_spec (pos s) 24)]; simpl;
    try reflexivity;
    rewrite to_byte_small by (unfold is_byte; lia); lia.
Qed.

Lemma v1_decode_consistent w s :
  wf s -> consistent s -> consistent (snd (OregonDecoder_v1.decode w s)).
Proof.
  intros Hs Hc. unfold OregonDecoder_v1.decode, OregonDecoder_v1.decode_switch.
  destruct ((900 <=? w) && (w <=? 7000)); [| assumption].
  destruct (state s); simpl;
    repeat match goal with
           | |- context [if ?c then _ else _] => destruct c; simpl
           end;
    try assumption; unfold manchester;
    apply gotBit_consistent; try assumption;
    apply set_flip_wf; try assumption; apply to_byte_range.
Qed.

(** Every state the v1 classifier reaches from its constructed state is
    well formed and consistent. *)
Lemma v1_reachable ws :
  forall s rs s',
    wf s -> consistent s ->
    feed OregonDecoder_v1.decoder ws s = Some (rs, s') ->
    wf s' /\ consistent s'.
Proof.
  induction ws as [| w ws IH]; intros s rs s' Hs Hc H.
  - simpl in H. injection H as <- <-. auto.
  - rewrite feed_cons in H.
    destruct (nextPulse OregonDecoder_v1.decoder w s) as [[r s1] |] eqn:E;
      [| discriminate].
    simpl in H.
    destruct (feed OregonDecoder_v1.decoder ws s1) as [[rs1 s2] |] eqn:E2;
      [| discriminate].
    simpl in H. injection H as <- <-.
    apply (IH s1 rs1 s2); [| | assumption].
    + destruct (nextPulse_total Device_v1 s w) as (r' & s1' & E' & _ & [Hw _]).
      { split; [assumption | discriminate]. }
      simpl in E'. rewrite E in E'. injection E' as <- <-. exact Hw.
    + unfold nextPulse in E. destruct (isDone s).
      { simpl in E. injection E as <- <-. assumption. }
      pose proof (v1_decode_wf w s Hs) as Hw.
      pose proof (v1_decode_consistent w s Hs Hc) as Hc1.
      simpl in E. destruct (OregonDecoder_v1.decode w s) as [c s0].
      simpl in Hw, Hc1.
      destruct (c =? -1); [simpl in E; injection E as <- <-; reflexivity |].
      destruct (c =? 1); [| simpl in E; injection E as <- <-; assumption].
      unfold done in E.
      assert (G : forall fuel x y, wf x -> consistent x ->
                    done_loop OregonDecoder_v1.decoder fuel x = Some y -> consistent y).
      { induction fuel as [| fuel IHf]; intros x y Hx Hcx Hy; simpl in Hy.
        - destruct (bits x =? 0); [injection Hy as <-; assumption | discriminate].
        - destruct (bits x =? 0); [injection Hy as <-; assumption |].
          apply (IHf (DecodeOOK.gotBit 0 x)); auto using gotBit_wf, gotBit_consistent. }
      destruct (done_loop OregonDecoder_v1.decoder 8 s0) as [y |] eqn:Ey;
        [| discriminate].
      simpl in E. injection E as <- <-.
      apply (G 8%nat s0 y Hw Hc1 Ey).
Qed.

(** [loop] returns for every bridge whose devices are in order, and leaves
    them in order. *)
Lemma loop_total b :
  Forall device_ok (devices b) ->
  exists calls b', loop b = Some (calls, b') /\ Forall device_ok (devices b').
Proof.
  intros Hok. unfold loop. destruct (pulse b =? 0); simpl; [eauto |].
  destruct (loop_devices_total (pulse b) (usrCallbackfunc b) (devices b) Hok 0%nat)
    as (calls & ds' & El & Hok').
  rewrite El. simpl. eauto.
Qed.

(** The overriding [gotBit] cannot reach the end of the buffer: its 8-bit
    counter wraps first.  After 256 offered bits the v2.1 classifier is
    back at position 0, in state OK. *)
Lemma v2_gotBit_wraps :
  let s := append_bits OregonDecoder_v2.gotBit (repeat 1 256) fresh in
  state s = OK /\ total_bits s = 0 /\ pos s = 0.
Proof. vm_compute. repeat split; reflexivity. Qed.

(** ** The packing order *)

Lemma rd_wr_same (data : list Z) i v :
  0 <= i -> (Z.to_nat i < length data)%nat -> rd (wr data i v) i = v.
Proof.
  intros Hi Hl. unfold rd, wr. rewrite list_lookup_insert_eq by assumption. reflexivity.
Qed.

Lemma gotBit_data v s :
  wf s -> data (DecodeOOK.gotBit v s) = data (written v s).
Proof.
  intros Hs. rewrite gotBit_cases by (apply Hs).
  destruct (bits s <? 7); [| destruct (pos s <? 24)]; reflexivity.
Qed.

(** As long as the bits go to the same cell, the cell holds them shifted
    in from the top. *)
Lemma append_bits_cell bs :
  forall s,
    wf s -> bits s + Z.of_nat (length bs) <= 8 ->
    rd (data (append_bits DecodeOOK.gotBit bs s)) (pos s)
    = cell_after bs (rd (data s) (pos s)).
Proof.
  induction bs as [| v bs IH]; intros s Hs Hn; [reflexivity |].
  pose proof (wf_bits _ Hs) as Hb. pose proof (wf_pos _ Hs) as Hp.
  pose proof (wf_length _ Hs) as Hl. unfold sizeof_data in Hp.
  simpl length in Hn. rewrite Nat2Z.inj_succ in Hn.
  assert (Hcell : rd (data (DecodeOOK.gotBit v s)) (pos s)
                  = to_byte (Z.lor (Z.shiftr (rd (data s) (pos s)) 1) (Z.shiftl v 7))).
  { rewrite gotBit_data by assumption. unfold written. simpl.
    apply rd_wr_same; lia. }
  change (append_bits DecodeOOK.gotBit (v :: bs) s)
    with (append_bits DecodeOOK.gotBit bs (DecodeOOK.gotBit v s)).
  change (cell_after (v :: bs) (rd (data s) (pos s)))
    with (cell_after bs (to_byte (Z.lor (Z.shiftr (rd (data s) (pos s)) 1)
                                        (Z.shiftl v 7)))).
  destruct bs as [| v' bs'].
  - exact Hcell.
  - simpl length in Hn. rewrite Nat2Z.inj_succ in Hn.
    assert (Hpos : pos (DecodeOOK.gotBit v s) = pos s /\
                   bits (DecodeOOK.gotBit v s) = bits s + 1).
    { rewrite gotBit_cases by assumption.
      destruct (Z.ltb_spec (bits s) 7); [split; reflexivity | lia]. }
    destruct Hpos as [Hpos Hbits].
    rewrite <- Hcell, <- Hpos. apply IH; [apply gotBit_wf, Hs |].
    rewrite Hbits. simpl length. rewrite Nat2Z.inj_succ. lia.
Qed.

Lemma cell_after_byte c b :
  is_byte c -> is_byte b -> cell_after (bits_of_byte b) c = b.
Proof.
  intros Hc Hb. apply Z.eqb_eq.
  apply (forall_bytes (fun b => cell_after (bits_of_byte b) c =? b)); [| exact Hb].
  apply forallb_forall. intros x Hx.
  apply (forall_bytes
           (fun c => forallb (fun b => cell_after (bits_of_byte b) c =? b)
                             (map Z.of_nat (seq 0 256)))) in Hc.
  - rewrite forallb_forall in Hc. apply Hc, Hx.
  - vm_compute. reflexivity.
Qed.

(** The eight bits of a byte, appended least significant bit first on a
    cell boundary, leave that byte in the cell. *)
Lemma append_byte_stored b s :
  wf s -> bits s = 0 -> is_byte b ->
  rd (data (append_bits DecodeOOK.gotBit (bits_of_byte b) s)) (pos s) = b.
Proof.
  intros Hs H0 Hb. rewrite append_bits_cell; [| assumption | rewrite H0; simpl; lia].
  apply cell_after_byte; [| assumption].
  apply rd_bytes, (wf_data _ Hs).
Qed.

(** ** Worked examples: from the pulses to the callback *)

(** The v1 packet 44 53 02 99 sent as pulses reaches the callback, once,
    from the v1 device; the buffer handed over starts with the packet. *)
Example v1_end_to_end :
  fst <$> run_pulses (v1_waveform [0x44; 0x53; 0x02; 0x99]) (bridge 0)
  = Some [mkCall 0 Device_v1 ([0x44; 0x53; 0x02; 0x99] ++ repeat 0 21)].
Proof. vm_compute. reflexivity. Qed.

(** With a wrong checksum byte the packet is dropped without a call. *)
Example v1_end_to_end_bad_checksum :
  fst <$> run_pulses (v1_waveform [0x44; 0x53; 0x02; 0x98]) (bridge 0) = Some [].
Proof. vm_compute. reflexivity. Qed.

(** The v2.1 packet 1A 2D 20 8B 58 21 40 C7 4C 8C sent as pulses reaches
    the callback, once, from the v2.1 device. *)
Example v2_end_to_end :
  fst <$> run_pulses (v2_waveform packet_v2) (bridge 0)
  = Some [mkCall 1 Device_v2 (packet_v2 ++ repeat 0 15)].
Proof. vm_compute. reflexivity. Qed.

(** A reset does not clear the buffer: the 9-byte packet received after
    the 10-byte one is handed over followed by the last byte of the first. *)
Example v2_end_to_end_twice :
  fst <$> run_pulses (v2_waveform packet_v2 ++ v2_waveform packet_v2_code4) (bridge 0)
  = Some [mkCall 1 Device_v2 (packet_v2 ++ repeat 0 15);
          mkCall 1 Device_v2 (packet_v2_code4 ++ [0x8C] ++ repeat 0 15)].
Proof. vm_compute. reflexivity. Qed.

(** * Further properties *)

(** ** Loops over the cells *)

Lemma rd_wr_other (data : list Z) i j v :
  0 <= i -> 0 <= j -> i <> j -> rd (wr data i v) j = rd data j.
Proof.
  intros Hi Hj N. unfold rd, wr. rewrite list_lookup_insert_ne by lia. reflexivity.
Qed.

Lemma rd_outside (data : list Z) i :
  (length data <= Z.to_nat i)%nat -> rd data i = 0.
Proof. intros H. unfold rd. rewrite lookup_ge_None_2 by assumption. reflexivity. Qed.

(** Two buffers of the same length with the same cells are equal. *)
Lemma cells_ext (d d' : list Z) :
  length d = length d' -> (forall i, 0 <= i -> rd d i = rd d' i) -> d = d'.
Proof.
  intros Hl H. apply list_eq. intros n.
  destruct (Nat.lt_ge_cases n (length d)) as [Hn | Hn].
  - specialize (H (Z.of_nat n) ltac:(lia)). unfold rd in H. rewrite Nat2Z.id in H.
    destruct (lookup_lt_is_Some_2 d n Hn) as [x Hx].
    destruct (lookup_lt_is_Some_2 d' n ltac:(lia)) as [y Hy].
    rewrite Hx, Hy in *. simpl in H. congruence.
  - rewrite !lookup_ge_None_2 by lia. reflexivity.
Qed.

Lemma for_cells_succ n body data :
  0 <= n ->
  for_cells (n + 1) body data = body n (for_cells n body data).
Proof.
  intros Hn. unfold for_cells.
  replace (Z.to_nat (n + 1)) with (S (Z.to_nat n)) by lia.
  rewrite seq_S, fold_left_app. simpl. rewrite Z2Nat.id by lia. reflexivity.
Qed.

Lemma for_cells_0 body data : for_cells 0 body data = data.
Proof. reflexivity. Qed.

(** A loop that stores in cell [i] a value computed from the cells at and
    above [i]: every cell below the bound receives the value computed from
    the buffer as it was at the start, and the others are unchanged. *)
Lemma for_cells_upward (g : Z -> list Z -> Z) (data : list Z) :
  (forall i d d', 0 <= i -> (forall j, i <= j -> rd d j = rd d' j) -> g i d = g i d') ->
  forall n,
    0 <= n -> (Z.to_nat n <= length data)%nat ->
    let data' := for_cells n (fun i d => wr d i (g i d)) data in
    length data' = length data
    /\ (forall i, 0 <= i < n -> rd data' i = g i data)
    /\ (forall i, n <= i -> rd data' i = rd data i).
Proof.
  intros Hg n Hn. pattern n. apply natlike_ind; [| | exact Hn].
  - intros _. simpl. rewrite for_cells_0. repeat split; intros; lia || reflexivity.
  - intros m Hm IH Hl. specialize (IH ltac:(lia)). simpl in IH.
    destruct IH as (IHl & IHlow & IHhigh).
    change (Z.succ m) with (m + 1). simpl. rewrite for_cells_succ by lia.
    set (dm := for_cells m (fun i d => wr d i (g i d)) data) in *.
    split; [rewrite wr_length; exact IHl |]. split.
    + intros i Hi. destruct (Z.eq_dec i m) as [-> | N].
      * rewrite rd_wr_same by lia. apply Hg; [lia |]. intros j Hj. apply IHhigh, Hj.
      * rewrite rd_wr_other by lia. apply IHlow. lia.
    + intros i Hi. rewrite rd_wr_other by lia. apply IHhigh. lia.
Qed.

(** ** Bit and nibble reversal *)

Lemma set_data_same s : set_data (data s) s = s.
Proof. destruct s; reflexivity. Qed.

Lemma reverse_cell_byte c : is_byte c -> is_byte (reverse_cell c).
Proof.
  intros Hc.
  assert (H : ((0 <=? reverse_cell c) && (reverse_cell c <? 256)) = true).
  { apply (forall_bytes (fun c => (0 <=? reverse_cell c) && (reverse_cell c <? 256)));
      [vm_compute; reflexivity | exact Hc]. }
  apply andb_true_iff in H. destruct H as [H1 H2]. unfold is_byte. lia.
Qed.

Lemma reverse_cell_testbit c j :
  is_byte c -> 0 <= j < 8 ->
  Z.testbit (reverse_cell c) j = Z.testbit c (7 - j).
Proof.
  intros Hc Hj.
  assert (H : forallb (fun j => Bool.eqb (Z.testbit (reverse_cell c) j)
                                         (Z.testbit c (7 - j)))
                      [0; 1; 2; 3; 4; 5; 6; 7] = true).
  { apply (forall_bytes
             (fun c => forallb (fun j => Bool.eqb (Z.testbit (reverse_cell c) j)
                                                  (Z.testbit c (7 - j)))
                               [0; 1; 2; 3; 4; 5; 6; 7]));
      [vm_compute; reflexivity | exact Hc]. }
  rewrite forallb_forall in H. apply Bool.eqb_prop, H.
  assert (E : 0 = j \/ 1 = j \/ 2 = j \/ 3 = j \/ 4 = j \/ 5 = j \/ 6 = j \/ 7 = j) by lia.
  simpl. tauto.
Qed.

Lemma reverse_cell_involutive c : is_byte c -> reverse_cell (reverse_cell c) = c.
Proof.
  intros Hc. apply Z.eqb_eq.
  apply (forall_bytes (fun c => reverse_cell (reverse_cell c) =? c));
    [vm_compute; reflexivity | exact Hc].
Qed.

Lemma swap_nibbles_value c :
  is_byte c -> swap_nibbles c = (c mod 16) * 16 + c / 16.
Proof.
  intros Hc. apply Z.eqb_eq.
  apply (forall_bytes (fun c => swap_nibbles c =? (c mod 16) * 16 + c / 16));
    [vm_compute; reflexivity | exact Hc].
Qed.

Lemma swap_nibbles_byte c : is_byte (swap_nibbles c).
Proof. apply to_byte_range. Qed.

Lemma swap_nibbles_involutive c : is_byte c -> swap_nibbles (swap_nibbles c) = c.
Proof.
  intros Hc. apply Z.eqb_eq.
  apply (forall_bytes (fun c => swap_nibbles (swap_nibbles c) =? c));
    [vm_compute; reflexivity | exact Hc].
Qed.

Lemma swap_reverse_commute c :
  is_byte c -> swap_nibbles (reverse_cell c) = reverse_cell (swap_nibbles c).
Proof.
  intros Hc. apply Z.eqb_eq.
  apply (forall_bytes (fun c => swap_nibbles (reverse_cell c) =? reverse_cell (swap_nibbles c)));
    [vm_compute; reflexivity | exact Hc].
Qed.

(** A loop that rewrites every cell below [pos] from its own content. *)
Lemma map_cells (f : Z -> Z) (s : t) :
  wf s ->
  let data' := for_cells (pos s) (fun i d => wr d i (f (rd d i))) (data s) in
  length data' = length (data s)
  /\ (forall i, 0 <= i < pos s -> rd data' i = f (rd (data s) i))
  /\ (forall i, pos s <= i -> rd data' i = rd (data s) i).
Proof.
  intros Hs. pose proof (wf_pos _ Hs) as Hp. pose proof (wf_length _ Hs) as Hl.
  unfold sizeof_data in Hp.
  apply (for_cells_upward (fun i d => f (rd d i))); [| lia | lia].
  intros i d d' Hi H. rewrite (H i) by lia. reflexivity.
Qed.

Lemma map_cells_wf (f : Z -> Z) (s : t) :
  (forall c, is_byte c -> is_byte (f c)) ->
  wf s ->
  wf (set_data (for_cells (pos s) (fun i d => wr d i (f (rd d i))) (data s)) s).
Proof.
  intros Hf Hs. destruct (map_cells f s Hs) as (Hl & Hlow & Hhigh).
  set (d' := for_cells (pos s) (fun i d => wr d i (f (rd d i))) (data s)) in *.
  destruct Hs as [Ht Hb Hfl Hp Hlen Hd].
  constructor; try assumption; [simpl; congruence |].
  change (bytes d'). apply Forall_lookup_2. intros n x Hx.
  assert (E : x = rd d' (Z.of_nat n)).
  { unfold rd. rewrite Nat2Z.id, Hx. reflexivity. }
  rewrite E. destruct (Z.lt_ge_cases (Z.of_nat n) (pos s)).
  - rewrite Hlow by lia. apply Hf, rd_bytes, Hd.
  - rewrite Hhigh by lia. apply rd_bytes, Hd.
Qed.

Lemma map_cells_compose (f g : Z -> Z) (s : t) :
  wf s -> (forall c, is_byte c -> is_byte (f c)) ->
  let s1 := set_data (for_cells (pos s) (fun i d => wr d i (f (rd d i))) (data s)) s in
  forall d2,
    d2 = for_cells (pos s1) (fun i d => wr d i (g (rd d i))) (data s1) ->
    length d2 = length (data s)
    /\ (forall i, 0 <= i < pos s -> rd d2 i = g (f (rd (data s) i)))
    /\ (forall i, pos s <= i -> rd d2 i = rd (data s) i).
Proof.
  intros Hs Hf s1 d2 ->.
  destruct (map_cells f s Hs) as (Hl & Hlow & Hhigh).
  destruct (map_cells g s1 (map_cells_wf f s Hf Hs)) as (Hl2 & Hlow2 & Hhigh2).
  simpl in *. split; [congruence |]. split.
  - intros i Hi. rewrite Hlow2, Hlow by assumption. reflexivity.
  - intros i Hi. rewrite Hhigh2, Hhigh by assumption. reflexivity.
Qed.

(** X1. [reverseBits] reverses the order of the bits of every byte of the
    packet (the cells below [pos]), leaves the rest of the buffer and the
    counters alone, and undoes itself. *)
Theorem reverseBits_spec :
  forall s : t,
    wf s ->
    let s' := reverseBits s in
    (forall i j, 0 <= i < pos s -> 0 <= j < 8 ->
                 Z.testbit (rd (data s') i) j = Z.testbit (rd (data s) i) (7 - j))
    /\ (forall i, pos s <= i -> rd (data s') i = rd (data s) i)
    /\ wf s'
    /\ reverseBits s' = s.
Proof.
  intros s Hs s'. subst s'. unfold reverseBits.
  destruct (map_cells reverse_cell s Hs) as (Hl & Hlow & Hhigh).
  split; [| split; [| split]].
  - intros i j Hi Hj. simpl. rewrite Hlow by assumption.
    apply reverse_cell_testbit; [apply rd_bytes, (wf_data _ Hs) | assumption].
  - intros i Hi. simpl. apply Hhigh, Hi.
  - apply map_cells_wf; [apply reverse_cell_byte | assumption].
  - destruct (map_cells_compose reverse_cell reverse_cell s Hs reverse_cell_byte _ eq_refl)
      as (Hl2 & Hlow2 & Hhigh2).
    simpl in *.
    match goal with
    | |- set_data ?d _ = _ => replace d with (data s)
    end.
    + destruct s; reflexivity.
    + symmetry. apply cells_ext; [assumption |]. intros i Hi.
      destruct (Z.lt_ge_cases i (pos s)).
      * rewrite Hlow2 by lia. apply reverse_cell_involutive, rd_bytes, (wf_data _ Hs).
      * apply Hhigh2. lia.
Qed.

Lemma partial_packet_wf : wf partial_packet.
Proof. apply append_bits_wf, fresh_wf. Qed.

Lemma reverseBits_spec_witness :
  reverseBits (reverseBits partial_packet) = partial_packet.
Proof. apply (reverseBits_spec partial_packet partial_packet_wf). Defined.

(** X2. [reverseNibbles] exchanges the two nibbles of every byte of the packet,
    leaves the rest of the buffer alone, undoes itself, and commutes with
    [reverseBits]. *)
Theorem reverseNibbles_spec :
  forall s : t,
    wf s ->
    let s' := reverseNibbles s in
    (forall i, 0 <= i < pos s ->
               rd (data s') i = (rd (data s) i mod 16) * 16 + rd (data s) i / 16)
    /\ (forall i, pos s <= i -> rd (data s') i = rd (data s) i)
    /\ wf s'
    /\ reverseNibbles s' = s
    /\ reverseNibbles (reverseBits s) = reverseBits (reverseNibbles s).
Proof.
  intros s Hs s'. subst s'. unfold reverseNibbles.
  destruct (map_cells swap_nibbles s Hs) as (Hl & Hlow & Hhigh).
  split; [| split; [| split; [| split]]].
  - intros i Hi. simpl. rewrite Hlow by assumption.
    apply swap_nibbles_value, rd_bytes, (wf_data _ Hs).
  - intros i Hi. simpl. apply Hhigh, Hi.
  - apply map_cells_wf; [intros c _; apply swap_nibbles_byte | assumption].
  - destruct (map_cells_compose swap_nibbles swap_nibbles s Hs
                (fun c _ => swap_nibbles_byte c) _ eq_refl) as (Hl2 & Hlow2 & Hhigh2).
    simpl in *.
    match goal with
    | |- set_data ?d _ = _ => replace d with (data s)
    end.
    + destruct s; reflexivity.
    + symmetry. apply cells_ext; [assumption |]. intros i Hi.
      destruct (Z.lt_ge_cases i (pos s)).
      * rewrite Hlow2 by lia. apply swap_nibbles_involutive, rd_bytes, (wf_data _ Hs).
      * apply Hhigh2. lia.
  - unfold reverseBits.
    destruct (map_cells_compose reverse_cell swap_nibbles s Hs reverse_cell_byte _ eq_refl)
      as (La & Lowa & Higha).
    destruct (map_cells_compose swap_nibbles reverse_cell s Hs
                (fun c _ => swap_nibbles_byte c) _ eq_refl) as (Lb & Lowb & Highb).
    simpl in *. unfold set_data. simpl. f_equal.
    apply cells_ext; [congruence |]. intros i Hi.
    destruct (Z.lt_ge_cases i (pos s)).
    + rewrite Lowa, Lowb by lia. apply swap_reverse_commute, rd_bytes, (wf_data _ Hs).
    + rewrite Higha, Highb by lia. reflexivity.
Qed.

Lemma reverseNibbles_spec_witness :
  reverseNibbles (reverseNibbles partial_packet) = partial_packet.
Proof. apply (reverseNibbles_spec partial_packet partial_packet_wf). Defined.

(** ** Alignment of the tail *)

Lemma le_value_range (data : list Z) :
  forall cnt k,
    (k + cnt <= length data)%nat ->
    le_value (take cnt (drop k data)) = range_value data (Z.of_nat k) cnt.
Proof.
  induction cnt as [| cnt IH]; intros k Hk; [reflexivity |].
  destruct (lookup_lt_is_Some_2 data k ltac:(lia)) as [x Hx].
  rewrite (drop_S _ _ _ Hx). simpl.
  rewrite IH by lia. unfold rd. rewrite Nat2Z.id, Hx. simpl.
  replace (Z.of_nat k + 1) with (Z.of_nat (S k)) by lia. reflexivity.
Qed.

Lemma le_value_take (data : list Z) n :
  0 <= n -> (Z.to_nat n <= length data)%nat ->
  le_value (take (Z.to_nat n) data) = range_value data 0 (Z.to_nat n).
Proof. intros Hn Hl. apply (le_value_range data (Z.to_nat n) 0%nat). lia. Qed.

Lemma range_value_ext (d d' : list Z) :
  forall cnt k,
    (forall i, k <= i < k + Z.of_nat cnt -> rd d i = rd d' i) ->
    range_value d k cnt = range_value d' k cnt.
Proof.
  induction cnt as [| cnt IH]; intros k H; [reflexivity |].
  simpl. rewrite (H k) by lia. rewrite (IH (k + 1)); [reflexivity |].
  intros i Hi. apply H. lia.
Qed.

Lemma range_value_nonneg (d : list Z) :
  bytes d -> forall cnt k, 0 <= range_value d k cnt.
Proof.
  intros Hb. induction cnt as [| cnt IH]; intros k; simpl; [lia |].
  pose proof (rd_bytes d k Hb) as H. unfold is_byte in H.
  specialize (IH (k + 1)). lia.
Qed.

(** One cell of the shifting loop of [alignTail]. *)
Lemma shift_cell_value c h b :
  is_byte c -> is_byte h -> 1 <= b <= 7 ->
  to_byte (Z.lor (Z.shiftr c b) (Z.shiftl h (8 - b)))
  = c / 2 ^ b + (h mod 2 ^ b) * 2 ^ (8 - b).
Proof.
  intros Hc Hh Hb. apply Z.eqb_eq.
  set (P := fun b c h =>
              to_byte (Z.lor (Z.shiftr c b) (Z.shiftl h (8 - b)))
              =? c / 2 ^ b + (h mod 2 ^ b) * 2 ^ (8 - b)).
  change (P b c h = true).
  assert (A : forall b0, In b0 [1; 2; 3; 4; 5; 6; 7] ->
                forallb (fun c => forallb (P b0 c) (map Z.of_nat (seq 0 256)))
                        (map Z.of_nat (seq 0 256)) = true).
  { apply forallb_forall. vm_compute. reflexivity. }
  assert (Hin : In b [1; 2; 3; 4; 5; 6; 7]).
  { assert (E : 1 = b \/ 2 = b \/ 3 = b \/ 4 = b \/ 5 = b \/ 6 = b \/ 7 = b) by lia.
    simpl. tauto. }
  specialize (A b Hin).
  pose proof (forall_bytes _ A c Hc) as A1. simpl in A1.
  apply (forall_bytes _ A1 h Hh).
Qed.

Lemma tail_value c b :
  is_byte c -> 1 <= b <= 7 ->
  to_byte (Z.shiftr c (8 - b)) = c / 2 ^ (8 - b) /\ 0 <= c / 2 ^ (8 - b) < 2 ^ b.
Proof.
  intros Hc Hb. unfold is_byte in Hc.
  rewrite Z.shiftr_div_pow2 by lia.
  assert (H2 : 0 < 2 ^ (8 - b)) by (apply Z.pow_pos_nonneg; lia).
  assert (H : 0 <= c / 2 ^ (8 - b) < 2 ^ b).
  { split; [apply Z.div_pos; lia |].
    apply Z.div_lt_upper_bound; [lia |].
    rewrite <- Z.pow_add_r by lia. replace (8 - b + b) with 8 by lia. lia. }
  split; [| exact H]. apply to_byte_small. unfold is_byte.
  assert (2 ^ b <= 2 ^ 7) by (apply Z.pow_le_mono_r; lia). lia.
Qed.

(** The arithmetic of one step: dividing by [2 ^ b] a number whose lowest
    cell is [c] and whose rest is [T]. *)
Lemma shift_step_value c T h b :
  is_byte c -> 0 <= T -> 1 <= b <= 7 -> T mod 2 ^ b = h mod 2 ^ b ->
  c / 2 ^ b + (h mod 2 ^ b) * 2 ^ (8 - b) + 256 * (T / 2 ^ b)
  = (c + 256 * T) / 2 ^ b.
Proof.
  intros Hc HT Hb E. unfold is_byte in Hc. rewrite <- E.
  assert (H : b = 1 \/ b = 2 \/ b = 3 \/ b = 4 \/ b = 5 \/ b = 6 \/ b = 7) by lia.
  destruct H as [-> | [-> | [-> | [-> | [-> | [-> | ->]]]]]];
    cbn [Z.pow Z.pow_pos Pos.iter Z.mul Pos.mul Z.sub Z.add Z.opp Z.pos_sub
         Z.succ_double Z.pred_double Z.double Pos.pred_double];
    Z.div_mod_to_equations; lia.
Qed.

(** The cells after the first stage of [alignTail]. *)
Lemma alignTail_cells s :
  wf s -> bits s <> 0 ->
  let b := bits s in
  let p := pos s in
  let tail := rd (data s) p / 2 ^ (8 - b) in
  let s' := alignTail 0 s in
  bits s' = 0 /\ pos s' = p /\ total_bits s' = total_bits s
  /\ flip s' = flip s /\ state s' = state s
  /\ length (data s') = length (data s)
  /\ (forall i, 0 <= i < p ->
        rd (data s') i
        = rd (data s) i / 2 ^ b
          + ((if i + 1 =? p then tail else rd (data s) (i + 1)) mod 2 ^ b) * 2 ^ (8 - b))
  /\ rd (data s') p = tail
  /\ (forall i, p < i -> rd (data s') i = rd (data s) i).
Proof.
  intros Hs Hb0 b p tail s'.
  pose proof (wf_bits _ Hs) as Hb. pose proof (wf_pos _ Hs) as Hp.
  pose proof (wf_length _ Hs) as Hl. pose proof (wf_data _ Hs) as Hd.
  unfold sizeof_data in Hp. fold b p in Hb, Hp.
  assert (Hb' : 1 <= b <= 7) by (unfold b in *; lia).
  destruct (tail_value (rd (data s) p) b (rd_bytes _ _ Hd) Hb') as [Et Ht].
  fold tail in Et, Ht.
  subst s'. unfold alignTail.
  destruct (Z.eqb_spec (bits s) 0) as [E | _]; [contradiction |].
  cbn [negb]. fold b p. rewrite Et.
  set (d0 := wr (data s) p tail).
  set (g := fun i d => to_byte (Z.lor (Z.shiftr (rd d i) b) (Z.shiftl (rd d (i + 1)) (8 - b)))).
  destruct (for_cells_upward g d0) with (n := p) as (L1 & Low1 & High1).
  { intros i d d' Hi H. unfold g. rewrite (H i), (H (i + 1)) by lia. reflexivity. }
  { lia. }
  { unfold d0. rewrite wr_length. lia. }
  simpl in L1, Low1, High1. fold g.
  set (d1 := for_cells p (fun i d => wr d i (g i d)) d0) in *.
  cbn [bits pos set_bits set_data total_bits flip state data andb Z.ltb].
  change (0 <? 0) with false. cbn [andb].
  cbn [bits pos set_bits set_data total_bits flip state data].
  assert (Btail : is_byte tail).
  { unfold is_byte. assert (2 ^ b <= 2 ^ 7) by (apply Z.pow_le_mono_r; lia). lia. }
  repeat (split; [reflexivity |]).
  change (for_cells p
            (fun i d => wr d i (to_byte (Z.lor (Z.shiftr (rd d i) b)
                                               (Z.shiftl (rd d (i + 1)) (8 - b)))))
            d0) with d1.
  split; [rewrite L1; unfold d0; apply wr_length |].
  split; [| split].
  - intros i Hi. rewrite Low1 by lia. unfold g.
    assert (E0 : rd d0 i = rd (data s) i) by (unfold d0; apply rd_wr_other; lia).
    assert (E1 : rd d0 (i + 1) = if i + 1 =? p then tail else rd (data s) (i + 1)).
    { unfold d0. destruct (Z.eqb_spec (i + 1) p) as [-> | N].
      - apply rd_wr_same; lia.
      - apply rd_wr_other; lia. }
    rewrite E0, E1. apply shift_cell_value; [apply rd_bytes, Hd | | assumption].
    destruct (i + 1 =? p); [assumption | apply rd_bytes, Hd].
  - rewrite High1 by lia. unfold d0. apply rd_wr_same; lia.
  - intros i Hi. rewrite High1 by lia. unfold d0. apply rd_wr_other; lia.
Qed.

Lemma pow256_mod b X h :
  1 <= b <= 7 -> (h + 256 * X) mod 2 ^ b = h mod 2 ^ b.
Proof.
  intros Hb.
  replace (h + 256 * X) with (h + (X * 2 ^ (8 - b)) * 2 ^ b).
  - apply Z.mod_add. apply Z.pow_nonzero; lia.
  - rewrite <- Z.mul_assoc, <- Z.pow_add_r by lia.
    replace (8 - b + b) with 8 by lia. change (2 ^ 8) with 256. ring.
Qed.

Lemma alignTail_value s :
  wf s -> bits s <> 0 ->
  le_value (take (Z.to_nat (pos s)) (data (alignTail 0 s)))
  = (le_value (take (Z.to_nat (pos s)) (data s))
     + 256 ^ pos s * (rd (data s) (pos s) / 2 ^ (8 - bits s)))
    / 2 ^ bits s.
Proof.
  intros Hs Hb0.
  destruct (alignTail_cells s Hs Hb0) as (E1 & E2 & _ & _ & _ & L & Low & Etail & _).
  pose proof (wf_bits _ Hs) as Hb. pose proof (wf_pos _ Hs) as Hp.
  pose proof (wf_length _ Hs) as Hl. pose proof (wf_data _ Hs) as Hd.
  unfold sizeof_data in Hp.
  assert (Hb' : 1 <= bits s <= 7) by lia.
  destruct (tail_value (rd (data s) (pos s)) (bits s) (rd_bytes _ _ Hd) Hb') as [_ Ht].
  set (tail := rd (data s) (pos s) / 2 ^ (8 - bits s)) in *.
  rewrite !le_value_take by lia.
  replace (256 ^ pos s) with (256 ^ Z.of_nat (Z.to_nat (pos s)))
    by (rewrite Z2Nat.id by lia; reflexivity).
  assert (G : forall cnt k,
             0 <= k -> k + Z.of_nat cnt = pos s ->
             range_value (data (alignTail 0 s)) k cnt
             = (range_value (data s) k cnt + 256 ^ Z.of_nat cnt * tail) / 2 ^ bits s).
  { induction cnt as [| cnt IH]; intros k Hk Hkc.
    - simpl. rewrite Z.div_small; lia.
    - cbn [range_value]. rewrite (IH (k + 1)) by lia.
      rewrite Low by lia.
      set (T := range_value (data s) (k + 1) cnt + 256 ^ Z.of_nat cnt * tail).
      assert (HT : 0 <= T).
      { unfold T. pose proof (range_value_nonneg _ Hd cnt (k + 1)).
        assert (0 <= 256 ^ Z.of_nat cnt) by (apply Z.pow_nonneg; lia). nia. }
      rewrite shift_step_value with (T := T); try assumption.
      + f_equal. unfold T. rewrite Nat2Z.inj_succ, Z.pow_succ_r by lia. ring.
      + apply rd_bytes, Hd.
      + unfold T. destruct cnt as [| cnt'].
        * destruct (Z.eqb_spec (k + 1) (pos s)); [| lia].
          simpl. f_equal. lia.
        * destruct (Z.eqb_spec (k + 1) (pos s)); [lia |].
          cbn [range_value].
          rewrite Nat2Z.inj_succ, Z.pow_succ_r by lia.
          replace (rd (data s) (k + 1) + 256 * range_value (data s) (k + 1 + 1) cnt'
                   + 256 * 256 ^ Z.of_nat cnt' * tail)
            with (rd (data s) (k + 1)
                  + 256 * (range_value (data s) (k + 1 + 1) cnt'
                           + 256 ^ Z.of_nat cnt' * tail)) by ring.
          apply pow256_mod. assumption. }
  apply G; lia.
Qed.

(** X3. [alignTail] on a decoder holding a partial byte.  The buffer holds the
    bits received as a number (the complete bytes, then the pending bits
    of the current cell); afterwards the complete bytes hold that number
    divided by [2 ^ bits]: the oldest [bits] bits are dropped, the others
    move down, and no bit is pending any more.  With no pending bit,
    [alignTail] leaves the decoder as it is. *)
Theorem alignTail_drops_oldest_bits :
  forall s : t,
    wf s ->
    (bits s = 0 -> alignTail 0 s = s)
    /\ (bits s <> 0 ->
        let s' := alignTail 0 s in
        let n := Z.to_nat (pos s) in
        bits s' = 0 /\ pos s' = pos s
        /\ le_value (take n (data s'))
           = (le_value (take n (data s))
              + 256 ^ pos s * (rd (data s) (pos s) / 2 ^ (8 - bits s)))
             / 2 ^ bits s).
Proof.
  intros s Hs. split.
  - intros E. unfold alignTail. rewrite E. reflexivity.
  - intros Hb0 s' n.
    destruct (alignTail_cells s Hs Hb0) as (E1 & E2 & _).
    split; [exact E1 |]. split; [exact E2 |].
    apply alignTail_value; assumption.
Qed.

Lemma alignTail_drops_oldest_bits_witness :
  let s' := alignTail 0 partial_packet in
  let n := Z.to_nat (pos partial_packet) in
  bits s' = 0 /\ pos s' = pos partial_packet
  /\ le_value (take n (data s'))
     = (le_value (take n (data partial_packet))
        + 256 ^ pos partial_packet
          * (rd (data partial_packet) (pos partial_packet)
             / 2 ^ (8 - bits partial_packet)))
       / 2 ^ bits partial_packet.
Proof.
  apply (proj2 (alignTail_drops_oldest_bits partial_packet partial_packet_wf)).
  vm_compute. discriminate.
Defined.

Lemma alignTail_stages max s :
  alignTail max s =
    let a := alignTail 0 s in
    if (0 <? max) && (max <? pos a) then
      set_data (for_cells max (fun i d => wr d i (rd d (i + to_byte (pos a - max))))
                          (data a))
               (set_pos max a)
    else a.
Proof.
  unfold alignTail. change (0 <? 0) with false. cbn [andb].
  destruct (negb (bits s =? 0)); reflexivity.
Qed.

Lemma alignTail_0_facts s :
  wf s ->
  pos (alignTail 0 s) = pos s /\ bits (alignTail 0 s) = 0
  /\ length (data (alignTail 0 s)) = length (data s).
Proof.
  intros Hs. destruct (Z.eq_dec (bits s) 0) as [E | N].
  - unfold alignTail. rewrite E. simpl. auto.
  - destruct (alignTail_cells s Hs N) as (E1 & E2 & _ & _ & _ & L & _). auto.
Qed.

(** X4. [alignTail] with a cap on a decoder holding more than [max] bytes:
    once the bits are aligned, the last [max] bytes are moved to the front
    of the buffer and the position becomes [max]; the older bytes are
    dropped.  With no cap, or with no more than [max] bytes, nothing is
    dropped. *)
Theorem alignTail_keeps_last_bytes :
  forall (s : t) (max : Z),
    wf s ->
    let a := alignTail 0 s in
    let s' := alignTail max s in
    (max <= 0 \/ pos s <= max -> s' = a)
    /\ (0 < max < pos s ->
        pos s' = max /\ bits s' = 0
        /\ (forall i, 0 <= i < max ->
                      rd (data s') i = rd (data a) (i + (pos s - max)))
        /\ (forall i, max <= i -> rd (data s') i = rd (data a) i)).
Proof.
  intros s max Hs a s'.
  destruct (alignTail_0_facts s Hs) as (Ep & Eb & El).
  pose proof (wf_pos _ Hs) as Hp. pose proof (wf_length _ Hs) as Hl.
  unfold sizeof_data in Hp. fold a in Ep, Eb, El.
  unfold s'. rewrite alignTail_stages. fold a. cbv zeta. rewrite Ep. split.
  - intros H.
    destruct (Z.ltb_spec 0 max); destruct (Z.ltb_spec max (pos s)); simpl;
      reflexivity || lia.
  - intros H.
    destruct (Z.ltb_spec 0 max); [| lia]. destruct (Z.ltb_spec max (pos s)); [| lia].
    cbn [andb]. rewrite to_byte_small by (unfold is_byte; lia).
    destruct (for_cells_upward (fun i d => rd d (i + (pos s - max))) (data a))
      with (n := max) as (L1 & Low1 & High1).
    { intros i d d' Hi Hd. apply Hd. lia. }
    { lia. }
    { lia. }
    simpl in L1, Low1, High1.
    split; [reflexivity |]. split; [exact Eb |]. split.
    + intros i Hi. apply Low1, Hi.
    + intros i Hi. apply High1, Hi.
Qed.

Lemma alignTail_keeps_last_bytes_witness :
  pos (alignTail 2 partial_packet) = 2 /\ bits (alignTail 2 partial_packet) = 0
  /\ (forall i, 0 <= i < 2 ->
                rd (data (alignTail 2 partial_packet)) i
                = rd (data (alignTail 0 partial_packet)) (i + (pos partial_packet - 2)))
  /\ (forall i, 2 <= i ->
                rd (data (alignTail 2 partial_packet)) i
                = rd (data (alignTail 0 partial_packet)) i).
Proof.
  apply (proj2 (alignTail_keeps_last_bytes partial_packet 2 partial_packet_wf)).
  vm_compute. split; reflexivity.
Defined.

(** ** The packing order of the bit accumulator *)

Lemma range_value_snoc (d : list Z) :
  forall cnt k,
    range_value d k (S cnt)
    = range_value d k cnt + 256 ^ Z.of_nat cnt * rd d (k + Z.of_nat cnt).
Proof.
  induction cnt as [| cnt IH]; intros k.
  - cbn [range_value]. change (Z.of_nat 0) with 0.
    rewrite Z.pow_0_r, (Z.add_0_r k). lia.
  - change (range_value d k (S (S cnt)))
      with (rd d k + 256 * range_value d (k + 1) (S cnt)).
    rewrite IH. cbn [range_value].
    rewrite (Nat2Z.inj_succ cnt), Z.pow_succ_r by lia.
    replace (k + 1 + Z.of_nat cnt) with (k + Z.succ (Z.of_nat cnt)) by lia. ring.
Qed.

Lemma bit_cell_value c v :
  is_byte c -> is_bit v ->
  to_byte (Z.lor (Z.shiftr c 1) (Z.shiftl v 7)) = c / 2 + 128 * v.
Proof.
  intros Hc [-> | ->]; apply Z.eqb_eq.
  - apply (forall_bytes (fun c => to_byte (Z.lor (Z.shiftr c 1) (Z.shiftl 0 7))
                                  =? c / 2 + 128 * 0));
      [vm_compute; reflexivity | exact Hc].
  - apply (forall_bytes (fun c => to_byte (Z.lor (Z.shiftr c 1) (Z.shiftl 1 7))
                                  =? c / 2 + 128 * 1));
      [vm_compute; reflexivity | exact Hc].
Qed.

Lemma stream_value_range s :
  wf s ->
  stream_value s
  = range_value (data s) 0 (Z.to_nat (pos s))
    + 256 ^ pos s * (rd (data s) (pos s) / 2 ^ (8 - bits s)).
Proof.
  intros Hs. pose proof (wf_pos _ Hs) as Hp. pose proof (wf_length _ Hs) as Hl.
  unfold sizeof_data in Hp. unfold stream_value. rewrite le_value_take by lia.
  reflexivity.
Qed.

(** One more bit: the number grows by the bit times its weight. *)
Lemma gotBit_stream v s :
  wf s -> is_bit v -> 8 * pos s + bits s < 199 ->
  stream_value (DecodeOOK.gotBit v s)
  = stream_value s + v * 2 ^ (8 * pos s + bits s).
Proof.
  intros Hs Hv Hn.
  pose proof (wf_bits _ Hs) as Hb. pose proof (wf_pos _ Hs) as Hp.
  pose proof (wf_length _ Hs) as Hl. pose proof (wf_data _ Hs) as Hd.
  unfold sizeof_data in Hp.
  rewrite (stream_value_range _ (gotBit_wf v s Hs)), (stream_value_range s Hs).
  rewrite gotBit_cases by assumption. unfold written. cbn [data set_data].
  set (c := rd (data s) (pos s)).
  assert (Hc : is_byte c) by apply (rd_bytes _ _ Hd).
  rewrite (bit_cell_value c v Hc Hv).
  assert (Hw : 2 ^ (8 * pos s + bits s) = 256 ^ pos s * 2 ^ bits s).
  { rewrite Z.pow_add_r by lia. rewrite Z.pow_mul_r by lia. reflexivity. }
  assert (Hlow : forall cnt,
             Z.of_nat cnt <= pos s ->
             range_value (wr (data s) (pos s) (c / 2 + 128 * v)) 0 cnt
             = range_value (data s) 0 cnt).
  { intros cnt Hcnt. apply range_value_ext. intros i Hi. apply rd_wr_other; lia. }
  destruct (Z.ltb_spec (bits s) 7) as [H7 | H7].
  - cbn [pos bits data]. rewrite Hlow by lia.
    rewrite rd_wr_same by lia. rewrite Hw.
    replace (8 - (bits s + 1)) with (7 - bits s) by lia.
    assert (E : (c / 2 + 128 * v) / 2 ^ (7 - bits s)
                = c / 2 ^ (8 - bits s) + v * 2 ^ bits s).
    { replace (128 * v) with (v * 2 ^ bits s * 2 ^ (7 - bits s)).
      - rewrite Z.div_add by (apply Z.pow_nonzero; lia).
        rewrite Z.div_div by (try apply Z.pow_pos_nonneg; lia).
        replace (2 * 2 ^ (7 - bits s)) with (2 ^ (8 - bits s)); [reflexivity |].
        replace (8 - bits s) with (Z.succ (7 - bits s)) by lia.
        rewrite Z.pow_succ_r by lia. reflexivity.
      - rewrite <- Z.mul_assoc, <- Z.pow_add_r by lia.
        replace (bits s + (7 - bits s)) with 7 by lia. change (2 ^ 7) with 128. ring. }
    rewrite E. ring.
  - assert (E7 : bits s = 7) by lia.
    destruct (Z.ltb_spec (pos s) 24) as [H24 | H24]; [| lia].
    cbn [pos bits data].
    replace (Z.to_nat (pos s + 1)) with (S (Z.to_nat (pos s))) by lia.
    rewrite range_value_snoc, Hlow by lia.
    rewrite Z2Nat.id, Z.add_0_l by lia.
    rewrite rd_wr_same by lia.
    rewrite rd_wr_other by lia.
    pose proof (rd_bytes (data s) (pos s + 1) Hd) as Hn1. unfold is_byte in Hn1.
    rewrite Z.sub_0_r. change (2 ^ 8) with 256.
    rewrite (Z.div_small (rd (data s) (pos s + 1)) 256) by lia.
    rewrite Hw, E7. change (8 - 7) with 1. change (2 ^ 1) with 2. change (2 ^ 7) with 128.
    ring.
Qed.

Lemma append_bits_stream bs :
  forall s,
    wf s -> Forall is_bit bs ->
    8 * pos s + bits s + Z.of_nat (length bs) < 200 ->
    let s' := append_bits DecodeOOK.gotBit bs s in
    stream_value s' = stream_value s + 2 ^ (8 * pos s + bits s) * bits_value bs
    /\ 8 * pos s' + bits s' = 8 * pos s + bits s + Z.of_nat (length bs).
Proof.
  induction bs as [| v bs IH]; intros s Hs Hb Hn.
  - simpl. split; lia.
  - inversion Hb as [| ? ? Hv Hbs]; subst.
    simpl length in Hn. rewrite Nat2Z.inj_succ in Hn.
    pose proof (wf_bits _ Hs) as Hbits. pose proof (wf_pos _ Hs) as Hp.
    destruct (gotBit_step v s Hs ltac:(lia)) as (_ & _ & _ & Kn).
    specialize (IH (DecodeOOK.gotBit v s) (gotBit_wf v s Hs) Hbs ltac:(lia)).
    simpl in IH. destruct IH as [IH1 IH2].
    change (append_bits DecodeOOK.gotBit (v :: bs) s)
      with (append_bits DecodeOOK.gotBit bs (DecodeOOK.gotBit v s)).
    cbv zeta. split.
    + rewrite IH1, gotBit_stream by (assumption || lia).
      rewrite Kn. cbn [bits_value foldr]. fold (bits_value bs).
      set (w := 8 * pos s + bits s).
      replace (2 ^ (w + 1)) with (2 * 2 ^ w)
        by (symmetry; apply Z.pow_succ_r; unfold w; lia).
      ring.
    + rewrite IH2, Kn. simpl length. rewrite Nat2Z.inj_succ. lia.
Qed.


Lemma bits_value_app l r :
  bits_value (l ++ r) = bits_value l + 2 ^ Z.of_nat (length l) * bits_value r.
Proof.
  induction l as [| b l IH].
  - simpl. lia.
  - change (bits_value ((b :: l) ++ r)) with (b + 2 * bits_value (l ++ r)).
    change (bits_value (b :: l)) with (b + 2 * bits_value l).
    rewrite IH. simpl length. rewrite Nat2Z.inj_succ, Z.pow_succ_r by lia. ring.
Qed.

Lemma bits_of_byte_value b : is_byte b -> bits_value (bits_of_byte b) = b.
Proof.
  intros Hb. apply Z.eqb_eq.
  apply (forall_bytes (fun b => bits_value (bits_of_byte b) =? b));
    [vm_compute; reflexivity | exact Hb].
Qed.

Lemma is_bit_forallb (bs : list Z) :
  forallb (fun b => (b =? 0) || (b =? 1)) bs = true -> Forall is_bit bs.
Proof.
  induction bs as [| b bs IH]; intros H; [constructor |].
  simpl in H. apply andb_prop in H. destruct H as [Hb H].
  constructor; [| apply IH, H].
  apply orb_prop in Hb. unfold is_bit. destruct Hb as [Hb | Hb]; lia.
Qed.

Lemma bits_of_byte_bits b : Forall is_bit (bits_of_byte b).
Proof.
  unfold bits_of_byte. apply Forall_forall. intros x Hx.
  apply list_elem_of_In, in_map_iff in Hx. destruct Hx as (i & <- & _).
  unfold is_bit. destruct (Z.testbit b (Z.of_nat i)); simpl; lia.
Qed.

Lemma bits_of_packet_bits P : Forall is_bit (bits_of_packet P).
Proof.
  induction P as [| b P IH]; [constructor |].
  change (bits_of_packet (b :: P)) with (bits_of_byte b ++ bits_of_packet P).
  apply Forall_app. split; [apply bits_of_byte_bits | exact IH].
Qed.

Lemma bits_of_packet_length P :
  length (bits_of_packet P) = (8 * length P)%nat.
Proof.
  induction P as [| b P IH]; [reflexivity |].
  change (bits_of_packet (b :: P)) with (bits_of_byte b ++ bits_of_packet P).
  rewrite length_app, IH. unfold bits_of_byte. rewrite length_map, length_seq.
  simpl length. lia.
Qed.

Lemma bits_of_packet_value P : bytes P -> bits_value (bits_of_packet P) = le_value P.
Proof.
  induction 1 as [| b P Hb HP IH]; [reflexivity |].
  change (bits_of_packet (b :: P)) with (bits_of_byte b ++ bits_of_packet P).
  rewrite bits_value_app, bits_of_byte_value, IH by assumption.
  unfold bits_of_byte. rewrite length_map, length_seq. reflexivity.
Qed.

Lemma le_value_inj l :
  forall l', bytes l -> bytes l' -> length l = length l' ->
             le_value l = le_value l' -> l = l'.
Proof.
  induction l as [| c l IH]; intros [| c' l'] Hb Hb' Hl E; try discriminate;
    [reflexivity |].
  inversion Hb as [| ? ? Hc Hbl]; inversion Hb' as [| ? ? Hc' Hbl']; subst.
  cbn [le_value foldr] in E. fold (le_value l) in E. fold (le_value l') in E.
  unfold is_byte in Hc, Hc'.
  assert (c = c' /\ le_value l = le_value l') as [-> E'] by lia.
  f_equal. apply IH; auto.
Qed.

Lemma take_bytes (d : list Z) n : bytes d -> bytes (take n d).
Proof. intros H. apply Forall_take, H. Qed.

(** The bits a decoder holds, starting from an empty one. *)
Lemma append_bits_from_empty bs s :
  wf s -> pos s = 0 -> bits s = 0 -> Forall is_bit bs ->
  Z.of_nat (length bs) < 200 ->
  let s' := append_bits DecodeOOK.gotBit bs s in
  stream_value s' = bits_value bs
  /\ pos s' = Z.of_nat (length bs) / 8
  /\ bits s' = Z.of_nat (length bs) mod 8.
Proof.
  intros Hs Hp Hb Hbs Hn s'.
  destruct (append_bits_stream bs s Hs Hbs ltac:(lia)) as [E1 E2].
  fold s' in E1, E2.
  pose proof (wf_bits _ (append_bits_wf bs s Hs)) as Hb'. fold s' in Hb'.
  rewrite Hp, Hb in E1, E2. simpl in E1, E2.
  assert (E0 : stream_value s = 0).
  { unfold stream_value. rewrite Hp, Hb. simpl.
    pose proof (rd_bytes (data s) 0 (wf_data _ Hs)) as Hc. unfold is_byte in Hc.
    rewrite Z.div_small by lia. reflexivity. }
  split; [rewrite E1, E0; lia |].
  split.
  - apply (Z.div_unique _ 8 _ (bits s')); lia.
  - apply (Z.mod_unique _ 8 (pos s') _); lia.
Qed.

(** X5. Packing order.  After any sequence of fewer than 200 bits appended to
    an empty decoder, the buffer spells the sequence, first bit least
    significant: the complete bytes followed by the pending bits hold the
    number whose binary digits are the bits received, in the order they
    were received. *)
Theorem buffer_spells_the_bits :
  forall (s : t) (bs : list Z),
    wf s -> pos s = 0 -> bits s = 0 ->
    Forall is_bit bs -> Z.of_nat (length bs) < 200 ->
    let s' := append_bits DecodeOOK.gotBit bs s in
    stream_value s' = bits_value bs
    /\ pos s' = Z.of_nat (length bs) / 8
    /\ bits s' = Z.of_nat (length bs) mod 8.
Proof. intros s bs. apply append_bits_from_empty. Qed.

Lemma buffer_spells_the_bits_witness :
  stream_value partial_packet
  = bits_value (bits_of_packet [0x44; 0x53; 0x02] ++ [1; 0; 1])
  /\ pos partial_packet = 3 /\ bits partial_packet = 3.
Proof.
  apply (buffer_spells_the_bits fresh
           (bits_of_packet [0x44; 0x53; 0x02] ++ [1; 0; 1])
           fresh_wf eq_refl eq_refl).
  - apply is_bit_forallb. reflexivity.
  - vm_compute. reflexivity.
Defined.

Lemma packet_stored_aux s P :
  wf s -> pos s = 0 -> bits s = 0 -> bytes P -> (length P <= 24)%nat ->
  let s' := append_bits DecodeOOK.gotBit (bits_of_packet P) s in
  pos s' = Z.of_nat (length P) /\ bits s' = 0
  /\ take (length P) (data s') = P.
Proof.
  intros Hs Hp Hb HP Hl s'.
  destruct (append_bits_from_empty (bits_of_packet P) s Hs Hp Hb
              (bits_of_packet_bits P)) as (E & Ep & Eb).
  { rewrite bits_of_packet_length. lia. }
  fold s' in E, Ep, Eb.
  rewrite bits_of_packet_length in Ep, Eb.
  replace (Z.of_nat (8 * length P)) with (Z.of_nat (length P) * 8) in Ep, Eb by lia.
  rewrite Z.div_mul in Ep by lia. rewrite Z.mod_mul in Eb by lia.
  split; [exact Ep |]. split; [exact Eb |].
  pose proof (append_bits_wf (bits_of_packet P) s Hs) as Hw. fold s' in Hw.
  unfold stream_value in E. rewrite Ep, Eb, Nat2Z.id in E.
  pose proof (rd_bytes (data s') (Z.of_nat (length P)) (wf_data _ Hw)) as Hc.
  unfold is_byte in Hc.
  rewrite Z.sub_0_r in E. change (2 ^ 8) with 256 in E.
  rewrite (Z.div_small _ 256) in E by lia.
  rewrite Z.mul_0_r, Z.add_0_r, bits_of_packet_value in E by assumption.
  apply le_value_inj; try assumption.
  - apply take_bytes, (wf_data _ Hw).
  - rewrite length_take, (wf_length _ Hw). lia.
Qed.

(** X6. Round trip of a packet through the accumulator: the bits of a packet
    of at most 24 bytes, sent least significant bit first to an empty
    decoder, leave exactly the packet in the buffer, with the position at
    its length and no bit pending. *)
Theorem packet_stored :
  forall (s : t) (P : list Z),
    wf s -> pos s = 0 -> bits s = 0 -> bytes P -> (length P <= 24)%nat ->
    let s' := append_bits DecodeOOK.gotBit (bits_of_packet P) s in
    getData s' = (Z.of_nat (length P), data s')
    /\ bits s' = 0
    /\ take (length P) (data s') = P.
Proof.
  intros s P Hs Hp Hb HP Hl s'.
  destruct (packet_stored_aux s P Hs Hp Hb HP Hl) as (Ep & Eb & Et).
  fold s' in Ep, Eb, Et. unfold getData. rewrite Ep. auto.
Qed.

Lemma packet_stored_witness :
  let s' := append_bits DecodeOOK.gotBit (bits_of_packet [0x44; 0x53; 0x02; 0x99]) fresh in
  getData s' = (4, data s') /\ bits s' = 0
  /\ take 4 (data s') = [0x44; 0x53; 0x02; 0x99].
Proof.
  apply (packet_stored fresh [0x44; 0x53; 0x02; 0x99] fresh_wf eq_refl eq_refl).
  - repeat constructor; unfold is_byte; lia.
  - simpl. lia.
Defined.

(** X7. [alignTail] after the bits: the complete bytes then spell the bits
    received without the oldest [n mod 8] of them. *)
Theorem alignTail_after_bits :
  forall (s : t) (bs : list Z),
    wf s -> pos s = 0 -> bits s = 0 ->
    Forall is_bit bs -> Z.of_nat (length bs) < 200 ->
    let s' := alignTail 0 (append_bits DecodeOOK.gotBit bs s) in
    let n := Z.of_nat (length bs) in
    pos s' = n / 8 /\ bits s' = 0
    /\ le_value (take (Z.to_nat (n / 8)) (data s')) = bits_value bs / 2 ^ (n mod 8).
Proof.
  intros s bs Hs Hp Hb Hbs Hn s' n.
  destruct (append_bits_from_empty bs s Hs Hp Hb Hbs Hn) as (E & Ep & Eb).
  set (a := append_bits DecodeOOK.gotBit bs s) in *.
  pose proof (append_bits_wf bs s Hs) as Hw. fold a in Hw.
  destruct (alignTail_0_facts a Hw) as (Ap & Ab & _). fold s' in Ap, Ab.
  fold n in Ep, Eb.
  split; [congruence |]. split; [exact Ab |].
  rewrite <- Ep, <- Eb, <- E.
  destruct (Z.eq_dec (bits a) 0) as [E0 | N0].
  - unfold s', alignTail. rewrite E0. simpl.
    unfold stream_value. rewrite E0.
    pose proof (rd_bytes (data a) (pos a) (wf_data _ Hw)) as Hc. unfold is_byte in Hc.
    rewrite Z.sub_0_r. change (2 ^ 8) with 256.
    rewrite (Z.div_small _ 256) by lia. rewrite Z.mul_0_r, Z.add_0_r.
    change (2 ^ 0) with 1. rewrite Z.div_1_r. reflexivity.
  - unfold s'. rewrite alignTail_value by assumption. reflexivity.
Qed.

Lemma alignTail_after_bits_witness :
  let bs := bits_of_packet [0x44; 0x53; 0x02] ++ [1; 0; 1] in
  let s' := alignTail 0 (append_bits DecodeOOK.gotBit bs fresh) in
  let n := Z.of_nat (length bs) in
  pos s' = n / 8 /\ bits s' = 0
  /\ le_value (take (Z.to_nat (n / 8)) (data s')) = bits_value bs / 2 ^ (n mod 8).
Proof.
  apply (alignTail_after_bits fresh (bits_of_packet [0x44; 0x53; 0x02] ++ [1; 0; 1])
           fresh_wf eq_refl eq_refl).
  - apply is_bit_forallb. reflexivity.
  - vm_compute. reflexivity.
Defined.

(** ** Padding at the end of a packet *)

Lemma done_loop_pads :
  forall (k : nat) (fuel : nat) (s : t),
    wf s -> bits s = 8 - Z.of_nat k -> (1 <= k <= 7)%nat -> (k <= fuel)%nat ->
    done_loop OregonDecoder_v1.decoder fuel s
    = Some (append_bits DecodeOOK.gotBit (repeat 0 k) s).
Proof.
  induction k as [| k IH]; intros fuel s Hs Hb Hk Hf; [lia |].
  destruct fuel as [| fuel]; [lia |].
  pose proof (wf_pos _ Hs) as Hp.
  cbn [done_loop]. destruct (Z.eqb_spec (bits s) 0) as [E | _]; [lia |].
  cbn [v_gotBit OregonDecoder_v1.decoder].
  change (append_bits DecodeOOK.gotBit (repeat 0 (S k)) s)
    with (append_bits DecodeOOK.gotBit (repeat 0 k) (DecodeOOK.gotBit 0 s)).
  assert (Hb1 : bits (DecodeOOK.gotBit 0 s) = (if bits s <? 7 then bits s + 1 else 0)).
  { rewrite gotBit_cases by lia.
    destruct (bits s <? 7); [| destruct (pos s <? 24)]; reflexivity. }
  destruct k as [| k].
  - simpl repeat. simpl append_bits.
    destruct (Z.ltb_spec (bits s) 7); [lia |].
    apply done_loop_boundary. exact Hb1.
  - destruct (Z.ltb_spec (bits s) 7); [| lia].
    apply IH; [apply gotBit_wf, Hs | lia | lia | lia].
Qed.

Lemma repeat_zero_bits k : Forall is_bit (repeat 0 k).
Proof. apply Forall_repeat. left. reflexivity. Qed.

Lemma bits_value_zeros k : bits_value (repeat 0 k) = 0.
Proof. induction k as [| k IH]; [reflexivity |]. simpl. fold (bits_value (repeat 0 k)). lia. Qed.

(** X8. [done] on a decoder that uses the base [gotBit].  It always returns,
    in state DONE with no pending bit.  On a byte boundary nothing else
    changes.  Otherwise the current byte is completed with 0 bits: the
    position moves to the next cell and the bytes spell the bits held
    before, unless the current cell was the last one of the buffer, in
    which case completing it resets the decoder and the packet is reported
    empty. *)
Theorem done_pads_with_zeros :
  forall s : t,
    wf s ->
    exists s',
      done OregonDecoder_v1.decoder s = Some s'
      /\ state s' = DONE /\ bits s' = 0
      /\ (bits s = 0 -> s' = set_state DONE s)
      /\ (bits s <> 0 -> pos s < 24 ->
          pos s' = pos s + 1
          /\ le_value (take (Z.to_nat (pos s + 1)) (data s')) = stream_value s)
      /\ (bits s <> 0 -> pos s = 24 ->
          fst (getData s') = 0 /\ total_bits s' = 0).
Proof.
  intros s Hs.
  pose proof (wf_bits _ Hs) as Hb. pose proof (wf_pos _ Hs) as Hp.
  unfold sizeof_data in Hp. unfold done.
  destruct (Z.eq_dec (bits s) 0) as [E0 | N0].
  - rewrite done_loop_boundary by assumption. simpl.
    eexists. split; [reflexivity |]. repeat split; try assumption; try contradiction.
  - rewrite (done_loop_pads (Z.to_nat (8 - bits s)) 8 s) by (assumption || lia).
    set (k := Z.to_nat (8 - bits s)).
    set (a := append_bits DecodeOOK.gotBit (repeat 0 k) s).
    pose proof (append_bits_wf (repeat 0 k) s Hs) as Hw. fold a in Hw.
    simpl. eexists. split; [reflexivity |]. cbn [state bits pos data set_state getData fst total_bits].
    assert (Hlast : a = DecodeOOK.gotBit 0 (append_bits DecodeOOK.gotBit (repeat 0 (k - 1)) s)).
    { unfold a. replace k with (k - 1 + 1)%nat at 1 by lia.
      rewrite repeat_app, append_bits_app. reflexivity. }
    set (m := append_bits DecodeOOK.gotBit (repeat 0 (k - 1)) s) in *.
    destruct (append_bits_stream (repeat 0 (k - 1)) s Hs (repeat_zero_bits _))
      as [Em1 Em2].
    { rewrite repeat_length. lia. }
    fold m in Em1, Em2. rewrite repeat_length in Em2.
    pose proof (append_bits_wf (repeat 0 (k - 1)) s Hs) as Hm. fold m in Hm.
    pose proof (wf_bits _ Hm) as Hmb. pose proof (wf_pos _ Hm) as Hmp.
    unfold sizeof_data in Hmp.
    assert (Hm7 : bits m = 7 /\ pos m = pos s) by lia.
    destruct Hm7 as [Hm7 Hmpos].
    split; [reflexivity |].
    split; [rewrite Hlast, gotBit_cases by (unfold sizeof_data; lia); rewrite Hm7; simpl;
            destruct (pos m <? 24); reflexivity |].
    split; [intros; contradiction |]. split.
    + intros _ H24.
      destruct (append_bits_stream (repeat 0 k) s Hs (repeat_zero_bits _)) as [Ea1 Ea2].
      { rewrite repeat_length. lia. }
      fold a in Ea1, Ea2. rewrite repeat_length in Ea2.
      rewrite bits_value_zeros, Z.mul_0_r, Z.add_0_r in Ea1.
      pose proof (wf_bits _ Hw) as Hab. pose proof (wf_pos _ Hw) as Hap.
      assert (Hab0 : bits a = 0 /\ pos a = pos s + 1) by lia.
      destruct Hab0 as [Hab0 Hapos].
      split; [exact Hapos |].
      rewrite <- Ea1. unfold stream_value. rewrite Hab0, Hapos.
      pose proof (rd_bytes (data a) (pos s + 1) (wf_data _ Hw)) as Hc.
      unfold is_byte in Hc. rewrite Z.sub_0_r. change (2 ^ 8) with 256.
      rewrite (Z.div_small _ 256) by lia. lia.
    + intros _ H24. rewrite Hlast, gotBit_cases by (unfold sizeof_data; lia). rewrite Hm7, Hmpos, H24.
      simpl. split; reflexivity.
Qed.

Lemma done_pads_with_zeros_witness :
  exists s',
    done OregonDecoder_v1.decoder partial_packet = Some s'
    /\ state s' = DONE /\ bits s' = 0
    /\ (bits partial_packet = 0 -> s' = set_state DONE partial_packet)
    /\ (bits partial_packet <> 0 -> pos partial_packet < 24 ->
        pos s' = pos partial_packet + 1
        /\ le_value (take (Z.to_nat (pos partial_packet + 1)) (data s'))
           = stream_value partial_packet)
    /\ (bits partial_packet <> 0 -> pos partial_packet = 24 ->
        fst (getData s') = 0 /\ total_bits s' = 0).
Proof. apply (done_pads_with_zeros partial_packet partial_packet_wf). Defined.

(** ** A classifier that is DONE *)

(** X9. DONE is terminal: a classifier that is DONE ignores every pulse and
    keeps reporting completion, until it is reset. *)
Theorem done_is_absorbing :
  forall (D : Decoder) (ws : list Z) (s : t),
    isDone s = true ->
    feed D ws s = Some (repeat true (length ws), s).
Proof.
  intros D ws s Hd. induction ws as [| w ws IH]; [reflexivity |].
  rewrite feed_cons. unfold nextPulse at 1. rewrite Hd. simpl. rewrite Hd.
  rewrite IH. reflexivity.
Qed.

Lemma done_is_absorbing_witness :
  feed OregonDecoder_v2.decoder [400; 900; 3000] (set_state DONE fresh)
  = Some (repeat true 3, set_state DONE fresh).
Proof. apply (done_is_absorbing OregonDecoder_v2.decoder [400; 900; 3000]). reflexivity. Defined.

(** ** Preamble detection *)

Lemma feed_app D ws1 ws2 s :
  feed D (ws1 ++ ws2) s
  = '(r1, s1) ← feed D ws1 s; '(r2, s2) ← feed D ws2 s1; Some (r1 ++ r2, s2).
Proof.
  revert s. induction ws1 as [| w ws1 IH]; intros s.
  - simpl. destruct (feed D ws2 s) as [[r2 s2] |]; reflexivity.
  - rewrite <- app_comm_cons, !feed_cons.
    destruct (nextPulse D w s) as [[r s1] |]; [| reflexivity].
    simpl. rewrite IH.
    destruct (feed D ws1 s1) as [[r1 s1'] |]; [| reflexivity]. simpl.
    destruct (feed D ws2 s1') as [[r2 s2] |]; reflexivity.
Qed.

Lemma bind_Some {A B} (x : A) (f : A -> option B) : Some x ≫= f = f x.
Proof. reflexivity. Qed.

Lemma feed_one D w s :
  feed D [w] s = '(r, s1) ← nextPulse D w s; Some ([r], s1).
Proof.
  rewrite feed_cons. destruct (nextPulse D w s) as [[r s1] |]; reflexivity.
Qed.

Lemma to_byte_succ x : to_byte (to_byte x + 1) = to_byte (x + 1).
Proof. unfold to_byte. apply Zplus_mod_idemp_l. Qed.

Lemma set_flip_set_flip a b s : set_flip a (set_flip b s) = set_flip a s.
Proof. reflexivity. Qed.

(** Short pulses in state UNKNOWN are counted, modulo 256. *)
Lemma v1_preamble_count pre :
  forall s,
    state s = UNKNOWN -> total_bits s < 32 -> Forall v1_short pre ->
    feed OregonDecoder_v1.decoder pre s
    = Some (repeat false (length pre),
            match pre with
            | [] => s
            | _ => set_flip (to_byte (flip s + Z.of_nat (length pre))) s
            end).
Proof.
  induction pre as [| w pre IH]; intros s Hst Ht Hpre; [reflexivity |].
  inversion Hpre as [| ? ? Hw Hpre']; subst. unfold v1_short in Hw.
  rewrite (feed_step _ w _ s (set_flip (to_byte (flip s + 1)) s)).
  - rewrite IH by assumption.
    cbn [fmap option_fmap option_map]. unfold isDone. cbn [state set_flip].
    rewrite Hst. cbn [State_eqb].
    destruct pre as [| w' pre'].
    + reflexivity.
    + cbn [repeat length]. do 2 f_equal.
      cbn [flip set_flip]. rewrite set_flip_set_flip. f_equal.
      rewrite !Nat2Z.inj_succ. unfold to_byte.
      rewrite Zplus_mod_idemp_l. f_equal. lia.
  - unfold isDone. rewrite Hst. reflexivity.
  - simpl. unfold OregonDecoder_v1.decode, OregonDecoder_v1.decode_switch.
    rewrite Hst. settle_cmp. simpl. settle_cmp. reflexivity.
Qed.

Lemma v2_preamble_count pre :
  forall s,
    state s = UNKNOWN -> Forall v2_long pre ->
    feed OregonDecoder_v2.decoder pre s
    = Some (repeat false (length pre),
            match pre with
            | [] => s
            | _ => set_flip (to_byte (flip s + Z.of_nat (length pre))) s
            end).
Proof.
  induction pre as [| w pre IH]; intros s Hst Hpre; [reflexivity |].
  inversion Hpre as [| ? ? Hw Hpre']; subst. unfold v2_long in Hw.
  rewrite (feed_step _ w _ s (set_flip (to_byte (flip s + 1)) s)).
  - rewrite IH by assumption.
    cbn [fmap option_fmap option_map]. unfold isDone. cbn [state set_flip].
    rewrite Hst. cbn [State_eqb].
    destruct pre as [| w' pre'].
    + reflexivity.
    + cbn [repeat length]. do 2 f_equal.
      cbn [flip set_flip]. rewrite set_flip_set_flip. f_equal.
      rewrite !Nat2Z.inj_succ. unfold to_byte.
      rewrite Zplus_mod_idemp_l. f_equal. lia.
  - unfold isDone. rewrite Hst. reflexivity.
  - simpl. unfold OregonDecoder_v2.decode, OregonDecoder_v2.decode_switch.
    rewrite Hst. settle_cmp. reflexivity.
Qed.

Lemma preamble_flip raw (pre : list Z) :
  match pre with
  | [] => construct raw
  | _ :: _ => set_flip (to_byte (flip (construct raw) + Z.of_nat (length pre)))
                       (construct raw)
  end
  = set_flip (Z.of_nat (length pre) mod 256) (construct raw).
Proof. destruct pre; reflexivity. Qed.

(** X10. The v1 start pulse.  From a constructed classifier, a long pulse that
    follows [k] short ones is taken as the start pulse (state T1) exactly
    when [k mod 256] is at least 22, the counter of short pulses being a
    byte; otherwise it resets the classifier. *)
Theorem v1_preamble_threshold :
  forall (raw : t) (pre : list Z) (wl : Z),
    Forall v1_short pre -> v1_long wl ->
    feed OregonDecoder_v1.decoder (pre ++ [wl]) (construct raw)
    = Some (repeat false (length pre + 1),
            if 22 <=? Z.of_nat (length pre) mod 256
            then set_state T1 (construct raw)
            else construct raw).
Proof.
  intros raw pre wl Hpre Hwl. unfold v1_long in Hwl.
  rewrite feed_app, v1_preamble_count by (assumption || reflexivity || (simpl; lia)).
  rewrite preamble_flip, bind_Some. cbv beta iota.
  set (k := Z.of_nat (length pre) mod 256).
  set (s := set_flip k (construct raw)).
  rewrite feed_one. unfold nextPulse.
  change (isDone s) with false. cbv iota.
  simpl v_decode. unfold OregonDecoder_v1.decode, OregonDecoder_v1.decode_switch.
  settle_cmp. cbn [state s set_flip construct resetDecoder negb andb flip].
  rewrite repeat_app. simpl repeat.
  destruct (Z.leb_spec 22 k); reflexivity.
Qed.

(** X11. The end of the v2.1 preamble.  From a constructed classifier, a short
    pulse that follows [k] long ones ends the preamble (state T0) exactly
    when [k mod 256] is at least 24; otherwise it resets the classifier. *)
Theorem v2_preamble_threshold :
  forall (raw : t) (pre : list Z) (ws : Z),
    Forall v2_long pre -> v2_short ws ->
    feed OregonDecoder_v2.decoder (pre ++ [ws]) (construct raw)
    = Some (repeat false (length pre + 1),
            if 24 <=? Z.of_nat (length pre) mod 256
            then set_state T0 (construct raw)
            else construct raw).
Proof.
  intros raw pre ws Hpre Hws. unfold v2_short in Hws.
  rewrite feed_app, v2_preamble_count by (assumption || reflexivity).
  rewrite preamble_flip, bind_Some. cbv beta iota.
  set (k := Z.of_nat (length pre) mod 256).
  set (s := set_flip k (construct raw)).
  rewrite feed_one. unfold nextPulse.
  change (isDone s) with false. cbv iota.
  simpl v_decode. unfold OregonDecoder_v2.decode, OregonDecoder_v2.decode_switch.
  settle_cmp. cbn [state s set_flip construct resetDecoder negb andb flip].
  rewrite repeat_app. simpl repeat.
  destruct (Z.leb_spec 24 k); reflexivity.
Qed.

Lemma v1_preamble_threshold_witness :
  feed OregonDecoder_v1.decoder (repeat 1000 22 ++ [3000]) (construct fresh)
  = Some (repeat false (length (repeat 1000 22) + 1),
          if 22 <=? Z.of_nat (length (repeat 1000 22)) mod 256
          then set_state T1 (construct fresh)
          else construct fresh).
Proof.
  apply (v1_preamble_threshold fresh (repeat 1000 22) 3000).
  - apply Forall_repeat. unfold v1_short. lia.
  - unfold v1_long. lia.
Defined.

Lemma v2_preamble_threshold_witness :
  feed OregonDecoder_v2.decoder (repeat 900 24 ++ [400]) (construct fresh)
  = Some (repeat false (length (repeat 900 24) + 1),
          if 24 <=? Z.of_nat (length (repeat 900 24)) mod 256
          then set_state T0 (construct fresh)
          else construct fresh).
Proof.
  apply (v2_preamble_threshold fresh (repeat 900 24) 400).
  - apply Forall_repeat. unfold v2_long. lia.
  - unfold v2_short. lia.
Defined.

(** ** What a classifier holds when it completes *)

Lemma isDone_set_state st s : isDone (set_state st s) = State_eqb st DONE.
Proof. reflexivity. Qed.

Lemma isDone_false s : state s <> DONE -> isDone s = false.
Proof. unfold isDone. destruct (state s); try reflexivity. intros H. contradiction. Qed.

(** One call of the v1 [decode] on a classifier that is not complete. *)
Lemma v1_decode_step w s :
  wf s -> consistent s -> total_bits s < 32 -> state s <> DONE ->
  let '(c, s1) := OregonDecoder_v1.decode w s in
  wf s1 /\ consistent s1 /\ state s1 <> DONE
  /\ total_bits s1 <= 32
  /\ (c = -1 \/ (c = 0 /\ total_bits s1 < 32) \/ (c = 1 /\ total_bits s1 = 32)).
Proof.
  intros Hs Hc Ht Hst.
  pose proof (wf_total_bits _ Hs) as Htb. unfold is_byte in Htb.
  pose proof (wf_bits _ Hs) as Hb. pose proof (wf_pos _ Hs) as Hp.
  unfold sizeof_data in Hp.
  assert (Hn : 8 * pos s + bits s < 199) by (unfold consistent in Hc; lia).
  assert (Code : forall s1, total_bits s1 < 32 ->
                   (if 32 <=? total_bits s1 then 1 else 0) = 0).
  { intros s1 H. destruct (Z.leb_spec 32 (total_bits s1)); [lia | reflexivity]. }
  assert (Bit : forall v s0,
             wf s0 -> consistent s0 -> total_bits s0 = total_bits s ->
             let s1 := DecodeOOK.gotBit v s0 in
             wf s1 /\ consistent s1 /\ state s1 <> DONE /\ total_bits s1 <= 32
             /\ ((if 32 <=? total_bits s1 then 1 else 0) = -1
                 \/ ((if 32 <=? total_bits s1 then 1 else 0) = 0 /\ total_bits s1 < 32)
                 \/ ((if 32 <=? total_bits s1 then 1 else 0) = 1 /\ total_bits s1 = 32))).
  { intros v s0 Hs0 Hc0 Ht0 s1.
    assert (Hn0 : 8 * pos s0 + bits s0 < 199) by (unfold consistent in Hc0; lia).
    destruct (gotBit_step v s0 Hs0 Hn0) as (Kst & _ & Kt & _). fold s1 in Kst, Kt.
    rewrite to_byte_small in Kt by (unfold is_byte; lia).
    split; [apply gotBit_wf, Hs0 |]. split; [apply gotBit_consistent; assumption |].
    split; [rewrite Kst; discriminate |]. split; [lia |].
    destruct (Z.leb_spec 32 (total_bits s1)); [right; right | right; left]; lia. }
  assert (Same : forall s1,
             wf s1 -> consistent s1 -> state s1 <> DONE -> total_bits s1 = total_bits s ->
             wf s1 /\ consistent s1 /\ state s1 <> DONE /\ total_bits s1 <= 32
             /\ ((if 32 <=? total_bits s1 then 1 else 0) = -1
                 \/ ((if 32 <=? total_bits s1 then 1 else 0) = 0 /\ total_bits s1 < 32)
                 \/ ((if 32 <=? total_bits s1 then 1 else 0) = 1 /\ total_bits s1 = 32))).
  { intros s1 H1 H2 H3 H4. repeat (split; [assumption || lia |]).
    right; left. rewrite Code by lia. lia. }
  assert (Fail : wf s /\ consistent s /\ state s <> DONE /\ total_bits s <= 32
                 /\ (-1 = -1 \/ (-1 = 0 /\ total_bits s < 32)
                     \/ (-1 = 1 /\ total_bits s = 32))).
  { repeat (split; [assumption || lia |]). left. reflexivity. }
  unfold OregonDecoder_v1.decode, OregonDecoder_v1.decode_switch.
  destruct ((900 <=? w) && (w <=? 7000)); [| exact Fail].
  destruct (state s) eqn:Est; try contradiction; rewrite <- Est in Fail; cbv zeta.
  - (* UNKNOWN *)
    destruct (negb (2300 <=? w)).
    + apply Same; try reflexivity; try assumption.
      * apply set_flip_wf; [apply to_byte_range | assumption].
      * simpl. rewrite Est. discriminate.
    + destruct ((2300 <=? w) && (22 <=? flip s)); [| exact Fail].
      apply Same; try reflexivity; try assumption.
      * apply set_state_wf, set_flip_wf; [unfold is_byte; lia | assumption].
      * discriminate.
  - (* T0 *)
    destruct (negb (2300 <=? w)); [| exact Fail].
    unfold manchester. apply Bit; try reflexivity; try assumption.
    apply set_flip_wf; [apply to_byte_range | assumption].
  - (* T1 *)
    destruct ((5550 <=? w) && (w <=? 6000)); [| exact Fail].
    apply Same; try reflexivity; try assumption.
    + apply set_state_wf, Hs.
    + discriminate.
  - (* T2 *)
    destruct ((4800 <=? w) && (w <=? 5400)).
    + apply Same; try reflexivity; try assumption.
      * apply set_state_wf, set_flip_wf; [unfold is_byte; lia | assumption].
      * discriminate.
    + destruct ((6480 <=? w) && (w <=? 6880)); [| exact Fail].
      apply Bit; try reflexivity; assumption.
  - (* T3 *)
    apply Same; try reflexivity; try assumption. rewrite Est. discriminate.
  - (* OK *)
    destruct (negb (2300 <=? w)).
    + apply Same; try reflexivity; try assumption.
      * apply set_state_wf, Hs.
      * discriminate.
    + unfold manchester. apply Bit; try reflexivity; try assumption.
      apply set_flip_wf; [apply to_byte_range | assumption].
Qed.

Lemma v1_inv_construct raw :
  length (data raw) = 25%nat -> bytes (data raw) -> v1_inv (construct raw).
Proof.
  intros Hl Hb. split; [apply resetDecoder_wf; assumption |].
  split; [reflexivity |]. simpl. lia.
Qed.

Lemma v1_nextPulse_inv w s :
  v1_inv s ->
  exists r s', nextPulse OregonDecoder_v1.decoder w s = Some (r, s')
               /\ r = isDone s' /\ v1_inv s'.
Proof.
  intros (Hs & Hc & Hd). unfold nextPulse.
  destruct (isDone s) eqn:Ed.
  { exists true, s. simpl. rewrite Ed. split; [reflexivity |]. split; [reflexivity |].
    split; [assumption |]. split; [assumption |]. rewrite Ed. assumption. }
  assert (Hst : state s <> DONE).
  { intros E. unfold isDone in Ed. rewrite E in Ed. discriminate. }
  pose proof (v1_decode_step w s Hs Hc Hd Hst) as H.
  simpl v_decode. destruct (OregonDecoder_v1.decode w s) as [c s1].
  destruct H as (Hs1 & Hc1 & Hst1 & Ht1 & [-> | [[-> Hlt] | [-> Heq]]]).
  - change (-1 =? -1) with true. cbv iota. simpl.
    eexists _, _. split; [reflexivity |]. split; [reflexivity |].
    split; [apply resetDecoder_wf'; assumption |]. split; [reflexivity |]. simpl. lia.
  - change (0 =? -1) with false. change (0 =? 1) with false. cbv iota. simpl.
    eexists _, _. split; [reflexivity |]. split; [reflexivity |].
    split; [assumption |]. split; [assumption |].
    rewrite (isDone_false _ Hst1). assumption.
  - change (1 =? -1) with false. change (1 =? 1) with true. cbv iota.
    assert (Hb0 : bits s1 = 0).
    { pose proof (wf_bits _ Hs1). pose proof (wf_pos _ Hs1). unfold consistent in Hc1. lia. }
    unfold done. rewrite done_loop_boundary by assumption. simpl.
    eexists _, _. split; [reflexivity |]. split; [reflexivity |].
    split; [apply set_state_wf; assumption |]. split; [exact Hc1 |]. exact Heq.
Qed.

Lemma v1_feed_inv ws :
  forall s, v1_inv s ->
    exists rs s', feed OregonDecoder_v1.decoder ws s = Some (rs, s') /\ v1_inv s'.
Proof.
  induction ws as [| w ws IH]; intros s Hs.
  - exists [], s. split; [reflexivity | assumption].
  - destruct (v1_nextPulse_inv w s Hs) as (r & s1 & E & _ & H1).
    destruct (IH s1 H1) as (rs & s' & E' & H').
    exists (r :: rs), s'. rewrite feed_cons, E. simpl. rewrite E'. simpl. auto.
Qed.

(** X12. Whatever pulses a v1 classifier receives after its construction, it
    keeps returning, it never holds more than 32 bits, and when it reports
    completion it holds exactly 4 bytes: [getData] gives a count of 4 and
    no bit is pending. *)
Theorem v1_completes_with_4_bytes :
  forall (raw : t) (ws : list Z),
    length (data raw) = 25%nat -> bytes (data raw) ->
    exists rs s',
      feed OregonDecoder_v1.decoder ws (construct raw) = Some (rs, s')
      /\ total_bits s' <= 32 /\ pos s' <= 4
      /\ (isDone s' = true ->
          fst (getData s') = 4 /\ total_bits s' = 32 /\ bits s' = 0).
Proof.
  intros raw ws Hl Hb.
  destruct (v1_feed_inv ws (construct raw) (v1_inv_construct raw Hl Hb))
    as (rs & s' & E & Hs & Hc & Hd).
  exists rs, s'. split; [exact E |].
  pose proof (wf_bits _ Hs). pose proof (wf_pos _ Hs). unfold consistent in Hc.
  destruct (isDone s').
  - split; [lia |]. split; [lia |]. intros _. simpl. lia.
  - split; [lia |]. split; [lia |]. discriminate.
Qed.

Lemma v1_completes_with_4_bytes_witness :
  exists rs s',
    feed OregonDecoder_v1.decoder (v1_waveform [0x44; 0x53; 0x02; 0x99]) (construct fresh)
    = Some (rs, s')
    /\ total_bits s' <= 32 /\ pos s' <= 4
    /\ (isDone s' = true ->
        fst (getData s') = 4 /\ total_bits s' = 32 /\ bits s' = 0).
Proof.
  apply (v1_completes_with_4_bytes fresh).
  - reflexivity.
  - simpl. repeat constructor; unfold is_byte; lia.
Defined.

Lemma v2_gotBit_inv v s :
  wf s -> bits s = 0 ->
  let s1 := OregonDecoder_v2.gotBit v s in
  wf s1 /\ bits s1 = 0 /\ pos s1 = total_bits s1 / 16 /\ state s1 <> DONE.
Proof.
  intros Hs Hb s1.
  split; [apply v2_gotBit_wf, Hs |].
  unfold s1. rewrite v2_gotBit_cases. simpl.
  split; [exact Hb |]. split; [reflexivity | discriminate].
Qed.

(** One call of the v2.1 [decode] on a classifier that is not complete. *)
Lemma v2_decode_step w s :
  wf s -> bits s = 0 -> pos s = total_bits s / 16 -> state s <> DONE ->
  let '(c, s1) := OregonDecoder_v2.decode w s in
  wf s1 /\ bits s1 = 0 /\ pos s1 = total_bits s1 / 16 /\ state s1 <> DONE
  /\ (c = -1 \/ c = 0 \/ (c = 1 /\ 8 <= pos s1)).
Proof.
  intros Hs Hb Hp Hst.
  assert (Same : forall c s1,
             wf s1 -> bits s1 = 0 -> pos s1 = total_bits s1 / 16 -> state s1 <> DONE ->
             c = -1 \/ c = 0 ->
             wf s1 /\ bits s1 = 0 /\ pos s1 = total_bits s1 / 16 /\ state s1 <> DONE
             /\ (c = -1 \/ c = 0 \/ (c = 1 /\ 8 <= pos s1))).
  { intros c s1 H1 H2 H3 H4 H5. repeat (split; [assumption |]). tauto. }
  assert (Bit : forall v s0,
             wf s0 -> bits s0 = 0 ->
             let s1 := OregonDecoder_v2.gotBit v s0 in
             wf s1 /\ bits s1 = 0 /\ pos s1 = total_bits s1 / 16 /\ state s1 <> DONE
             /\ (0 = -1 \/ 0 = 0 \/ (0 = 1 /\ 8 <= pos s1))).
  { intros v s0 H1 H2 s1. destruct (v2_gotBit_inv v s0 H1 H2) as (A & B & C & D).
    repeat (split; [assumption |]). tauto. }
  unfold OregonDecoder_v2.decode, OregonDecoder_v2.decode_switch.
  destruct ((200 <=? w) && (w <? 1200)).
  - destruct (state s) eqn:Est; try contradiction; cbv zeta.
    + destruct (700 <=? w).
      * apply Same; try assumption; try (right; reflexivity).
        -- apply set_flip_wf; [apply to_byte_range | assumption].
        -- simpl. rewrite Est. discriminate.
      * destruct (negb false && (24 <=? flip s)).
        -- apply Same; try assumption; try (right; reflexivity).
           ++ apply set_state_wf, set_flip_wf; [unfold is_byte; lia | assumption].
           ++ discriminate.
        -- apply Same; try assumption; [rewrite Est; discriminate | left; reflexivity].
    + destruct (negb (700 <=? w)).
      * unfold manchester. apply Bit; [| assumption].
        apply set_flip_wf; [apply to_byte_range | assumption].
      * apply Same; try assumption; [rewrite Est; discriminate | left; reflexivity].
    + apply Same; try assumption; [rewrite Est; discriminate | right; reflexivity].
    + apply Same; try assumption; [rewrite Est; discriminate | right; reflexivity].
    + apply Same; try assumption; [rewrite Est; discriminate | right; reflexivity].
    + destruct (negb (700 <=? w)).
      * apply Same; try assumption; try (right; reflexivity).
        -- apply set_state_wf, Hs.
        -- discriminate.
      * unfold manchester. apply Bit; [| assumption].
        apply set_flip_wf; [apply to_byte_range | assumption].
  - destruct (2500 <=? w); cbn [andb].
    + destruct (Z.leb_spec 8 (pos s)).
      * repeat (split; [assumption |]). right; right. split; [reflexivity | assumption].
      * apply Same; try assumption. left; reflexivity.
    + apply Same; try assumption. left; reflexivity.
Qed.

Lemma v2_inv_construct raw :
  length (data raw) = 25%nat -> bytes (data raw) -> v2_inv (construct raw).
Proof.
  intros Hl Hb. split; [apply resetDecoder_wf; assumption |].
  split; [reflexivity |]. split; [reflexivity |]. discriminate.
Qed.

Lemma v2_nextPulse_inv w s :
  v2_inv s ->
  exists r s', nextPulse OregonDecoder_v2.decoder w s = Some (r, s')
               /\ r = isDone s' /\ v2_inv s'.
Proof.
  intros (Hs & Hb & Hp & Hd). unfold nextPulse.
  destruct (isDone s) eqn:Ed.
  { exists true, s. simpl. rewrite Ed. split; [reflexivity |]. split; [reflexivity |].
    split; [assumption |]. split; [assumption |]. split; [assumption |].
    intros _. apply Hd. reflexivity. }
  assert (Hst : state s <> DONE).
  { intros E. unfold isDone in Ed. rewrite E in Ed. discriminate. }
  pose proof (v2_decode_step w s Hs Hb Hp Hst) as H.
  simpl v_decode. destruct (OregonDecoder_v2.decode w s) as [c s1].
  destruct H as (Hs1 & Hb1 & Hp1 & Hst1 & [-> | [-> | [-> H8]]]).
  - change (-1 =? -1) with true. cbv iota. simpl.
    eexists _, _. split; [reflexivity |]. split; [reflexivity |].
    split; [apply resetDecoder_wf'; assumption |].
    split; [reflexivity |]. split; [reflexivity | discriminate].
  - change (0 =? -1) with false. change (0 =? 1) with false. cbv iota. simpl.
    eexists _, _. split; [reflexivity |]. split; [reflexivity |].
    split; [assumption |]. split; [assumption |]. split; [assumption |].
    rewrite (isDone_false _ Hst1). discriminate.
  - change (1 =? -1) with false. change (1 =? 1) with true. cbv iota.
    unfold done. rewrite done_loop_boundary by assumption. simpl.
    eexists _, _. split; [reflexivity |]. split; [reflexivity |].
    split; [apply set_state_wf; assumption |].
    split; [exact Hb1 |]. split; [exact Hp1 |]. intros _. exact H8.
Qed.

Lemma v2_feed_inv ws :
  forall s, v2_inv s ->
    exists rs s', feed OregonDecoder_v2.decoder ws s = Some (rs, s') /\ v2_inv s'.
Proof.
  induction ws as [| w ws IH]; intros s Hs.
  - exists [], s. split; [reflexivity | assumption].
  - destruct (v2_nextPulse_inv w s Hs) as (r & s1 & E & _ & H1).
    destruct (IH s1 H1) as (rs & s' & E' & H').
    exists (r :: rs), s'. rewrite feed_cons, E. simpl. rewrite E'. simpl. auto.
Qed.

(** X13. Whatever pulses a v2.1 classifier receives after its construction, it
    keeps returning (its padding loop never runs, no bit being ever
    pending), its position never exceeds 15, so that the guard against the
    end of the buffer is never triggered, and when it reports completion
    it holds between 8 and 15 bytes. *)
Theorem v2_completes_with_8_to_15_bytes :
  forall (raw : t) (ws : list Z),
    length (data raw) = 25%nat -> bytes (data raw) ->
    exists rs s',
      feed OregonDecoder_v2.decoder ws (construct raw) = Some (rs, s')
      /\ bits s' = 0 /\ 0 <= pos s' <= 15
      /\ (isDone s' = true -> 8 <= fst (getData s') <= 15).
Proof.
  intros raw ws Hl Hb.
  destruct (v2_feed_inv ws (construct raw) (v2_inv_construct raw Hl Hb))
    as (rs & s' & E & Hs & Hb' & Hp & Hd).
  exists rs, s'. split; [exact E |]. split; [exact Hb' |].
  pose proof (wf_total_bits _ Hs) as Ht. unfold is_byte in Ht.
  assert (Hr : 0 <= pos s' <= 15).
  { rewrite Hp. split; [apply Z.div_pos; lia |].
    assert (total_bits s' / 16 < 16) by (apply Z.div_lt_upper_bound; lia). lia. }
  split; [exact Hr |]. intros H. specialize (Hd H). simpl. lia.
Qed.

Lemma v2_completes_with_8_to_15_bytes_witness :
  exists rs s',
    feed OregonDecoder_v2.decoder (v2_waveform packet_v2) (construct fresh) = Some (rs, s')
    /\ bits s' = 0 /\ 0 <= pos s' <= 15
    /\ (isDone s' = true -> 8 <= fst (getData s') <= 15).
Proof.
  apply (v2_completes_with_8_to_15_bytes fresh).
  - reflexivity.
  - simpl. repeat constructor; unfold is_byte; lia.
Defined.

(** ** The answers of the v1 classifier during a packet *)

Lemma feed_one_continue D w s s' :
  isDone s = false -> v_decode D w s = (0, s') ->
  feed D [w] s = Some ([isDone s'], s').
Proof.
  intros Hd E. rewrite feed_one, (nextPulse_continue D w s s' Hd E). reflexivity.
Qed.

Lemma feed_cons_continue D w ws s s' :
  isDone s = false -> v_decode D w s = (0, s') ->
  feed D (w :: ws) s
  = '(rs, s2) ← feed D ws s'; Some (isDone s' :: rs, s2).
Proof.
  intros Hd E. rewrite feed_cons, (nextPulse_continue D w s s' Hd E). reflexivity.
Qed.

(** The v1 classifier answers false at every pulse of the bits of a
    packet but the last one, at which the 32nd bit is appended. *)
Lemma v1_completes_last prev bs ws :
  manchester_enc v1_short v1_long prev bs ws ->
  forall s,
    wf s -> state s = OK -> flip s = prev -> is_bit prev -> consistent s ->
    total_bits s < 32 ->
    total_bits s + Z.of_nat (length bs) = 32 ->
    exists n,
      length ws = S n /\
      feed OregonDecoder_v1.decoder ws s
      = Some (repeat false n ++ [true],
              set_state DONE
                (set_flip (List.last bs prev)
                          (append_bits DecodeOOK.gotBit bs s))).
Proof.
  unfold consistent.
  induction 1 as [prev | prev bs w1 w2 ws H1 H2 Henc IH | prev bs w ws H1 Henc IH];
    intros s Hs Hst Hf Hb Hc Hlt Hn.
  - simpl in Hn. lia.
  - subst prev. simpl length in Hn. rewrite Nat2Z.inj_succ in Hn.
    pose proof (wf_total_bits _ Hs) as Ht. unfold is_byte in Ht.
    pose proof (wf_bits _ Hs) as Hbits.
    destruct (gotBit_step (flip s) s Hs ltac:(lia)) as (Kst & Kf & Kt & Kn).
    rewrite to_byte_small in Kt by (unfold is_byte; lia).
    rewrite (feed_cons_continue _ w1 _ s (set_state T0 s));
      [| unfold isDone; rewrite Hst; reflexivity
       | simpl; rewrite v1_decode_OK_short, v1_code_0 by (assumption || lia);
         reflexivity ].
    change (isDone (set_state T0 s)) with false.
    destruct (Z.eq_dec (total_bits s + 1) 32) as [E32 | N32].
    + assert (El : length bs = 0%nat) by lia.
      destruct bs; [| discriminate El].
      rewrite (manchester_enc_nil _ _ _ _ Henc).
      pose proof (wf_bits _ (gotBit_wf (flip s) s Hs)) as Hb'.
      rewrite feed_one.
      rewrite (nextPulse_complete_v1 w2 (set_state T0 s) (DecodeOOK.gotBit (flip s) s));
        [| reflexivity
         | rewrite v1_decode_T0_short by (assumption || reflexivity);
           rewrite manchester_0 by assumption; simpl flip;
           rewrite gotBit_set_state, v1_code_1 by lia; reflexivity
         | lia ].
      exists 1%nat. split; [reflexivity |].
      simpl. rewrite (set_flip_id _ _ Kf). reflexivity.
    + rewrite (feed_cons_continue _ w2 _ (set_state T0 s) (DecodeOOK.gotBit (flip s) s));
        [| reflexivity
         | simpl; rewrite v1_decode_T0_short by (assumption || reflexivity);
           rewrite manchester_0 by assumption; simpl flip;
           rewrite gotBit_set_state, v1_code_0 by lia; reflexivity ].
      destruct (IH (DecodeOOK.gotBit (flip s) s)) as (n & Eln & Er);
        try assumption; [apply gotBit_wf, Hs | lia | lia | lia |].
      rewrite Er, last_cons_default. exists (S (S n)).
      split; [simpl; rewrite Eln; reflexivity |].
      unfold isDone. rewrite Kst. reflexivity.
  - subst prev. simpl length in Hn. rewrite Nat2Z.inj_succ in Hn.
    pose proof (wf_total_bits _ Hs) as Ht. unfold is_byte in Ht.
    pose proof (wf_bits _ Hs) as Hbits.
    assert (Hs' : wf (set_flip (1 - flip s) s)).
    { apply set_flip_wf; [| assumption]. unfold is_bit, is_byte in *. lia. }
    destruct (gotBit_step (1 - flip s) _ Hs' ltac:(simpl; lia)) as (Kst & Kf & Kt & Kn).
    simpl in Kf, Kt, Kn.
    rewrite to_byte_small in Kt by (unfold is_byte; lia).
    assert (Eu : forall l,
               set_flip (List.last l (1 - flip s))
                 (append_bits DecodeOOK.gotBit l
                    (DecodeOOK.gotBit (1 - flip s) (set_flip (1 - flip s) s)))
               = set_flip (List.last l (1 - flip s))
                   (append_bits DecodeOOK.gotBit ((1 - flip s) :: l) s)).
    { intros l. apply eq_upto_flip_last.
      change (append_bits DecodeOOK.gotBit ((1 - flip s) :: l) s)
        with (append_bits DecodeOOK.gotBit l (DecodeOOK.gotBit (1 - flip s) s)).
      apply (append_bits_upto_flip DecodeOOK.gotBit gotBit_upto_flip).
      apply gotBit_upto_flip, eq_upto_flip_set. }
    destruct (Z.eq_dec (total_bits s + 1) 32) as [E32 | N32].
    + assert (El : length bs = 0%nat) by lia.
      destruct bs; [| discriminate El].
      rewrite (manchester_enc_nil _ _ _ _ Henc).
      pose proof (wf_bits _ (gotBit_wf (1 - flip s) _ Hs')) as Hb'.
      rewrite feed_one.
      rewrite (nextPulse_complete_v1 w s
                 (DecodeOOK.gotBit (1 - flip s) (set_flip (1 - flip s) s)));
        [| unfold isDone; rewrite Hst; reflexivity
         | rewrite v1_decode_OK_long by assumption;
           rewrite manchester_1 by assumption;
           rewrite v1_code_1 by lia; reflexivity
         | lia ].
      exists 0%nat. split; [reflexivity |].
      simpl mbind. cbv beta iota. rewrite last_cons_default.
      rewrite <- (Eu []). simpl. rewrite (set_flip_id _ _ Kf). reflexivity.
    + rewrite (feed_cons_continue _ w _ s
                 (DecodeOOK.gotBit (1 - flip s) (set_flip (1 - flip s) s)));
        [| unfold isDone; rewrite Hst; reflexivity
         | simpl; rewrite v1_decode_OK_long by assumption;
           rewrite manchester_1 by assumption;
           rewrite v1_code_0 by lia; reflexivity ].
      destruct (IH (DecodeOOK.gotBit (1 - flip s) (set_flip (1 - flip s) s)))
        as (n & Eln & Er); try assumption;
        [apply gotBit_wf, Hs' | apply is_bit_flip, Hb | lia | lia | lia |].
      rewrite Er, last_cons_default, Eu. exists (S n).
      split; [simpl; rewrite Eln; reflexivity |].
      unfold isDone. rewrite Kst. reflexivity.
Qed.

(** ** The v1 classifier on a whole transmission *)

(** The v1 classifier after the preamble, the start pulse, the two
    synchronisation pulses and the first bit. *)
Lemma v1_sync raw pre start t1 first b0 :
  Forall v1_short pre -> 22 <= Z.of_nat (length pre) mod 256 ->
  v1_long start -> 5550 <= t1 <= 6000 ->
  ((b0 = 0 /\ exists t2, first = [t2] /\ 6480 <= t2 <= 6880)
   \/ (b0 = 1 /\ exists t2 w,
          first = [t2; w] /\ 4800 <= t2 <= 5400 /\ v1_short w)) ->
  feed OregonDecoder_v1.decoder (pre ++ [start; t1] ++ first) (construct raw)
  = Some (repeat false (length (pre ++ [start; t1] ++ first)),
          DecodeOOK.gotBit b0 (set_flip b0 (construct raw))).
Proof.
  intros Hpre Hk Hstart Ht1 Hfirst. unfold v1_long in Hstart.
  rewrite feed_app, v1_preamble_count by (assumption || reflexivity || (simpl; lia)).
  rewrite preamble_flip, bind_Some. cbv beta iota.
  set (k := Z.of_nat (length pre) mod 256) in *.
  rewrite length_app, repeat_app.
  rewrite <- app_comm_cons.
  rewrite (feed_cons_continue _ start _ _ (set_state T1 (construct raw)));
    [| reflexivity
     | simpl v_decode; unfold OregonDecoder_v1.decode, OregonDecoder_v1.decode_switch;
       cbn [state set_flip construct resetDecoder flip];
       settle_cmp; reflexivity ].
  rewrite <- app_comm_cons.
  rewrite (feed_cons_continue _ t1 _ _ (set_state T2 (construct raw)));
    [| reflexivity
     | simpl v_decode; unfold OregonDecoder_v1.decode, OregonDecoder_v1.decode_switch;
       cbn [state set_state construct resetDecoder];
       settle_cmp; reflexivity ].
  rewrite app_nil_l.
  destruct Hfirst as [(-> & t2 & -> & Ht2) | (-> & t2 & w & -> & Ht2 & Hw)].
  - rewrite (feed_one_continue _ t2 _
               (DecodeOOK.gotBit 0 (set_flip 0 (construct raw))));
      [reflexivity | reflexivity |].
    simpl v_decode. unfold OregonDecoder_v1.decode, OregonDecoder_v1.decode_switch.
    cbn [state set_state construct resetDecoder].
    settle_cmp. reflexivity.
  - unfold v1_short in Hw.
    rewrite (feed_cons_continue _ t2 _ _ (set_state T0 (set_flip 1 (construct raw))));
      [| reflexivity
       | simpl v_decode; unfold OregonDecoder_v1.decode, OregonDecoder_v1.decode_switch;
         cbn [state set_state construct resetDecoder];
         settle_cmp; reflexivity ].
    rewrite (feed_one_continue _ w _
               (DecodeOOK.gotBit 1 (set_flip 1 (construct raw))));
      [reflexivity | reflexivity |].
    simpl v_decode. unfold OregonDecoder_v1.decode, OregonDecoder_v1.decode_switch.
    cbn [state set_state set_flip construct resetDecoder].
    settle_cmp. reflexivity.
Qed.

(** The answers and the final object of the v1 classifier on a
    transmission of a 4-byte packet. *)
Lemma v1_transmission_final raw P ws :
  length (data raw) = 25%nat -> bytes (data raw) ->
  length P = 4%nat -> bytes P -> v1_transmission P ws ->
  exists n b0 f,
    is_bit b0 /\ length ws = S n /\
    feed OregonDecoder_v1.decoder ws (construct raw)
    = Some (repeat false n ++ [true],
            set_state DONE
              (set_flip f (append_bits DecodeOOK.gotBit (bits_of_packet P)
                             (set_flip b0 (construct raw))))).
Proof.
  intros Hl Hb HP HPb
    (pre & start & t1 & first & b0 & bs & rest & -> & Hpre & Hk & Hstart & Ht1
     & Ebits & Hfirst & Henc).
  assert (Hb0 : is_bit b0).
  { pose proof (bits_of_packet_bits P) as H. rewrite Ebits in H.
    inversion H; assumption. }
  assert (Hf : is_byte b0) by (unfold is_bit, is_byte in *; lia).
  assert (Hlen : length (b0 :: bs) = 32%nat).
  { rewrite <- Ebits, bits_of_packet_length, HP. reflexivity. }
  simpl length in Hlen.
  pose proof (v1_sync raw pre start t1 first b0 Hpre Hk Hstart Ht1 Hfirst) as E1.
  set (s0 := set_flip b0 (construct raw)) in *.
  assert (Hs0 : wf s0).
  { apply set_flip_wf; [assumption | apply resetDecoder_wf; assumption]. }
  destruct (gotBit_step b0 s0 Hs0 ltac:(simpl; lia)) as (Kst & Kf & Kt & Kn).
  change (flip s0) with b0 in Kf.
  change (to_byte (total_bits s0 + 1)) with 1 in Kt.
  destruct (v1_completes_last b0 bs rest Henc (DecodeOOK.gotBit b0 s0))
    as (n & Eln & E2).
  - apply gotBit_wf, Hs0.
  - exact Kst.
  - exact Kf.
  - exact Hb0.
  - apply gotBit_consistent; [exact Hs0 | reflexivity].
  - rewrite Kt. lia.
  - rewrite Kt. lia.
  - exists (length (pre ++ [start; t1] ++ first) + n)%nat, b0, (List.last bs b0).
    split; [exact Hb0 |].
    replace (pre ++ [start; t1] ++ first ++ rest)
      with ((pre ++ [start; t1] ++ first) ++ rest)
      by (rewrite <- !app_assoc; reflexivity).
    split; [rewrite length_app, Eln; lia |].
    rewrite feed_app, E1, bind_Some. cbv beta iota.
    rewrite E2, bind_Some. cbv beta iota. rewrite Ebits.
    rewrite repeat_app, <- app_assoc. reflexivity.
Qed.

(** X14. The v1 classifier decodes a transmission.  Whatever its buffer held
    when it was constructed, a v1 classifier that receives the pulses of a
    transmission of a 4-byte packet answers false at every pulse but the
    last, is DONE at the last pulse and hands out these 4 bytes, in order. *)
Theorem v1_decodes_transmission :
  forall (raw : t) (P ws : list Z),
    length (data raw) = 25%nat -> bytes (data raw) ->
    length P = 4%nat -> bytes P -> v1_transmission P ws ->
    exists s',
      feed OregonDecoder_v1.decoder ws (construct raw)
      = Some (repeat false (length ws - 1) ++ [true], s')
      /\ isDone s' = true
      /\ fst (getData s') = 4
      /\ take 4 (snd (getData s')) = P.
Proof.
  intros raw P ws Hl Hb HP HPb Htr.
  destruct (v1_transmission_final raw P ws Hl Hb HP HPb Htr)
    as (n & b0 & f & Hb0 & Eln & E).
  eexists. split.
  { rewrite Eln. replace (S n - 1)%nat with n by lia. exact E. }
  split; [reflexivity |].
  destruct (packet_stored_aux (set_flip b0 (construct raw)) P) as (Kp & _ & Kd);
    try assumption; try reflexivity; [| lia |].
  - apply set_flip_wf; [| apply resetDecoder_wf; assumption].
    unfold is_bit, is_byte in *. lia.
  - rewrite HP in Kp, Kd. split; [exact Kp | exact Kd].
Qed.

Lemma v1_waveform_transmission P :
  P <> [] -> v1_transmission P (v1_waveform P).
Proof.
  intros HP. unfold v1_transmission, v1_waveform.
  pose proof (bits_of_packet_bits P) as Hbits.
  pose proof (bits_of_packet_length P) as Hlen.
  destruct (bits_of_packet P) as [| b0 bs] eqn:E.
  { destruct P; [contradiction | simpl in Hlen; lia]. }
  inversion Hbits as [| ? ? Hb0 Hbs]; subst.
  exists (repeat 1000 22), 3000, 5700,
    (if b0 =? 0 then [6600] else [5000; 1000]), b0, bs, (encode 1000 3000 b0 bs).
  split; [reflexivity |].
  split; [apply Forall_repeat; unfold v1_short; lia |].
  split; [rewrite repeat_length; vm_compute; discriminate |].
  split; [unfold v1_long; lia |]. split; [lia |]. split; [reflexivity |].
  split.
  - destruct Hb0 as [-> | ->]; [left | right]; (split; [reflexivity |]).
    + exists 6600. split; [reflexivity | lia].
    + exists 5000, 1000. split; [reflexivity |]. unfold v1_short. lia.
  - apply encode_sound; try assumption; unfold v1_short, v1_long; lia.
Qed.

Lemma v1_decodes_transmission_witness :
  exists s',
    feed OregonDecoder_v1.decoder (v1_waveform packet_v1_code1) (construct fresh)
    = Some (repeat false (length (v1_waveform packet_v1_code1) - 1) ++ [true], s')
    /\ isDone s' = true
    /\ fst (getData s') = 4
    /\ take 4 (snd (getData s')) = packet_v1_code1.
Proof.
  apply (v1_decodes_transmission fresh packet_v1_code1 (v1_waveform packet_v1_code1)).
  - reflexivity.
  - apply Forall_repeat. unfold is_byte. lia.
  - reflexivity.
  - repeat constructor; unfold is_byte; lia.
  - apply v1_waveform_transmission. discriminate.
Defined.

(** ** The v2.1 classifier keeps the first bit of every pair *)

Lemma doubled_bits bs os : Forall is_bit bs -> doubled bs os -> Forall is_bit os.
Proof.
  intros Hbs H. induction H as [| b c bs os Hc H IH]; [constructor |].
  inversion Hbs; subst. constructor; [assumption |]. constructor; [assumption |].
  apply IH. assumption.
Qed.

Lemma doubled_length bs os : doubled bs os -> length os = (2 * length bs)%nat.
Proof.
  induction 1 as [| b c bs os Hc H IH]; [reflexivity |]. simpl. lia.
Qed.

Lemma committed_written b s : is_bit b -> committed b s = written b s.
Proof. intros [-> | ->]; reflexivity. Qed.

(** Two consecutive calls of the v2.1 [gotBit], the count of offered bits
    being even, against one call of the base [gotBit] on an object that
    holds the same cells, at the same position. *)
Lemma v2_pair_step b c s u m :
  is_bit b -> wf u -> m < 127 ->
  total_bits s = 2 * m -> pos s = m / 8 -> 0 <= m ->
  pos u = m / 8 -> bits u = m mod 8 -> data u = data s ->
  let s' := OregonDecoder_v2.gotBit c (OregonDecoder_v2.gotBit b s) in
  let u' := DecodeOOK.gotBit b u in
  total_bits s' = 2 * (m + 1) /\ pos s' = (m + 1) / 8
  /\ bits s' = bits s /\ flip s' = flip s /\ state s' = OK
  /\ pos u' = (m + 1) / 8 /\ bits u' = (m + 1) mod 8 /\ data u' = data s'.
Proof.
  intros Hb Hu Hm Ht Hp H0 Hpu Hbu Hd s' u'. unfold s', u'.
  rewrite (v2_gotBit_cases c), (v2_gotBit_cases b).
  cbn [total_bits bits flip state pos data].
  rewrite Ht.
  rewrite (to_byte_small (2 * m + 1)) by (unfold is_byte; lia).
  replace (2 * m + 1 + 1) with (2 * (m + 1)) by lia.
  rewrite (to_byte_small (2 * (m + 1))) by (unfold is_byte; lia).
  replace (Z.even (2 * m + 1)) with false
    by (symmetry; rewrite Z.add_comm, Z.even_add_mul_2; reflexivity).
  replace (Z.even (2 * m)) with true
    by (symmetry; rewrite Z.even_mul; reflexivity).
  assert (Eq : 2 * (m + 1) / 16 = (m + 1) / 8).
  { change 16 with (2 * 8). rewrite Z.div_mul_cancel_l by lia. reflexivity. }
  rewrite Eq.
  split; [reflexivity |]. split; [reflexivity |]. split; [reflexivity |].
  split; [reflexivity |]. split; [reflexivity |].
  pose proof (wf_bits _ Hu) as Hbits. pose proof (wf_pos _ Hu) as Hpos.
  assert (Hp15 : m / 8 < 16) by (apply Z.div_lt_upper_bound; lia).
  rewrite gotBit_cases by assumption.
  assert (Ew : data (written b u) = data (committed b s)).
  { rewrite committed_written by assumption. unfold written. simpl.
    rewrite Hd, Hpu, Hp. reflexivity. }
  destruct (Z.ltb_spec (bits u) 7) as [H7 | H7].
  - cbn [pos bits data]. rewrite Hpu, Hbu.
    split; [| split; [| exact Ew]].
    + rewrite Hbu in H7. clear - H7 H0. Z.div_mod_to_equations. lia.
    + rewrite Hbu in H7. clear - H7 H0. Z.div_mod_to_equations. lia.
  - destruct (Z.ltb_spec (pos u) 24) as [H24 | H24]; [| lia].
    cbn [pos bits data]. rewrite Hpu.
    split; [| split; [| exact Ew]].
    + rewrite Hbu in H7, Hbits. clear - H7 Hbits H0. Z.div_mod_to_equations. lia.
    + rewrite Hbu in H7, Hbits. clear - H7 Hbits H0. Z.div_mod_to_equations. lia.
Qed.

Lemma v2_simulates_base bs os :
  doubled bs os ->
  forall s u m,
    Forall is_bit bs -> wf u -> 0 <= m -> m + Z.of_nat (length bs) <= 127 ->
    total_bits s = 2 * m -> pos s = m / 8 ->
    pos u = m / 8 -> bits u = m mod 8 -> data u = data s ->
    let s' := append_bits OregonDecoder_v2.gotBit os s in
    let u' := append_bits DecodeOOK.gotBit bs u in
    total_bits s' = 2 * (m + Z.of_nat (length bs))
    /\ pos s' = (m + Z.of_nat (length bs)) / 8
    /\ bits s' = bits s /\ flip s' = flip s
    /\ data s' = data u'.
Proof.
  induction 1 as [| b c bs os Hc H IH]; intros s u m Hbs Hu H0 Hm Ht Hp Hpu Hbu Hd.
  - simpl. rewrite Z.add_0_r. auto.
  - inversion Hbs as [| ? ? Hb Hbs']; subst.
    simpl length in Hm. rewrite Nat2Z.inj_succ in Hm.
    destruct (v2_pair_step b c s u m Hb Hu ltac:(lia) Ht Hp H0 Hpu Hbu Hd)
      as (Kt & Kp & Kb & Kf & _ & Kpu & Kbu & Kd).
    change (append_bits OregonDecoder_v2.gotBit (b :: c :: os) s)
      with (append_bits OregonDecoder_v2.gotBit os
              (OregonDecoder_v2.gotBit c (OregonDecoder_v2.gotBit b s))).
    change (append_bits DecodeOOK.gotBit (b :: bs) u)
      with (append_bits DecodeOOK.gotBit bs (DecodeOOK.gotBit b u)).
    destruct (IH (OregonDecoder_v2.gotBit c (OregonDecoder_v2.gotBit b s))
                 (DecodeOOK.gotBit b u) (m + 1))
      as (Jt & Jp & Jb & Jf & Jd);
      try assumption; try lia; [apply gotBit_wf, Hu |].
    cbv zeta. simpl length. rewrite Nat2Z.inj_succ.
    replace (m + Z.succ (Z.of_nat (length bs))) with (m + 1 + Z.of_nat (length bs)) by lia.
    rewrite Jt, Jp, Jb, Jf, Jd. auto.
Qed.

Lemma v2_keeps_first_aux s bs os :
  wf s -> total_bits s = 0 -> pos s = 0 -> bits s = 0 ->
  Forall is_bit bs -> doubled bs os -> (length bs <= 127)%nat ->
  data (append_bits OregonDecoder_v2.gotBit os s)
  = data (append_bits DecodeOOK.gotBit bs s)
  /\ total_bits (append_bits OregonDecoder_v2.gotBit os s) = 2 * Z.of_nat (length bs)
  /\ pos (append_bits OregonDecoder_v2.gotBit os s) = Z.of_nat (length bs) / 8
  /\ bits (append_bits OregonDecoder_v2.gotBit os s) = 0.
Proof.
  intros Hs Ht Hp Hb Hbs Hd Hn.
  destruct (v2_simulates_base bs os Hd s s 0) as (Kt & Kp & Kb & _ & Kd);
    try assumption; try reflexivity; try lia.
  rewrite Kt, Kp, Kb, Kd. rewrite Z.add_0_l. auto.
Qed.

(** X15. The v2.1 classifier keeps the first bit of every pair.  Offered the
    doubled bits of a message of at most 127 bits, from the start of a
    packet, the v2.1 [gotBit] leaves in the buffer what the base [gotBit]
    leaves when it is offered the bits of the message themselves; the
    second bit of each pair has no effect on the buffer.  The count of
    offered bits is twice the number of bits and the position is the
    number of complete bytes. *)
Theorem v2_keeps_first_of_each_pair :
  forall (s : t) (bs os : list Z),
    wf s -> total_bits s = 0 -> pos s = 0 -> bits s = 0 ->
    Forall is_bit bs -> doubled bs os -> (length bs <= 127)%nat ->
    let s' := append_bits OregonDecoder_v2.gotBit os s in
    data s' = data (append_bits DecodeOOK.gotBit bs s)
    /\ total_bits s' = 2 * Z.of_nat (length bs)
    /\ pos s' = Z.of_nat (length bs) / 8
    /\ bits s' = 0.
Proof.
  intros s bs os Hs Ht Hp Hb Hbs Hd Hn. cbv zeta.
  apply v2_keeps_first_aux; assumption.
Qed.

Lemma v2_keeps_first_of_each_pair_witness :
  let os := [1; 0; 0; 1; 1; 1; 0; 0] in
  let s' := append_bits OregonDecoder_v2.gotBit os fresh in
  data s' = data (append_bits DecodeOOK.gotBit [1; 0; 1; 0] fresh)
  /\ total_bits s' = 2 * Z.of_nat (length [1; 0; 1; 0])
  /\ pos s' = Z.of_nat (length [1; 0; 1; 0]) / 8
  /\ bits s' = 0.
Proof.
  apply (v2_keeps_first_of_each_pair fresh [1; 0; 1; 0] [1; 0; 0; 1; 1; 1; 0; 0]
           fresh_wf eq_refl eq_refl eq_refl).
  - apply is_bit_forallb. reflexivity.
  - repeat (constructor; [unfold is_bit; lia |]). constructor.
  - simpl. lia.
Defined.

(** ** The v2.1 classifier on a whole transmission *)

Lemma v2_append_bits_state bs :
  forall s, state s = OK -> state (append_bits OregonDecoder_v2.gotBit bs s) = OK.
Proof.
  induction bs as [| b bs IH]; intros s Hst; [exact Hst |].
  change (append_bits OregonDecoder_v2.gotBit (b :: bs) s)
    with (append_bits OregonDecoder_v2.gotBit bs (OregonDecoder_v2.gotBit b s)).
  apply IH, v2_gotBit_state.
Qed.

(** The v2.1 classifier after the preamble, the short pulse that ends it
    and the short pulse of the first bit. *)
Lemma v2_sync raw pre sh w0 :
  Forall v2_long pre -> 24 <= Z.of_nat (length pre) mod 256 ->
  v2_short sh -> v2_short w0 ->
  feed OregonDecoder_v2.decoder (pre ++ [sh; w0]) (construct raw)
  = Some (repeat false (length (pre ++ [sh; w0])),
          OregonDecoder_v2.gotBit 0 (construct raw)).
Proof.
  intros Hpre Hk Hsh Hw0. unfold v2_short in Hsh, Hw0.
  rewrite feed_app, v2_preamble_count by (assumption || reflexivity).
  rewrite preamble_flip, bind_Some. cbv beta iota.
  set (k := Z.of_nat (length pre) mod 256) in *.
  rewrite length_app, repeat_app.
  rewrite (feed_cons_continue _ sh _ _ (set_state T0 (construct raw)));
    [| reflexivity
     | simpl v_decode; unfold OregonDecoder_v2.decode, OregonDecoder_v2.decode_switch;
       cbn [state set_flip construct resetDecoder flip];
       settle_cmp; reflexivity ].
  rewrite (feed_one_continue _ w0 _ (OregonDecoder_v2.gotBit 0 (construct raw)));
    [reflexivity | reflexivity |].
  simpl v_decode. unfold OregonDecoder_v2.decode, OregonDecoder_v2.decode_switch.
  cbn [state set_state construct resetDecoder].
  settle_cmp. cbn [negb andb].
  rewrite manchester_0 by (left; reflexivity).
  cbn [flip set_state resetDecoder].
  rewrite v2_gotBit_set_state. reflexivity.
Qed.

(** [nextPulse] of the v2.1 classifier at the silence that ends a packet. *)
Lemma v2_nextPulse_end w s :
  isDone s = false -> 2500 <= w -> 8 <= pos s -> bits s = 0 ->
  nextPulse OregonDecoder_v2.decoder w s = Some (true, set_state DONE s).
Proof.
  intros Hd Hw Hp Hb. unfold nextPulse. rewrite Hd. simpl v_decode.
  unfold OregonDecoder_v2.decode. settle_cmp. cbn [andb].
  change (1 =? -1) with false. change (1 =? 1) with true. cbv iota.
  unfold done. rewrite done_loop_boundary by assumption. reflexivity.
Qed.

(** The final object of the v2.1 classifier on a transmission. *)
Lemma v2_transmission_final raw P ws :
  length (data raw) = 25%nat -> bytes (data raw) ->
  (8 <= length P <= 15)%nat -> v2_transmission P ws ->
  exists os f,
    doubled (bits_of_packet P) os /\
    feed OregonDecoder_v2.decoder ws (construct raw)
    = Some (repeat false (length ws - 1) ++ [true], set_state DONE
                  (set_flip f (append_bits OregonDecoder_v2.gotBit os
                                 (construct raw)))).
Proof.
  intros Hl Hb HP
    (pre & sh & w0 & os & rest & wend & -> & Hpre & Hk & Hsh & Hw0 & Hd & Henc & Hend).
  pose proof (v2_sync raw pre sh w0 Hpre Hk Hsh Hw0) as E1.
  set (s1 := OregonDecoder_v2.gotBit 0 (construct raw)) in *.
  pose proof (v2_nextPulse_roundtrip 0 os rest Henc s1 (v2_gotBit_state _ _)
                (v2_gotBit_flip _ _) ltac:(left; reflexivity)) as E2.
  change (append_bits OregonDecoder_v2.gotBit os s1)
    with (append_bits OregonDecoder_v2.gotBit (0 :: os) (construct raw)) in E2.
  set (s2 := set_flip (List.last os 0)
               (append_bits OregonDecoder_v2.gotBit (0 :: os) (construct raw))) in *.
  destruct (v2_keeps_first_aux (construct raw) (bits_of_packet P) (0 :: os))
    as (_ & _ & Kp & Kb);
    try assumption; try reflexivity;
    [apply resetDecoder_wf; assumption | apply bits_of_packet_bits
     | rewrite bits_of_packet_length; lia |].
  rewrite bits_of_packet_length in Kp.
  assert (Ep : pos s2 = Z.of_nat (length P)).
  { change (pos s2)
      with (pos (append_bits OregonDecoder_v2.gotBit (0 :: os) (construct raw))).
    rewrite Kp, Nat2Z.inj_mul. change (Z.of_nat 8) with 8.
    rewrite Z.mul_comm. apply Z.div_mul. lia. }
  assert (E3 : nextPulse OregonDecoder_v2.decoder wend s2
               = Some (true, set_state DONE s2)).
  { apply v2_nextPulse_end; [| assumption | lia | exact Kb].
    unfold isDone. change (state s2)
      with (state (append_bits OregonDecoder_v2.gotBit os s1)).
    rewrite v2_append_bits_state by apply v2_gotBit_state. reflexivity. }
  exists (0 :: os), (List.last os 0). split; [exact Hd |].
  replace (pre ++ [sh; w0] ++ rest ++ [wend])
    with ((pre ++ [sh; w0]) ++ rest ++ [wend])
    by (rewrite <- !app_assoc; reflexivity).
  rewrite feed_app, E1, bind_Some. cbv beta iota.
  rewrite feed_app, E2, bind_Some. cbv beta iota.
  rewrite feed_one, E3, bind_Some. cbv beta iota.
  rewrite !length_app. simpl length.
  replace (length pre + 2 + (length rest + 1) - 1)%nat
    with (length pre + 2 + length rest)%nat by lia.
  rewrite (repeat_app _ (length pre + 2)), <- app_assoc. reflexivity.
Qed.

Lemma words_forallb (ws : list Z) :
  forallb (fun w => (0 <=? w) && (w <? 65536)) ws = true ->
  Forall (fun w => 0 <= w < 65536) ws.
Proof.
  induction ws as [| w ws IH]; intros H; [constructor |].
  simpl in H. apply andb_prop in H. destruct H as [Hw H].
  apply andb_prop in Hw. constructor; [lia | apply IH, H].
Qed.

(** X16. The v2.1 classifier decodes a transmission.  Whatever its buffer held
    when it was constructed, a v2.1 classifier that receives the pulses of
    a transmission of a packet of 8 to 15 bytes is DONE at the silence that
    ends it, having answered false at every pulse before, and hands out
    these bytes, in order, with their count.  The widths are those
    [nextPulse] can be called with: values of a 16-bit [word]. *)
Theorem v2_decodes_transmission :
  forall (raw : t) (P ws : list Z),
    length (data raw) = 25%nat -> bytes (data raw) ->
    (8 <= length P <= 15)%nat -> bytes P -> v2_transmission P ws ->
    Forall (fun w => 0 <= w < 65536) ws ->
    exists s',
      feed OregonDecoder_v2.decoder ws (construct raw)
      = Some (repeat false (length ws - 1) ++ [true], s')
      /\ isDone s' = true
      /\ fst (getData s') = Z.of_nat (length P)
      /\ take (length P) (snd (getData s')) = P.
Proof.
  intros raw P ws Hl Hb HP HPb Htr _.
  destruct (v2_transmission_final raw P ws Hl Hb HP Htr) as (os & f & Hd & E).
  assert (Hs : wf (construct raw)) by (apply resetDecoder_wf; assumption).
  destruct (v2_keeps_first_aux (construct raw) (bits_of_packet P) os)
    as (Kd & _ & Kp & _);
    try assumption; try reflexivity;
    [apply bits_of_packet_bits | rewrite bits_of_packet_length; lia |].
  destruct (packet_stored_aux (construct raw) P) as (_ & _ & Jd);
    try assumption; try reflexivity; [lia |].
  eexists. split; [exact E |]. split; [reflexivity |].
  simpl fst. simpl snd. cbn [pos data set_state set_flip].
  split.
  - rewrite Kp, bits_of_packet_length, Nat2Z.inj_mul. change (Z.of_nat 8) with 8.
    rewrite Z.mul_comm. apply Z.div_mul. lia.
  - rewrite Kd. exact Jd.
Qed.

Lemma doubled_flat_map bs :
  Forall is_bit bs -> doubled bs (flat_map (fun b => [b; 1 - b]) bs).
Proof.
  induction 1 as [| b bs Hb Hbs IH]; [constructor |].
  simpl. constructor; [| exact IH]. unfold is_bit in *. lia.
Qed.

Lemma bits_of_packet_head p P :
  bits_of_packet (p :: P)
  = Z.b2z (Z.odd p) :: tl (bits_of_byte p) ++ bits_of_packet P.
Proof.
  change (bits_of_packet (p :: P)) with (bits_of_byte p ++ bits_of_packet P).
  unfold bits_of_byte. cbn [seq map tl app]. rewrite Z.bit0_odd. reflexivity.
Qed.

Lemma v2_waveform_transmission p P :
  Z.even p = true -> v2_transmission (p :: P) (v2_waveform (p :: P)).
Proof.
  intros Hp. unfold v2_transmission, v2_waveform.
  pose proof (doubled_flat_map _ (bits_of_packet_bits (p :: P))) as Hd.
  pose proof (bits_of_packet_bits (p :: P)) as Hbits.
  rewrite bits_of_packet_head in *.
  rewrite <- Z.negb_even, Hp in *. cbn [negb Z.b2z] in *.
  set (bs := tl (bits_of_byte p) ++ bits_of_packet P) in *.
  cbn [flat_map app] in *.
  set (os := (1 - 0) :: flat_map (fun b => [b; 1 - b]) bs) in *.
  exists (repeat 900 24), 400, 400, os, (encode 400 900 0 os), 3000.
  split; [reflexivity |].
  split; [apply Forall_repeat; unfold v2_long; lia |].
  split; [rewrite repeat_length; vm_compute; discriminate |].
  split; [unfold v2_short; lia |]. split; [unfold v2_short; lia |].
  split; [exact Hd |]. split; [| lia].
  apply encode_sound; try (unfold v2_short, v2_long; lia); [left; reflexivity |].
  pose proof (doubled_bits _ _ Hbits Hd) as H. inversion H; assumption.
Qed.

Lemma v2_decodes_transmission_witness :
  exists s',
    feed OregonDecoder_v2.decoder (v2_waveform packet_v2) (construct fresh)
    = Some (repeat false (length (v2_waveform packet_v2) - 1) ++ [true], s')
    /\ isDone s' = true
    /\ fst (getData s') = Z.of_nat (length packet_v2)
    /\ take (length packet_v2) (snd (getData s')) = packet_v2.
Proof.
  apply (v2_decodes_transmission fresh packet_v2 (v2_waveform packet_v2)).
  - reflexivity.
  - apply Forall_repeat. unfold is_byte. lia.
  - simpl. lia.
  - repeat constructor; unfold is_byte; lia.
  - apply v2_waveform_transmission. reflexivity.
  - apply words_forallb. vm_compute. reflexivity.
Defined.

(** ** The cells the checksums look at *)

Lemma rd_take (d : list Z) (n : nat) i :
  0 <= i < Z.of_nat n -> rd (take n d) i = rd d i.
Proof.
  intros Hi. unfold rd. rewrite lookup_take_lt by lia. reflexivity.
Qed.


Lemma v2_checksum_cells d d' :
  (forall i, 0 <= i <= 8 -> rd d i = rd d' i) ->
  OregonDevice_v2.validateChecksum d = OregonDevice_v2.validateChecksum d'.
Proof.
  intros H.
  assert (Ep : OregonDevice_v2.getChecksumPos d = OregonDevice_v2.getChecksumPos d').
  { unfold OregonDevice_v2.getChecksumPos, OregonDevice_v2.identifier.
    rewrite !H by lia. reflexivity. }
  unfold OregonDevice_v2.validateChecksum. rewrite Ep.
  unfold OregonDevice_v2.getChecksumPos.
  destruct ((OregonDevice_v2.identifier d' =? to_int 0xea4c)
            || (OregonDevice_v2.identifier d' =? to_int 0x1a2d)); [| reflexivity].
  change (16 =? 0) with false. change (Z.land 16 1 =? 0) with true.
  change (Z.shiftr 16 1) with 8. cbv iota beta.
  do 8 (rewrite (nibble_loop_step _ d) by lia).
  do 8 (rewrite (nibble_loop_step _ d') by lia).
  rewrite !nibble_loop_exit by lia.
  repeat match goal with
         | |- context [Z.shiftr ?i 1] =>
             let v := eval vm_compute in (Z.shiftr i 1) in
             change (Z.shiftr i 1) with v
         end.
  rewrite !H by lia. reflexivity.
Qed.




Lemma v2_checksum_take d n :
  (9 <= n)%nat ->
  OregonDevice_v2.validateChecksum d = OregonDevice_v2.validateChecksum (take n d).
Proof.
  intros Hn. apply v2_checksum_cells. intros i Hi. rewrite rd_take by lia. reflexivity.
Qed.

(** ** A classifier does not hear the other protocol *)

Lemma manchester_enc_pulses (short long Q : Z -> Prop) prev bs ws :
  (forall w, short w -> Q w) -> (forall w, long w -> Q w) ->
  manchester_enc short long prev bs ws -> Forall Q ws.
Proof.
  intros Hs Hl. induction 1; constructor; auto.
Qed.


Lemma v2_transmission_range P ws :
  v2_transmission P ws ->
  exists ws' wend, ws = ws' ++ [wend] /\ Forall (fun w => 200 <= w < 1200) ws'
                   /\ 2500 <= wend.
Proof.
  intros (pre & sh & w0 & os & rest & wend & -> & Hpre & _ & Hsh & Hw0 & _ & Henc
          & Hend).
  unfold v2_short in Hsh, Hw0.
  exists (pre ++ [sh; w0] ++ rest), wend.
  split; [rewrite <- !app_assoc; reflexivity |]. split; [| exact Hend].
  apply Forall_app. split.
  { eapply Forall_impl; [exact Hpre |]. unfold v2_long. intros; lia. }
  constructor; [lia |]. constructor; [lia |]. cbn [app].
  apply (manchester_enc_pulses v2_short v2_long (fun w => 200 <= w < 1200)
           0 os rest); [| | exact Henc]; unfold v2_short, v2_long; intros; lia.
Qed.


(** One pulse offered to a v1 classifier that waits for a preamble and
    holds no bit: the answer is false. *)
Lemma v1_unknown_pulse w s :
  state s = UNKNOWN -> total_bits s = 0 ->
  exists s1, nextPulse OregonDecoder_v1.decoder w s = Some (false, s1)
             /\ total_bits s1 = 0 /\ state s1 <> DONE
             /\ (w < 2300 -> state s1 = UNKNOWN).
Proof.
  intros Hst Ht. unfold nextPulse, isDone. rewrite Hst. cbn [State_eqb].
  simpl v_decode. unfold OregonDecoder_v1.decode, OregonDecoder_v1.decode_switch.
  rewrite Hst.
  destruct ((900 <=? w) && (w <=? 7000)).
  - destruct (Z.leb_spec 2300 w); cbn [negb andb].
    + destruct (22 <=? flip s).
      * cbn [total_bits set_state set_flip]. rewrite Ht.
        change (32 <=? 0) with false. cbv iota.
        change (0 =? -1) with false. change (0 =? 1) with false. cbv iota.
        eexists. split; [reflexivity |]. split; [exact Ht |].
        split; [discriminate | lia].
      * change (-1 =? -1) with true. cbv iota.
        eexists. split; [reflexivity |]. split; [reflexivity |].
        split; [discriminate | reflexivity].
    + cbn [total_bits set_flip]. rewrite Ht.
      change (32 <=? 0) with false. cbv iota.
      change (0 =? -1) with false. change (0 =? 1) with false. cbv iota.
      eexists. split; [simpl; rewrite Hst; reflexivity |]. split; [exact Ht |].
      split; [simpl; rewrite Hst; discriminate | intros _; exact Hst].
  - change (-1 =? -1) with true. cbv iota.
    eexists. split; [reflexivity |]. split; [reflexivity |].
    split; [discriminate | reflexivity].
Qed.

(** The v1 classifier waiting for a preamble answers false on pulses
    shorter than 2300 microseconds, and at the pulse that follows them. *)
Lemma v1_deaf ws wend :
  forall s,
    state s = UNKNOWN -> total_bits s = 0 -> Forall (fun w => w < 2300) ws ->
    exists s',
      feed OregonDecoder_v1.decoder (ws ++ [wend]) s
      = Some (repeat false (length ws) ++ [false], s')
      /\ state s' <> DONE.
Proof.
  induction ws as [| w ws IH]; intros s Hst Ht Hws.
  - destruct (v1_unknown_pulse wend s Hst Ht) as (s1 & E1 & _ & Hd & _).
    exists s1. simpl app. rewrite feed_one, E1. split; [reflexivity | exact Hd].
  - inversion Hws as [| ? ? Hw Hws']; subst.
    destruct (v1_unknown_pulse w s Hst Ht) as (s1 & E1 & Ht1 & _ & Hst1).
    destruct (IH s1 (Hst1 Hw) Ht1 Hws') as (s' & E' & Hd').
    exists s'. rewrite <- app_comm_cons, feed_cons, E1, bind_Some. cbv beta iota.
    rewrite E', bind_Some. auto.
Qed.

(** ** From the edges of the signal to the callback *)

Lemma loop_body_eq p cb kk k s r s1 :
  nextPulse (decoder_of k) p s = Some (r, s1) ->
  loop_body p cb kk (mkDevice k s)
  = Some (calls_of kk k r s1 cb, mkDevice k (after_loop r s1)).
Proof.
  intros E. unfold loop_body, Device_nextPulse, calls_of, after_loop.
  cbn [kind dDecoder]. rewrite E. simpl.
  destruct r; [| reflexivity]. simpl.
  destruct (validateChecksum k (data s1)); [| reflexivity]. simpl.
  destruct cb; reflexivity.
Qed.

(** One edge on a bridge of two devices. *)
Lemma edge_two p p0 l0 cb k1 k2 s1 s2 r1 r2 s1' s2' :
  0 < p < 65536 ->
  nextPulse (decoder_of k1) p s1 = Some (r1, s1') ->
  nextPulse (decoder_of k2) p s2 = Some (r2, s2') ->
  edge p (mkBridge p0 l0 [mkDevice k1 s1; mkDevice k2 s2] cb)
  = Some (calls_of 0 k1 r1 s1' cb ++ calls_of 1 k2 r2 s2' cb,
          mkBridge 0 (to_word (l0 + p))
                   [mkDevice k1 (after_loop r1 s1'); mkDevice k2 (after_loop r2 s2')]
                   cb).
Proof.
  intros Hp E1 E2. unfold edge, externalInterrupt, loop.
  cbn [pulse last devices usrCallbackfunc].
  replace (l0 + p - l0) with p by lia.
  assert (Ew : to_word p = p).
  { unfold to_word. apply Z.mod_small. change (2 ^ 16) with 65536. lia. }
  rewrite Ew.
  destruct (Z.eqb_spec p 0) as [E0 | _]; [lia |].
  cbn [loop_devices].
  rewrite (loop_body_eq _ _ _ _ _ _ _ E1), bind_Some. cbv beta iota.
  rewrite (loop_body_eq _ _ _ _ _ _ _ E2), bind_Some. cbv beta iota.
  rewrite !bind_Some. cbv beta iota. rewrite app_nil_r. reflexivity.
Qed.

Lemma feed_cons_inv D w ws s rs s' :
  feed D (w :: ws) s = Some (rs, s') ->
  exists r s1 rs0,
    nextPulse D w s = Some (r, s1) /\ feed D ws s1 = Some (rs0, s')
    /\ rs = r :: rs0.
Proof.
  rewrite feed_cons. intros E.
  destruct (nextPulse D w s) as [[r s1] |] eqn:E1; [| discriminate].
  rewrite bind_Some in E. cbv beta iota in E.
  destruct (feed D ws s1) as [[rs0 s2] |] eqn:E2; [| discriminate].
  rewrite bind_Some in E. cbv beta iota in E. inversion E; subst.
  exists r, s1, rs0. split; [reflexivity |]. split; [exact E2 | reflexivity].
Qed.

Lemma feed_length D ws :
  forall s rs s', feed D ws s = Some (rs, s') -> length rs = length ws.
Proof.
  induction ws as [| w ws IH]; intros s rs s' E.
  - inversion E. reflexivity.
  - destruct (feed_cons_inv _ _ _ _ _ _ E) as (r & s1 & rs0 & _ & E' & ->).
    simpl. f_equal. eapply IH, E'.
Qed.

Lemma run_pulses_cons p ps b :
  run_pulses (p :: ps) b
  = '(c1, b1) ← edge p b; '(c2, b2) ← run_pulses ps b1; Some (c1 ++ c2, b2).
Proof. reflexivity. Qed.

(** A bridge of two devices whose decoders both answer false until the
    last edge. *)
Lemma run_two n :
  forall ws k1 k2 cb s1 s2 p0 l0 r1 r2 s1' s2',
    Forall (fun w => 0 < w < 65536) ws ->
    feed (decoder_of k1) ws s1 = Some (repeat false n ++ [r1], s1') ->
    feed (decoder_of k2) ws s2 = Some (repeat false n ++ [r2], s2') ->
    exists l',
      run_pulses ws (mkBridge p0 l0 [mkDevice k1 s1; mkDevice k2 s2] cb)
      = Some (calls_of 0 k1 r1 s1' cb ++ calls_of 1 k2 r2 s2' cb,
              mkBridge 0 l'
                       [mkDevice k1 (after_loop r1 s1'); mkDevice k2 (after_loop r2 s2')]
                       cb).
Proof.
  induction n as [| n IH]; intros ws k1 k2 cb s1 s2 p0 l0 r1 r2 s1' s2' Hws E1 E2.
  - pose proof (feed_length _ _ _ _ _ E1) as Hl. simpl in Hl.
    destruct ws as [| w [| w' ws]]; try discriminate Hl.
    inversion Hws as [| ? ? Hw _]; subst.
    destruct (feed_cons_inv _ _ _ _ _ _ E1) as (r & t1 & rs0 & N1 & F1 & R1).
    destruct (feed_cons_inv _ _ _ _ _ _ E2) as (r' & t2 & rs0' & N2 & F2 & R2).
    inversion F1; subst. inversion F2; subst.
    inversion R1; subst. inversion R2; subst.
    exists (to_word (l0 + w)).
    rewrite run_pulses_cons, (edge_two _ _ _ _ _ _ _ _ _ _ _ _ Hw N1 N2), bind_Some.
    cbv beta iota. simpl. rewrite app_nil_r. reflexivity.
  - destruct ws as [| w ws].
    { apply feed_length in E1. rewrite length_app in E1. simpl in E1. lia. }
    inversion Hws as [| ? ? Hw Hws']; subst.
    destruct (feed_cons_inv _ _ _ _ _ _ E1) as (r & t1 & rs0 & N1 & F1 & R1).
    destruct (feed_cons_inv _ _ _ _ _ _ E2) as (r' & t2 & rs0' & N2 & F2 & R2).
    simpl in R1, R2. inversion R1; subst. inversion R2; subst.
    destruct (IH ws k1 k2 cb t1 t2 0 (to_word (l0 + w)) r1 r2 s1' s2' Hws' F1 F2)
      as (l' & Er).
    exists l'.
    rewrite run_pulses_cons, (edge_two _ _ _ _ _ _ _ _ _ _ _ _ Hw N1 N2), bind_Some.
    cbv beta iota. unfold after_loop at 1 2. unfold calls_of at 1 2.
    cbn [andb app]. rewrite Er, bind_Some. reflexivity.
Qed.



(** X19. The bridge delivers a v2.1 packet.  The same bridge receives the edges
    of a v2.1 transmission of a packet of 9 to 15 bytes, every interval
    being shorter than 65536 microseconds.  The callback is invoked once,
    at the silence that ends the packet, for the v2.1 device, with a buffer
    that starts with the bytes of the packet, when a callback is
    registered and the checksum of the packet is right; otherwise it is
    never invoked.  The v2.1 decoder is then reset and the v1 decoder is
    not DONE. *)
Theorem bridge_delivers_v2_packet :
  forall (raw1 raw2 : t) (p0 l0 : Z) (cb : bool) (P ws : list Z),
    length (data raw1) = 25%nat -> bytes (data raw1) ->
    length (data raw2) = 25%nat -> bytes (data raw2) ->
    (9 <= length P <= 15)%nat -> bytes P -> v2_transmission P ws ->
    Forall (fun w => w < 65536) ws ->
    exists buf b' s1 s2,
      run_pulses ws
        (mkBridge p0 l0 [mkDevice Device_v1 (construct raw1);
                         mkDevice Device_v2 (construct raw2)] cb)
      = Some (if OregonDevice_v2.validateChecksum P && cb
              then [mkCall 1 Device_v2 buf] else [], b')
      /\ take (length P) buf = P
      /\ pulse b' = 0
      /\ devices b' = [mkDevice Device_v1 s1; mkDevice Device_v2 s2]
      /\ state s1 <> DONE /\ state s2 = UNKNOWN /\ fst (getData s2) = 0.
Proof.
  intros raw1 raw2 p0 l0 cb P ws Hl1 Hb1 Hl2 Hb2 HP HPb Htr Hlt.
  destruct (v2_transmission_range P ws Htr) as (ws' & wend & Ews & Hr & Hend).
  destruct (v2_transmission_final raw2 P ws Hl2 Hb2 ltac:(lia) Htr)
    as (os & f & Hd & E2).
  destruct (v1_deaf ws' wend (construct raw1) eq_refl eq_refl) as (s1 & E1 & Hst1).
  { eapply Forall_impl; [exact Hr |]. simpl. intros; lia. }
  rewrite <- Ews in E1.
  assert (Eln : (length ws - 1)%nat = length ws').
  { rewrite Ews, length_app. simpl. lia. }
  rewrite Eln in E2.
  assert (Hpos : Forall (fun w => 0 < w < 65536) ws).
  { rewrite Ews in Hlt |- *. apply Forall_app in Hlt. destruct Hlt as [_ Hlt].
    inversion Hlt; subst. apply Forall_app. split.
    - eapply Forall_impl; [exact Hr |]. simpl. intros; lia.
    - constructor; [lia | constructor]. }
  destruct (run_two (length ws') ws Device_v1 Device_v2 cb _ _ p0 l0 _ _ _ _
              Hpos E1 E2) as (l' & Er).
  assert (Hs : wf (construct raw2)) by (apply resetDecoder_wf; assumption).
  destruct (v2_keeps_first_aux (construct raw2) (bits_of_packet P) os)
    as (Kd & _ & _ & _);
    try assumption; try reflexivity;
    [apply bits_of_packet_bits | rewrite bits_of_packet_length; lia |].
  destruct (packet_stored_aux (construct raw2) P) as (_ & _ & Jd);
    try assumption; try reflexivity; [lia |].
  rewrite <- Kd in Jd.
  eexists _, _, _, _. split; [| split; [exact Jd |]].
  - rewrite Er. unfold calls_of. cbn [andb validateChecksum data set_state set_flip app].
    rewrite (v2_checksum_take _ (length P)), Jd by lia. reflexivity.
  - split; [reflexivity |]. split; [reflexivity |].
    split; [exact Hst1 |]. split; reflexivity.
Qed.


Lemma bridge_delivers_v2_packet_witness :
  exists buf b' s1 s2,
    run_pulses (v2_waveform packet_v2)
      (registerCallback (OregonBridge_construct 0 false))
    = Some (if OregonDevice_v2.validateChecksum packet_v2 && true
            then [mkCall 1 Device_v2 buf] else [], b')
    /\ take (length packet_v2) buf = packet_v2
    /\ pulse b' = 0
    /\ devices b' = [mkDevice Device_v1 s1; mkDevice Device_v2 s2]
    /\ state s1 <> DONE /\ state s2 = UNKNOWN /\ fst (getData s2) = 0.
Proof.
  apply (bridge_delivers_v2_packet
           (mk 0 0 0 UNKNOWN 0 (repeat 0 25)) (mk 0 0 0 UNKNOWN 0 (repeat 0 25))
           0 0 true packet_v2 (v2_waveform packet_v2)).
  - reflexivity.
  - apply Forall_repeat. unfold is_byte. lia.
  - reflexivity.
  - apply Forall_repeat. unfold is_byte. lia.
  - simpl. lia.
  - repeat constructor; unfold is_byte; lia.
  - apply v2_waveform_transmission. reflexivity.
  - apply List.Forall_forall. intros w Hw. apply Z.ltb_lt.
    revert w Hw. apply forallb_forall. vm_compute. reflexivity.
Defined.

(** ** The pulse slot *)

Lemma to_word_idemp_sub a b : to_word (a - to_word b) = to_word (a - b).
Proof. unfold to_word. apply Zminus_mod_idemp_r. Qed.

Lemma to_word_idemp_add a b : to_word (a + to_word b) = to_word (a + b).
Proof. unfold to_word. apply Zplus_mod_idemp_r. Qed.

Lemma externalInterrupt_last micros b :
  last (externalInterrupt micros b) = to_word micros.
Proof.
  unfold externalInterrupt. cbn [last]. rewrite to_word_idemp_add. f_equal. lia.
Qed.

Lemma loop_keeps b calls b' :
  loop b = Some (calls, b') ->
  pulse b' = 0 /\ last b' = last b /\ usrCallbackfunc b' = usrCallbackfunc b.
Proof.
  unfold loop. cbn [pulse last devices usrCallbackfunc].
  destruct (pulse b =? 0).
  - intros E. inversion E; subst. auto.
  - destruct (loop_devices (pulse b) (usrCallbackfunc b) 0 (devices b))
      as [[c ds] |]; simpl; intros E; [| discriminate].
    inversion E; subst. auto.
Qed.

(** X20. The interrupt measures the interval between two edges.  Whatever the
    bridge held, after an edge at time [t1], a call of [loop], and an edge
    at time [t2], the pulse slot holds [t2 - t1] modulo 65536, which is
    the interval itself when it is shorter than 65536 microseconds; the
    time of the first edge is kept modulo 65536 only. *)
Theorem interrupt_measures_interval :
  forall (b b1 : OregonBridge) (calls : list Call) (t1 t2 : Z),
    loop (externalInterrupt t1 b) = Some (calls, b1) ->
    pulse (externalInterrupt t2 b1) = to_word (t2 - t1)
    /\ last (externalInterrupt t2 b1) = to_word t2
    /\ (0 <= t2 - t1 < 65536 -> pulse (externalInterrupt t2 b1) = t2 - t1).
Proof.
  intros b b1 calls t1 t2 E.
  destruct (loop_keeps _ _ _ E) as (_ & El & _).
  rewrite externalInterrupt_last in El.
  assert (Ep : pulse (externalInterrupt t2 b1) = to_word (t2 - t1)).
  { unfold externalInterrupt. cbn [pulse]. rewrite El. apply to_word_idemp_sub. }
  split; [exact Ep |]. split; [apply externalInterrupt_last |].
  intros H. rewrite Ep. unfold to_word. apply Z.mod_small.
  change (2 ^ 16) with 65536. exact H.
Qed.

Lemma interrupt_measures_interval_witness :
  pulse (externalInterrupt 70400 (mkBridge 0 4464 [] false)) = to_word (70400 - 70000)
  /\ last (externalInterrupt 70400 (mkBridge 0 4464 [] false)) = to_word 70400
  /\ (0 <= 70400 - 70000 < 65536 ->
      pulse (externalInterrupt 70400 (mkBridge 0 4464 [] false)) = 70400 - 70000).
Proof.
  apply (interrupt_measures_interval (mkBridge 0 0 [] false) (mkBridge 0 4464 [] false)
           [] 70000 70400).
  reflexivity.
Defined.

(** X21. The slot holds one pulse.  When two edges arrive between two calls of
    [loop], the first interval is lost: the bridge is as if the second edge
    alone had been seen, with the interval between the two. *)
Theorem slot_holds_one_pulse :
  forall (b : OregonBridge) (t1 t2 : Z),
    externalInterrupt t2 (externalInterrupt t1 b)
    = mkBridge (to_word (t2 - t1)) (to_word t2) (devices b) (usrCallbackfunc b).
Proof.
  intros b t1 t2.
  pose proof (externalInterrupt_last t1 b) as El.
  pose proof (externalInterrupt_last t2 (externalInterrupt t1 b)) as El2.
  unfold externalInterrupt in *. cbn [pulse last devices usrCallbackfunc] in *.
  rewrite El2, El, to_word_idemp_sub. reflexivity.
Qed.

(** ** What [loop] leaves *)

Lemma nextPulse_answer D w s r s' :
  nextPulse D w s = Some (r, s') -> r = isDone s'.
Proof.
  unfold nextPulse. intros E.
  destruct (if isDone s then Some s
            else let '(r0, s1) := v_decode D w s in
                 if r0 =? -1 then Some (resetDecoder s1)
                 else if r0 =? 1 then done D s1 else Some s1) as [x |];
    simpl in E; [| discriminate].
  inversion E; reflexivity.
Qed.

Lemma loop_body_after p cb kk d calls d' :
  loop_body p cb kk d = Some (calls, d') ->
  kind d' = kind d /\ isDone (dDecoder d') = false
  /\ (cb = false -> calls = [])
  /\ loop_body p false kk d = Some ([], d').
Proof.
  intros E. destruct (loop_body_inv _ _ _ _ _ _ E) as (c & s1 & En & -> & ->).
  pose proof (nextPulse_answer _ _ _ _ _ En) as Ec.
  split; [reflexivity |]. split.
  - cbn [dDecoder]. destruct c; [reflexivity | symmetry; exact Ec].
  - split.
    + intros ->. rewrite andb_false_r. reflexivity.
    + destruct d as [k s]. cbn [kind dDecoder] in *.
      rewrite (loop_body_eq _ _ _ _ _ _ _ En). unfold calls_of, after_loop.
      rewrite andb_false_r. reflexivity.
Qed.

Lemma loop_devices_after p cb ds :
  forall kk calls ds',
    loop_devices p cb kk ds = Some (calls, ds') ->
    map kind ds' = map kind ds
    /\ Forall (fun d => isDone (dDecoder d) = false) ds'
    /\ (cb = false -> calls = [])
    /\ loop_devices p false kk ds = Some ([], ds').
Proof.
  induction ds as [| d ds IH]; intros kk calls ds' E.
  - inversion E; subst. repeat split; constructor.
  - cbn [loop_devices] in E |- *.
    destruct (loop_body p cb kk d) as [[c d'] |] eqn:Eb; [| discriminate].
    rewrite bind_Some in E. cbv beta iota in E.
    destruct (loop_devices p cb (S kk) ds) as [[c' ds''] |] eqn:Ed; [| discriminate].
    rewrite bind_Some in E. cbv beta iota in E. inversion E; subst.
    destruct (loop_body_after _ _ _ _ _ _ Eb) as (Hk & Hd & Hc & Hn).
    destruct (IH _ _ _ Ed) as (Ik & Id & Ic & In').
    split; [simpl; rewrite Hk, Ik; reflexivity |].
    split; [constructor; assumption |].
    split; [intros Hcb; rewrite (Hc Hcb), (Ic Hcb); reflexivity |].
    rewrite Hn, bind_Some. cbv beta iota. rewrite In', bind_Some. reflexivity.
Qed.

(** X22. What [loop] leaves.  After any call of [loop] that returns, the pulse
    slot is empty, so that a second call changes nothing and invokes
    nothing; the devices are the same classes in the same order; and when
    the slot held a pulse, no decoder is left DONE: a completed decoder is
    always reset before [loop] returns. *)
Theorem loop_leaves_bridge_idle :
  forall (b b' : OregonBridge) (calls : list Call),
    loop b = Some (calls, b') ->
    pulse b' = 0
    /\ loop b' = Some ([], b')
    /\ map kind (devices b') = map kind (devices b)
    /\ (pulse b <> 0 ->
        Forall (fun d => isDone (dDecoder d) = false) (devices b')).
Proof.
  intros b b' calls E.
  destruct (loop_keeps _ _ _ E) as (Hp & Hl & Hc).
  split; [exact Hp |]. split.
  { clear E Hl Hc. destruct b' as [p' l' ds' cb']. cbn [pulse] in Hp. subst p'.
    reflexivity. }
  unfold loop in E. cbn [pulse last devices usrCallbackfunc] in E.
  destruct (Z.eqb_spec (pulse b) 0) as [E0 | N0].
  - inversion E; subst. split; [reflexivity |]. intros H. contradiction.
  - destruct (loop_devices (pulse b) (usrCallbackfunc b) 0 (devices b))
      as [[c ds] |] eqn:Ed; simpl in E; [| discriminate].
    inversion E; subst. cbn [devices].
    destruct (loop_devices_after _ _ _ _ _ _ Ed) as (Hk & Hd & _ & _).
    split; [exact Hk |]. intros _. exact Hd.
Qed.

Lemma loop_leaves_bridge_idle_witness :
  pulse (mkBridge 0 0 [mkDevice Device_v1 (set_flip 1 fresh); mkDevice Device_v2 (set_flip 1 fresh)]
                  true) = 0
  /\ loop (mkBridge 0 0 [mkDevice Device_v1 (set_flip 1 fresh); mkDevice Device_v2 (set_flip 1 fresh)]
                    true)
     = Some ([], mkBridge 0 0 [mkDevice Device_v1 (set_flip 1 fresh);
                               mkDevice Device_v2 (set_flip 1 fresh)] true)
  /\ map kind [mkDevice Device_v1 (set_flip 1 fresh); mkDevice Device_v2 (set_flip 1 fresh)]
     = map kind (devices (bridge 1000))
  /\ (pulse (bridge 1000) <> 0 ->
      Forall (fun d => isDone (dDecoder d) = false)
             [mkDevice Device_v1 (set_flip 1 fresh); mkDevice Device_v2 (set_flip 1 fresh)]).
Proof.
  apply (loop_leaves_bridge_idle (bridge 1000)
           (mkBridge 0 0 [mkDevice Device_v1 (set_flip 1 fresh);
                          mkDevice Device_v2 (set_flip 1 fresh)] true) []).
  vm_compute. reflexivity.
Defined.

(** ** Which errors the checksums detect *)

Lemma v1_validate_eq d :
  bytes d ->
  OregonDevice_v1.validateChecksum d
  = ((rd d 0 + rd d 1 + rd d 2) mod 256 =? rd d 3).
Proof.
  intros Hb.
  pose proof (rd_bytes d 0 Hb) as H0. pose proof (rd_bytes d 1 Hb) as H1.
  pose proof (rd_bytes d 2 Hb) as H2. unfold is_byte in *.
  unfold OregonDevice_v1.validateChecksum, OregonDevice_v1.sum_of_bytes.
  cbn [fold_left].
  rewrite (to_uint_small (0 + rd d 0)) by lia.
  rewrite (to_uint_small (0 + rd d 0 + rd d 1)) by lia.
  rewrite (to_uint_small (0 + rd d 0 + rd d 1 + rd d 2)) by lia.
  rewrite land_0xff, Z.add_0_l. reflexivity.
Qed.

Lemma v2_validate_eq d :
  bytes d ->
  OregonDevice_v2.validateChecksum d
  = ((spec_identifier d =? 0xEA4C) || (spec_identifier d =? 0x1A2D))
    && ((spec_nibble_sum (map (rd d) [0; 1; 2; 3; 4; 5; 6; 7]) - 0x0A) mod 256
        =? rd d 8).
Proof.
  intros Hb. unfold OregonDevice_v2.validateChecksum.
  rewrite (getChecksumPos_spec d Hb).
  destruct ((spec_identifier d =? 0xEA4C) || (spec_identifier d =? 0x1A2D));
    [| reflexivity].
  change (16 =? 0) with false. change (Z.land 16 1 =? 0) with true.
  change (Z.shiftr 16 1) with 8. cbv iota beta.
  rewrite (nibble_sum_16 d Hb). unfold to_uint.
  rewrite (sub_mask_any_width 16) by lia. reflexivity.
Qed.

Lemma checksum_shift A x y c :
  0 <= x <= 30 -> 0 <= y <= 30 ->
  (A + y - 10) mod 256 = c -> ((A + x - 10) mod 256 = c <-> x = y).
Proof.
  intros Hx Hy Hc. split; [| intros ->; exact Hc].
  intros H. rewrite <- Hc in H. clear Hc.
  Z.div_mod_to_equations. lia.
Qed.

Lemma nibble_sum_range b : is_byte b -> 0 <= b / 16 + b mod 16 <= 30.
Proof. intros H. pose proof (nibbles_range b H). lia. Qed.

(** X24. The v1 checksum detects every error confined to one byte: in a buffer
    that passes [validateChecksum], replacing any one of the four bytes of
    the packet by a different byte makes it fail. *)
Theorem v1_checksum_detects_one_byte :
  forall (d : list Z) (i v : Z),
    bytes d -> (4 <= length d)%nat ->
    0 <= i <= 3 -> is_byte v -> v <> rd d i ->
    OregonDevice_v1.validateChecksum d = true ->
    OregonDevice_v1.validateChecksum (wr d i v) = false.
Proof.
  intros d i v Hb Hl Hi Hv Hne Hok.
  rewrite v1_validate_eq in Hok by assumption.
  rewrite v1_validate_eq by (apply wr_bytes; assumption).
  apply Z.eqb_eq in Hok. apply Z.eqb_neq.
  pose proof (rd_bytes d 0 Hb) as H0. pose proof (rd_bytes d 1 Hb) as H1.
  pose proof (rd_bytes d 2 Hb) as H2. pose proof (rd_bytes d 3 Hb) as H3.
  unfold is_byte in *.
  assert (C : i = 0 \/ i = 1 \/ i = 2 \/ i = 3) by lia.
  destruct C as [-> | [-> | [-> | ->]]];
    rewrite ?rd_wr_same by lia;
    rewrite ?(rd_wr_other d) by lia;
    rewrite ?rd_wr_same by lia;
    intros E; revert E Hne H0 H1 H2 H3 Hok Hv;
    generalize (rd d 0) (rd d 1) (rd d 2) (rd d 3);
    clear; intros; Z.div_mod_to_equations; lia.
Qed.

Lemma v1_checksum_detects_one_byte_witness :
  OregonDevice_v1.validateChecksum (wr packet_v1_code1 1 0x54) = false.
Proof.
  apply (v1_checksum_detects_one_byte packet_v1_code1 1 0x54).
  - repeat constructor; unfold is_byte; lia.
  - simpl. lia.
  - lia.
  - unfold is_byte. lia.
  - vm_compute. discriminate.
  - reflexivity.
Defined.

(** X25. The v2.1 checksum and errors confined to one byte.  In a buffer that
    passes [validateChecksum], replacing one of the bytes 2 to 7 leaves the
    answer true exactly when the new byte has the same sum of nibbles as
    the old one (so 0x12 for 0x21 goes unnoticed), and replacing the
    checksum byte 8 by a different byte always makes it fail. *)
Theorem v2_checksum_and_one_byte :
  forall (d : list Z) (i v : Z),
    bytes d -> (9 <= length d)%nat -> is_byte v ->
    OregonDevice_v2.validateChecksum d = true ->
    (2 <= i <= 7 ->
     (OregonDevice_v2.validateChecksum (wr d i v) = true
      <-> v / 16 + v mod 16 = rd d i / 16 + rd d i mod 16))
    /\ (OregonDevice_v2.validateChecksum (wr d 8 v) = true <-> v = rd d 8).
Proof.
  intros d i v Hb Hl Hv Hok.
  rewrite v2_validate_eq in Hok by assumption.
  apply andb_prop in Hok. destruct Hok as [Hk Hs]. apply Z.eqb_eq in Hs.
  assert (Hid : forall j, 2 <= j -> spec_identifier (wr d j v) = spec_identifier d).
  { intros j Hj. unfold spec_identifier. rewrite !rd_wr_other by lia. reflexivity. }
  pose proof (nibble_sum_range v Hv) as Nv.
  assert (N : forall j, 0 <= rd d j / 16 + rd d j mod 16 <= 30)
    by (intros j; apply nibble_sum_range, rd_bytes, Hb).
  split.
  - intros Hi.
    rewrite v2_validate_eq by (apply wr_bytes; assumption).
    rewrite Hid, Hk by lia. cbn [andb]. rewrite Z.eqb_eq.
    rewrite (rd_wr_other d i 8) by lia.
    pose proof (N i) as Ni.
    cbn [map spec_nibble_sum foldr] in Hs |- *.
    assert (C : i = 2 \/ i = 3 \/ i = 4 \/ i = 5 \/ i = 6 \/ i = 7) by lia.
    destruct C as [-> | [-> | [-> | [-> | [-> | ->]]]]];
      rewrite ?rd_wr_same by lia;
      rewrite ?(rd_wr_other d) by lia;
      rewrite ?rd_wr_same by lia;
      match goal with
      | |- (?S' - 10) mod 256 = _ <-> ?x = ?y =>
          match type of Hs with
          | (?S - 10) mod 256 = _ =>
              replace (S' - 10) with (S - y + x - 10) by lia;
              replace (S - 10) with (S - y + y - 10) in Hs by lia;
              apply (checksum_shift (S - y) x y _ Nv Ni Hs)
          end
      end.
  - rewrite v2_validate_eq by (apply wr_bytes; assumption).
    rewrite Hid, Hk by lia. cbn [andb]. rewrite Z.eqb_eq.
    rewrite rd_wr_same by lia.
    cbn [map]. rewrite !(rd_wr_other d 8) by lia.
    cbn [map] in Hs. rewrite Hs. split; intros H; symmetry; exact H.
Qed.

Lemma v2_checksum_and_one_byte_witness :
  (2 <= 3 <= 7 ->
   (OregonDevice_v2.validateChecksum (wr packet_v2 3 0xB8) = true
    <-> 0xB8 / 16 + 0xB8 mod 16 = rd packet_v2 3 / 16 + rd packet_v2 3 mod 16))
  /\ (OregonDevice_v2.validateChecksum (wr packet_v2 8 0xB8) = true
      <-> 0xB8 = rd packet_v2 8).
Proof.
  apply (v2_checksum_and_one_byte packet_v2 3 0xB8).
  - repeat constructor; unfold is_byte; lia.
  - simpl. lia.
  - unfold is_byte. lia.
  - reflexivity.
Defined.

(** ** The humidity *)

(** X26. The humidity of a v2.1 packet is ten times the low nibble of byte 7
    plus the high nibble of byte 6; the conversion to a byte never wraps,
    the value being at most 165, and at most 99 when both nibbles are
    decimal digits. *)
Theorem v2_getHumidity_digits :
  forall d : list Z,
    bytes d ->
    OregonDevice_v2.getHumidity d = 10 * (rd d 7 mod 16) + rd d 6 / 16
    /\ 0 <= OregonDevice_v2.getHumidity d <= 165
    /\ (rd d 7 mod 16 <= 9 -> rd d 6 / 16 <= 9 ->
        OregonDevice_v2.getHumidity d <= 99).
Proof.
  intros d Hb.
  pose proof (rd_bytes d 6 Hb) as H6. pose proof (rd_bytes d 7 Hb) as H7.
  pose proof (nibbles_range _ H6) as N6. pose proof (nibbles_range _ H7) as N7.
  assert (E : OregonDevice_v2.getHumidity d = 10 * (rd d 7 mod 16) + rd d 6 / 16).
  { unfold OregonDevice_v2.getHumidity.
    rewrite high_nibble_v2 by assumption.
    change 0xF with 0x0f. rewrite land15_byte.
    rewrite to_byte_small by (unfold is_byte; lia). lia. }
  rewrite E. split; [reflexivity |]. split; lia.
Qed.

Lemma v2_getHumidity_digits_witness :
  OregonDevice_v2.getHumidity packet_v2 = 10 * (rd packet_v2 7 mod 16) + rd packet_v2 6 / 16
  /\ 0 <= OregonDevice_v2.getHumidity packet_v2 <= 165
  /\ (rd packet_v2 7 mod 16 <= 9 -> rd packet_v2 6 / 16 <= 9 ->
      OregonDevice_v2.getHumidity packet_v2 <= 99).
Proof.
  apply (v2_getHumidity_digits packet_v2).
  repeat constructor; unfold is_byte; lia.
Defined.

(** ** The array of devices *)

(** X27. The array of devices never overflows.  [addDevice] keeps the devices
    already registered, in their positions, adds at most one and never
    goes beyond [DEVICES_NUM]; the constructor registers a v1 and a v2.1
    device, which fills the array, so that every later [addDevice] leaves
    the bridge as it is. *)
Theorem devices_array_never_overflows :
  forall (k : DeviceKind) (b : OregonBridge),
    Z.of_nat (length (devices b)) <= DEVICES_NUM ->
    Z.of_nat (length (devices (addDevice k b))) <= DEVICES_NUM
    /\ take (length (devices b)) (devices (addDevice k b)) = devices b
    /\ (forall p0 cb0,
           map kind (devices (OregonBridge_construct p0 cb0)) = [Device_v1; Device_v2]
           /\ addDevice k (OregonBridge_construct p0 cb0)
              = OregonBridge_construct p0 cb0).
Proof.
  intros k b Hn. unfold addDevice.
  destruct (Z.leb_spec DEVICES_NUM (Z.of_nat (length (devices b)))) as [Hfull | Hfree].
  - split; [exact Hn |]. split; [apply firstn_all |].
    intros p0 cb0. split; reflexivity.
  - cbn [devices]. split; [rewrite length_app; simpl; lia |].
    split; [rewrite take_app_length; reflexivity |].
    intros p0 cb0. split; reflexivity.
Qed.

Lemma devices_array_never_overflows_witness :
  Z.of_nat (length (devices (addDevice Device_v2 (mkBridge 0 0 [] false)))) <= DEVICES_NUM
  /\ take (length (devices (mkBridge 0 0 [] false)))
          (devices (addDevice Device_v2 (mkBridge 0 0 [] false)))
     = devices (mkBridge 0 0 [] false)
  /\ (forall p0 cb0,
         map kind (devices (OregonBridge_construct p0 cb0)) = [Device_v1; Device_v2]
         /\ addDevice Device_v2 (OregonBridge_construct p0 cb0)
            = OregonBridge_construct p0 cb0).
Proof.
  apply (devices_array_never_overflows Device_v2 (mkBridge 0 0 [] false)).
  simpl. unfold DEVICES_NUM. lia.
Defined.

(** ** Reset: what it restores and what it keeps *)

Lemma just_reset_resetDecoder s : just_reset (resetDecoder s) s.
Proof. repeat split. Qed.

Lemma just_reset_construct s' raw :
  just_reset s' raw ->
  s' = construct raw /\ s' = construct s'
  /\ (forall raw', s' = construct raw' <-> data raw' = data raw).
Proof.
  destruct s' as [tb b f st p d]. unfold just_reset, construct, resetDecoder.
  cbn [state total_bits bits pos flip data getData fst].
  intros (-> & -> & -> & -> & -> & _ & ->).
  split; [reflexivity |]. split; [reflexivity |].
  intros raw'. split.
  - intros E. injection E as E. symmetry. exact E.
  - intros ->. reflexivity.
Qed.

(** The pulses before the last one bring the decoder and the bridge to
    the objects named above. *)
Lemma v1_almost_complete_reached :
  feed OregonDecoder_v1.decoder (removelast (v1_waveform packet_v1_code1)) fresh
  = Some (repeat false 70, v1_almost_complete)
  /\ List.last (v1_waveform packet_v1_code1) 0 = v1_last_pulse
  /\ run_pulses (removelast (v1_waveform packet_v1_code1)) (bridge 0)
     = Some ([], bridge_before_last_edge).
Proof. repeat split; vm_compute; reflexivity. Qed.

Lemma v1_almost_complete_wf : wf v1_almost_complete.
Proof.
  constructor; try (unfold is_byte, sizeof_data; simpl; lia).
  apply Forall_app. split; [| apply Forall_repeat; unfold is_byte; lia].
  repeat constructor; unfold is_byte; lia.
Qed.

(** C8, as stated, fails: the reset does not give back the just-constructed
    object.  On the bridge as constructed, once the v2.1 packet
    1A 2D 20 8B 58 21 40 C7 4C 8C has been delivered and the dispatcher has
    reset the decoder, the decoder has the state and the counters of the
    constructed one but its buffer holds the ten bytes of the packet, and
    the difference shows: the next packet, of nine bytes, is handed over
    followed by the last byte of the first, which a just-constructed
    decoder does not do. *)
Lemma reset_keeps_the_cells :
  devices (bridge 0) !! 1%nat = Some (mkDevice Device_v2 fresh)
  /\ exists calls b' d,
      run_pulses (v2_waveform packet_v2) (bridge 0) = Some (calls, b')
      /\ devices b' !! 1%nat = Some d
      /\ state (dDecoder d) = UNKNOWN /\ total_bits (dDecoder d) = 0
      /\ bits (dDecoder d) = 0 /\ pos (dDecoder d) = 0 /\ flip (dDecoder d) = 0
      /\ data (dDecoder d) = packet_v2 ++ repeat 0 15
      /\ dDecoder d <> fresh
      /\ fst <$> run_pulses (v2_waveform packet_v2_code4) b'
         = Some [mkCall 1 Device_v2 (packet_v2_code4 ++ [0x8C] ++ repeat 0 15)]
      /\ fst <$> run_pulses (v2_waveform packet_v2_code4) (bridge 0)
         = Some [mkCall 1 Device_v2 (packet_v2_code4 ++ repeat 0 16)].
Proof.
  split; [reflexivity |].
  exists [mkCall 1 Device_v2 (packet_v2 ++ repeat 0 15)],
    (mkBridge 0 33528
       [mkDevice Device_v1 fresh;
        mkDevice Device_v2 (mk 0 0 0 UNKNOWN 0 (packet_v2 ++ repeat 0 15))] true),
    (mkDevice Device_v2 (mk 0 0 0 UNKNOWN 0 (packet_v2 ++ repeat 0 15))).
  split; [vm_compute; reflexivity |].
  repeat (split; [reflexivity |]).
  split; [discriminate |].
  split; vm_compute; reflexivity.
Qed.

(** C8, amended.  [loop] always gets an answer from the decoder and
    finishes the device.  After a completion followed by the reset of the
    dispatcher, and after a decode failure ([decode] returns -1 and
    [nextPulse] resets the decoder), the classifier has the state and the
    counters of a just-constructed one: state UNKNOWN, the total of bits,
    the bits of the current byte, the position and the flip accumulator
    zero, and a reported count of 0.  Its 25 cells are left as they were,
    with the bytes of the packet in them.  So the classifier is the
    constructor applied to the object it was, and it equals the
    construction of another object exactly when the two buffers hold the
    same cells. *)
Theorem reset_restores_constructed_state :
  forall (p : Z) (cb : bool) (kk : nat) (d : Device),
    device_ok d ->
    exists calls d' completed s1,
      loop_body p cb kk d = Some (calls, d')
      /\ nextPulse (decoder_of (kind d)) p (dDecoder d) = Some (completed, s1)
      /\ kind d' = kind d
      /\ (completed = true -> just_reset (dDecoder d') s1)
      /\ (completed = false -> dDecoder d' = s1)
      /\ (isDone (dDecoder d) = false ->
          fst (v_decode (decoder_of (kind d)) p (dDecoder d)) = -1 ->
          completed = false /\ just_reset s1 (dDecoder d))
      /\ (forall s' raw : t,
             just_reset s' raw ->
             s' = construct raw /\ s' = construct s'
             /\ (forall raw', s' = construct raw' <-> data raw' = data raw)).
Proof.
  intros p cb kk [k s] Hd. cbn [kind dDecoder].
  destruct (nextPulse_total k s p Hd) as (r & s1 & E & _ & _).
  exists (calls_of kk k r s1 cb), (mkDevice k (after_loop r s1)), r, s1.
  split; [apply loop_body_eq, E |]. split; [exact E |]. split; [reflexivity |].
  cbn [dDecoder]. split; [| split; [| split]].
  - intros ->. apply just_reset_resetDecoder.
  - intros ->. reflexivity.
  - intros Hdone Hf.
    pose proof (decode_failure_unchanged k p s Hf) as Hu.
    unfold nextPulse in E. rewrite Hdone in E.
    destruct (v_decode (decoder_of k) p s) as [c s2]. cbn [fst snd] in Hf, Hu.
    subst c s2. change (-1 =? -1) with true in E. cbv iota in E.
    rewrite bind_Some in E. injection E as <- <-.
    split; [reflexivity | apply just_reset_resetDecoder].
  - intros s' raw. apply just_reset_construct.
Qed.

Lemma reset_restores_constructed_state_witness :
  nextPulse OregonDecoder_v1.decoder v1_last_pulse v1_almost_complete
  = Some (true, mk 32 0 0 DONE 4 (packet_v1_code1 ++ repeat 0 21))
  /\ exists calls d' completed s1,
      loop_body v1_last_pulse true 0 (mkDevice Device_v1 v1_almost_complete)
      = Some (calls, d')
      /\ nextPulse (decoder_of Device_v1) v1_last_pulse v1_almost_complete
         = Some (completed, s1)
      /\ kind d' = Device_v1
      /\ (completed = true -> just_reset (dDecoder d') s1)
      /\ (completed = false -> dDecoder d' = s1)
      /\ (isDone v1_almost_complete = false ->
          fst (v_decode (decoder_of Device_v1) v1_last_pulse v1_almost_complete) = -1 ->
          completed = false /\ just_reset s1 v1_almost_complete)
      /\ (forall s' raw : t,
             just_reset s' raw ->
             s' = construct raw /\ s' = construct s'
             /\ (forall raw', s' = construct raw' <-> data raw' = data raw)).
Proof.
  split; [vm_compute; reflexivity |].
  apply (reset_restores_constructed_state v1_last_pulse true 0
           (mkDevice Device_v1 v1_almost_complete)).
  split; [apply v1_almost_complete_wf | discriminate].
Defined.

(** ** Delivery: once per packet *)

(** A decoder that has just been reset does not complete at the next
    pulse, whatever the pulse. *)
Lemma nextPulse_after_reset k p s :
  exists s', nextPulse (decoder_of k) p (resetDecoder s) = Some (false, s').
Proof.
  destruct k.
  - destruct (v1_unknown_pulse p (resetDecoder s) eq_refl eq_refl) as (s1 & E & _).
    exists s1. exact E.
  - unfold nextPulse, isDone. cbn [state resetDecoder State_eqb].
    change (decoder_of Device_v2) with OregonDecoder_v2.decoder. simpl v_decode.
    unfold OregonDecoder_v2.decode, OregonDecoder_v2.decode_switch.
    cbn [state flip pos resetDecoder].
    change (24 <=? 0) with false. change (8 <=? 0) with false.
    destruct ((200 <=? p) && (p <? 1200)); [destruct (700 <=? p) |];
      rewrite ?andb_false_r; cbn [negb andb]; eexists; reflexivity.
Qed.

Lemma loop_nonzero b :
  pulse b <> 0 ->
  loop b
  = '(calls, ds) ← loop_devices (pulse b) (usrCallbackfunc b) 0 (devices b);
    Some (calls, mkBridge 0 (last b) ds (usrCallbackfunc b)).
Proof.
  intros Hp. unfold loop. destruct (Z.eqb_spec (pulse b) 0); [contradiction |].
  reflexivity.
Qed.

(** The devices and the calls of one [loop] on a non-zero pulse. *)
Lemma loop_devices_spec p cb ds :
  Forall device_ok ds ->
  exists calls ds',
    loop_devices p cb 0 ds = Some (calls, ds')
    /\ Forall device_ok ds'
    /\ length ds' = length ds
    /\ Forall (fun d => isDone (dDecoder d) = false) ds'
    /\ (forall x, In x calls -> (call_device x < length ds)%nat)
    /\ (forall (kk : nat) d,
           ds !! kk = Some d ->
           exists completed s1,
             nextPulse (decoder_of (kind d)) p (dDecoder d) = Some (completed, s1)
             /\ List.filter (fun x => Nat.eqb (call_device x) kk) calls
                = (if completed && validateChecksum (kind d) (data s1) && cb
                   then [mkCall kk (kind d) (data s1)] else [])
             /\ ds' !! kk = Some (mkDevice (kind d)
                                    (if completed then resetDecoder s1 else s1))).
Proof.
  intros Hok.
  destruct (loop_devices_total p cb ds Hok 0%nat) as (calls & ds' & El & Hok').
  exists calls, ds'. split; [exact El |]. split; [exact Hok' |].
  destruct (loop_devices_after _ _ _ _ _ _ El) as (Hk & Hd & _ & _).
  split; [rewrite <- (length_map kind ds'), Hk; apply length_map |].
  split; [exact Hd |]. split.
  - intros x Hx. pose proof (loop_devices_call_range _ _ _ _ _ _ El x Hx). lia.
  - intros kk d Hkk.
    destruct (loop_devices_calls _ _ _ _ _ _ El kk d Hkk) as (c & d' & Eb & Ed & Ef).
    cbn [Nat.add] in Eb, Ef.
    destruct (loop_body_inv _ _ _ _ _ _ Eb) as (completed & s1 & En & Ec & Ed').
    exists completed, s1. split; [exact En |]. split; [rewrite Ef; exact Ec |].
    rewrite Ed, Ed'. reflexivity.
Qed.

(** C9. For a pulse processed by [loop] (a non-zero pulse, a callback
    being registered) and every registered device, the callback is invoked
    for that device exactly when its classifier reports completion for the
    pulse and [validateChecksum] accepts the decoded buffer, and then once,
    with that buffer; a packet failing its checksum produces no call, and
    no call is made for anything but a registered device.  The packet is
    consumed by the call: [loop] leaves the decoder of a device that has
    completed reset, with or without a call, and the others as
    [nextPulse] left them; no decoder is left DONE, so that no packet is
    delivered a second time: whatever the next pulse, the next [loop]
    makes no call for a device for which this one made a call. *)
Theorem callback_iff_completed_and_valid :
  forall b : OregonBridge,
    pulse b <> 0 ->
    usrCallbackfunc b = true ->
    Forall device_ok (devices b) ->
    exists calls b',
      loop b = Some (calls, b')
      /\ (forall (kk : nat) d,
             devices b !! kk = Some d ->
             exists completed s1,
               nextPulse (decoder_of (kind d)) (pulse b) (dDecoder d)
               = Some (completed, s1)
               /\ List.filter (fun x => Nat.eqb (call_device x) kk) calls
                  = (if completed && validateChecksum (kind d) (data s1)
                     then [mkCall kk (kind d) (data s1)] else [])
               /\ devices b' !! kk
                  = Some (mkDevice (kind d)
                            (if completed then resetDecoder s1 else s1)))
      /\ (forall x, In x calls -> (call_device x < length (devices b))%nat)
      /\ length (devices b') = length (devices b)
      /\ pulse b' = 0 /\ last b' = last b /\ usrCallbackfunc b' = true
      /\ Forall (fun d => isDone (dDecoder d) = false) (devices b')
      /\ (forall p : Z,
             exists calls2 b'',
               loop (mkBridge p (last b') (devices b') true) = Some (calls2, b'')
               /\ forall x y, In x calls -> In y calls2 ->
                              call_device y <> call_device x).
Proof.
  intros b Hp Hcb Hok. rewrite (loop_nonzero b Hp), Hcb.
  destruct (loop_devices_spec (pulse b) true (devices b) Hok)
    as (calls & ds' & El & Hok' & Hlen & Hnd & Hrange & Hdev).
  rewrite El, bind_Some. cbv beta iota.
  exists calls, (mkBridge 0 (last b) ds' true).
  split; [reflexivity |]. cbn [devices pulse last usrCallbackfunc].
  split.
  { intros kk d Hkk. destruct (Hdev kk d Hkk) as (c & s1 & En & Ef & Ed).
    exists c, s1. rewrite andb_true_r in Ef. auto. }
  split; [exact Hrange |]. split; [exact Hlen |].
  split; [reflexivity |]. split; [reflexivity |]. split; [reflexivity |].
  split; [exact Hnd |].
  intros p.
  destruct (loop_total (mkBridge p (last b) ds' true) Hok') as (calls2 & b'' & E2 & _).
  exists calls2, b''. split; [exact E2 |].
  intros x y Hx Hy Heq.
  destruct (Z.eqb_spec p 0) as [-> | Np].
  { unfold loop in E2. cbn in E2. injection E2 as <- _. contradiction. }
  rewrite (loop_nonzero (mkBridge p (last b) ds' true) Np) in E2.
  cbn [devices pulse last usrCallbackfunc] in E2.
  destruct (loop_devices p true 0 ds') as [[c2 ds2] |] eqn:El2; [| discriminate].
  rewrite bind_Some in E2. cbv beta iota in E2. injection E2 as <- _.
  pose proof (Hrange x Hx) as Hr.
  destruct (lookup_lt_is_Some_2 (devices b) (call_device x) Hr) as [d Hd].
  destruct (Hdev _ d Hd) as (c & s1 & En & Ef & Ed).
  assert (Hc : c = true).
  { destruct c; [reflexivity |]. cbn [andb] in Ef.
    assert (Hin : In x (List.filter (fun z => Nat.eqb (call_device z) (call_device x))
                          calls)).
    { apply filter_In. split; [exact Hx | apply Nat.eqb_refl]. }
    rewrite Ef in Hin. contradiction. }
  subst c.
  destruct (loop_devices_calls _ _ _ _ _ _ El2 (call_device x) _ Ed)
    as (c' & d' & Eb & _ & Ef').
  cbn [Nat.add] in Eb, Ef'.
  destruct (loop_body_inv _ _ _ _ _ _ Eb) as (c2' & s2 & En2 & Ec2 & _).
  cbn [kind dDecoder] in En2.
  destruct (nextPulse_after_reset (kind d) p s1) as (s3 & En3).
  rewrite En3 in En2. injection En2 as <- <-. cbn [andb] in Ec2.
  rewrite Ec2 in Ef'.
  assert (Hin : In y (List.filter (fun z => Nat.eqb (call_device z) (call_device x))
                        c2)).
  { apply filter_In. split; [exact Hy | apply Nat.eqb_eq, Heq]. }
  rewrite Ef' in Hin. contradiction.
Qed.

Lemma bridge_at_last_edge_ok : Forall device_ok (devices bridge_at_last_edge).
Proof.
  constructor; [split; [apply v1_almost_complete_wf | discriminate] |].
  constructor; [| constructor].
  split; [apply set_flip_wf; [unfold is_byte; lia | apply fresh_wf] | reflexivity].
Qed.

Lemma callback_iff_completed_and_valid_witness :
  loop bridge_at_last_edge
  = Some ([mkCall 0 Device_v1 (packet_v1_code1 ++ repeat 0 21)],
          mkBridge 0 49764
            [mkDevice Device_v1 (mk 0 0 0 UNKNOWN 0 (packet_v1_code1 ++ repeat 0 21));
             mkDevice Device_v2 fresh] true)
  /\ exists calls b',
      loop bridge_at_last_edge = Some (calls, b')
      /\ (forall (kk : nat) d,
             devices bridge_at_last_edge !! kk = Some d ->
             exists completed s1,
               nextPulse (decoder_of (kind d)) (pulse bridge_at_last_edge) (dDecoder d)
               = Some (completed, s1)
               /\ List.filter (fun x => Nat.eqb (call_device x) kk) calls
                  = (if completed && validateChecksum (kind d) (data s1)
                     then [mkCall kk (kind d) (data s1)] else [])
               /\ devices b' !! kk
                  = Some (mkDevice (kind d)
                            (if completed then resetDecoder s1 else s1)))
      /\ (forall x, In x calls ->
                    (call_device x < length (devices bridge_at_last_edge))%nat)
      /\ length (devices b') = length (devices bridge_at_last_edge)
      /\ pulse b' = 0 /\ last b' = last bridge_at_last_edge
      /\ usrCallbackfunc b' = true
      /\ Forall (fun d => isDone (dDecoder d) = false) (devices b')
      /\ (forall p : Z,
             exists calls2 b'',
               loop (mkBridge p (last b') (devices b') true) = Some (calls2, b'')
               /\ forall x y, In x calls -> In y calls2 ->
                              call_device y <> call_device x).
Proof.
  split; [vm_compute; reflexivity |].
  apply (callback_iff_completed_and_valid bridge_at_last_edge).
  - vm_compute. discriminate.
  - reflexivity.
  - apply bridge_at_last_edge_ok.
Defined.
